(** * bpmn-to-cacao: the BPMN to CACAO lowering, embedded and verified

    The development follows [cacao/cacao.go] and [bpmn/bpmn.go].  Go maps
    are finite maps ([gmap]) read with Go's zero-value convention, slices
    are lists, and the objects reached through pointers (the parsed BPMN
    definition, the playbook under construction) are fields of an explicit
    memory that every lowering function threads. *)

From Stdlib Require Import Ascii.
From stdpp Require Import base strings gmap list pretty.

Open Scope string_scope.
Open Scope nat_scope.

(** ** Go strings and maps *)

(** [fmt.Sprintf("%s--%s", a, b)] *)
Definition Sprintf_id (a b : string) : string := a +:+ "--" +:+ b.

(** [fmt.Sprintf("%s:%s", a, b)] *)
Definition Sprintf_key (a b : string) : string := a +:+ ":" +:+ b.

(** [fmt.Sprintf("%s:%d", a, i)] for a non-negative [i] *)
Definition Sprintf_key_d (a : string) (i : nat) : string := Sprintf_key a (pretty i).

(** [strings.HasPrefix(s, prefix)] *)
Fixpoint HasPrefix (s prefix : string) {struct prefix} : bool :=
  match prefix, s with
  | EmptyString, _ => true
  | String c prefix', String d s' =>
      if decide (c = d) then HasPrefix s' prefix' else false
  | String _ _, EmptyString => false
  end.

Fixpoint string_drop (n : nat) (s : string) : string :=
  match n, s with
  | O, _ => s
  | S n', String _ s' => string_drop n' s'
  | S _, EmptyString => EmptyString
  end.

(** [strings.TrimPrefix(s, prefix)] *)
Definition TrimPrefix (s prefix : string) : string :=
  if HasPrefix s prefix then string_drop (String.length prefix) s else s.

(** [strings.ReplaceAll(s, " ", "_")]: the space is one byte, and no byte of
    a multi-byte UTF-8 sequence equals it. *)
Fixpoint ReplaceAll_space_underscore (s : string) : string :=
  match s with
  | EmptyString => EmptyString
  | String c s' =>
      String (if decide (c = " "%char) then "_"%char else c)
             (ReplaceAll_space_underscore s')
  end.

(** [m[k]] on a [map[string]string]: the zero value when [k] is absent. *)
Definition getStr (m : gmap string string) (k : string) : string :=
  default "" (m !! k).

(** ** The parsed BPMN document ([bpmn/bpmn.go]) *)

Module BpmnStartEvent.
Record t := mk { Id : string; Name : string; Outgoing : string }.
End BpmnStartEvent.

Module BpmnTask.
Record t := mk {
  Id : string; Name : string; Documentation : string;
  Incoming : string; Outgoing : string }.
End BpmnTask.

Module BpmnGateway.
Record t := mk {
  Id : string; Name : string; Incoming : string; Outgoing : list string }.
End BpmnGateway.

Module BpmnSignalEventDefinition.
Record t := mk { Id : string }.
End BpmnSignalEventDefinition.

Module BpmnEndEvent.
Record t := mk {
  Id : string; Name : string; Incoming : list string;
  SignalEventDefinit : BpmnSignalEventDefinition.t }.
End BpmnEndEvent.

Module BpmnSequenceFlow.
Record t := mk {
  Id : string; SourceRef : string; TargetRef : string; Name : string }.
End BpmnSequenceFlow.

Module BpmnProcess.
Record t := mk {
  Id : string;
  Name : string;
  IsExecutable : bool;
  CamundaVersionTag : string;
  StartEvent : option BpmnStartEvent.t;
  ServiceTask : list BpmnTask.t;
  UserTask : list BpmnTask.t;
  ManualTask : list BpmnTask.t;
  ScriptTask : list BpmnTask.t;
  SendTask : list BpmnTask.t;
  Task : list BpmnTask.t;
  IntermediateThrowEvent : list BpmnTask.t;
  IntermediateCatchEvent : list BpmnTask.t;
  ExclusiveGateway : list BpmnGateway.t;
  InclusiveGateway : list BpmnGateway.t;
  ParallelGateway : list BpmnGateway.t;
  EndEvent : list BpmnEndEvent.t;
  SequenceFlow : list BpmnSequenceFlow.t }.
End BpmnProcess.

Module BpmnDefinitions.
Record t := mk {
  XMLName : string * string;
  Bpmn : string;
  Bpmndi : string;
  Dc : string;
  Di : string;
  Bioc : string;
  Camunda : string;
  Id : string;
  TargetNamespace : string;
  Exporter : string;
  ExporterVersion : string;
  Processes : list BpmnProcess.t }.
End BpmnDefinitions.

(** ** The CACAO playbook ([cacao/cacao.go], lines 33-127) *)

Definition CACAO_SPEC_VERSION_11 : string := "1.1".
Definition CACAO_SPEC_VERSION_20 : string := "2.0".

Definition CACAO_STEP_TYPE_START : string := "start".
Definition CACAO_STEP_TYPE_END : string := "end".
Definition CACAO_STEP_TYPE_11_STEP : string := "step".
Definition CACAO_STEP_TYPE_ACTION : string := "action".
Definition CACAO_STEP_TYPE_11_SINGLE : string := "single".
Definition CACAO_STEP_TYPE_PARALLEL : string := "parallel".
Definition CACAO_STEP_TYPE_IF_COND : string := "if-condition".
Definition CACAO_STEP_TYPE_SWITCH_COND : string := "switch-condition".

Definition CACAO_COMMAND_TYPE_MANUAL : string := "manual".
Definition CACAO_COMMAND_TYPE_BASH : string := "bash".
Definition CACAO_COMMAND_TYPE_HTTP : string := "http-api".

Module ExternalReference.
Record t := mk {
  Name : string; Description : string; Source : string;
  URL : string; Hash : string; ExternalID : string }.
End ExternalReference.

Module PlaybookVariable.
Record t := mk {
  Type_ : string; Description : string; Value : string; Constant : bool }.
End PlaybookVariable.

Module Command.
Record t := mk { Type_ : string; Command : string; Description : string }.
End Command.

Module Step.
Record t := mk {
  Type_ : string;
  Name : string;
  OnCompletion : string;
  Condition : string;
  OnTrue : string;
  OnFalse : string;
  Switch : string;
  Cases : gmap string (list string);
  NextSteps : list string;
  Commands : list Command.t;
  InArgs : list string }.
End Step.

(** [time.Time], as the clock reading it holds. *)
Definition Time : Type := Z.

Module CacaoPlaybook.
Record t := mk {
  Type_ : string;
  SpecVersion : string;
  ID : string;
  Name : string;
  Description : string;
  PlaybookTypes : list string;
  CreatedBy : string;
  Created : option Time;
  Modified : option Time;
  Revoked : bool;
  ValidFrom : option Time;
  ValidUntil : option Time;
  DerivedFrom : string;
  Priority : Z;
  Severity : Z;
  Impact : Z;
  Labels : list string;
  ExternalReferences : list ExternalReference.t;
  Markings : list string;
  PlaybookVariables : gmap string PlaybookVariable.t;
  WorkflowStart : string;
  WorkflowException : string;
  Workflow : gmap string Step.t }.

(** [p.Workflow = wf], the other fields kept. *)
Definition with_Workflow (p : t) (wf : gmap string Step.t) : t :=
  mk (Type_ p) (SpecVersion p) (ID p) (Name p) (Description p)
     (PlaybookTypes p) (CreatedBy p) (Created p) (Modified p) (Revoked p)
     (ValidFrom p) (ValidUntil p) (DerivedFrom p) (Priority p) (Severity p)
     (Impact p) (Labels p) (ExternalReferences p) (Markings p)
     (PlaybookVariables p) (WorkflowStart p) (WorkflowException p) wf.

(** [p.PlaybookVariables = vars], the other fields kept. *)
Definition with_PlaybookVariables (p : t) (vars : gmap string PlaybookVariable.t) : t :=
  mk (Type_ p) (SpecVersion p) (ID p) (Name p) (Description p)
     (PlaybookTypes p) (CreatedBy p) (Created p) (Modified p) (Revoked p)
     (ValidFrom p) (ValidUntil p) (DerivedFrom p) (Priority p) (Severity p)
     (Impact p) (Labels p) (ExternalReferences p) (Markings p)
     vars (WorkflowStart p) (WorkflowException p) (Workflow p).

End CacaoPlaybook.

(** ** The environment of a run and the memory the lowering works on *)

(** What a run takes from outside: the clock read by [time.Now()], the
    stream of random identifiers returned by successive [uuid.New()] calls,
    and, for the k-th [range] loop over the transition index, the order in
    which Go visits the entries (unspecified by the language). *)
Record Env := mkEnv {
  time_Now : Time;
  uuid_New : nat → string;
  range_order : nat → gmap string string → list (string * string) }.

(** The objects reached through pointers, with the number of [uuid.New()]
    calls and of [range nextStepMap] loops performed so far. *)
Module Mem.
Record t := mk {
  bpmnDefinition : BpmnDefinitions.t;
  cacaoPlaybook : CacaoPlaybook.t;
  uuids : nat;
  ranges : nat }.
End Mem.

(** [cacaoPlaybook.Workflow[stepId] = step] *)
Definition store_step (stepId : string) (step : Step.t) (m : Mem.t) : Mem.t :=
  Mem.mk (Mem.bpmnDefinition m)
        (CacaoPlaybook.with_Workflow (Mem.cacaoPlaybook m)
           (<[stepId := step]> (CacaoPlaybook.Workflow (Mem.cacaoPlaybook m))))
        (Mem.uuids m) (Mem.ranges m).

(** [cacaoPlaybook.PlaybookVariables[name] = var] *)
Definition store_variable (name : string) (var : PlaybookVariable.t) (m : Mem.t) : Mem.t :=
  Mem.mk (Mem.bpmnDefinition m)
        (CacaoPlaybook.with_PlaybookVariables (Mem.cacaoPlaybook m)
           (<[name := var]> (CacaoPlaybook.PlaybookVariables (Mem.cacaoPlaybook m))))
        (Mem.uuids m) (Mem.ranges m).

(** One [uuid.New()] call: the identifier and the memory after it. *)
Definition new_uuid (env : Env) (m : Mem.t) : string * Mem.t :=
  (uuid_New env (Mem.uuids m),
   Mem.mk (Mem.bpmnDefinition m) (Mem.cacaoPlaybook m) (S (Mem.uuids m)) (Mem.ranges m)).

(** One [range nextStepMap]: the visiting order and the memory after it. *)
Definition range_nextStepMap (env : Env) (nextStepMap : gmap string string)
    (m : Mem.t) : list (string * string) * Mem.t :=
  (range_order env (Mem.ranges m) nextStepMap,
   Mem.mk (Mem.bpmnDefinition m) (Mem.cacaoPlaybook m) (Mem.uuids m) (S (Mem.ranges m))).

(** The step the code writes for every end marker, real or synthesized:
    [Step{Type: CACAO_STEP_TYPE_END, Name: "End"}]. *)
Definition End_step : Step.t :=
  Step.mk CACAO_STEP_TYPE_END "End" "" "" "" "" "" ∅ [] [] [].

(** "create another end task and link it" (lines 139-150, 226-233,
    237-244): draw a random identifier, store an End step under it and
    return its id. *)
Definition synthesize_end (env : Env) (endStepType : string) (m : Mem.t) : string * Mem.t :=
  let '(endEventUuid, m) := new_uuid env m in
  let stepId := Sprintf_id endStepType endEventUuid in
  (stepId, store_step stepId End_step m).

(** ** Concrete library functions and inputs

    Stand-ins for the library functions on ASCII text, and the inputs on
    which the theorems below are exercised. *)

Module Example.

(** [strings.ToUpper] and [strings.ToLower] on ASCII letters. *)
Definition upper_char (c : ascii) : ascii :=
  let n := nat_of_ascii c in
  if decide (97 ≤ n ∧ n ≤ 122) then ascii_of_nat (n - 32) else c.

Definition lower_char (c : ascii) : ascii :=
  let n := nat_of_ascii c in
  if decide (65 ≤ n ∧ n ≤ 90) then ascii_of_nat (n + 32) else c.

Fixpoint map_chars (f : ascii → ascii) (s : string) : string :=
  match s with
  | EmptyString => EmptyString
  | String c s' => String (f c) (map_chars f s')
  end.

Definition ToUpper : string → string := map_chars upper_char.
Definition ToLower : string → string := map_chars lower_char.

(** The closure of lines 200-205 on ASCII: letters, digits and underscore. *)
Definition keep_char (c : ascii) : bool :=
  let n := nat_of_ascii c in
  bool_decide ((97 ≤ n ∧ n ≤ 122) ∨ (65 ≤ n ∧ n ≤ 90) ∨ (48 ≤ n ∧ n ≤ 57) ∨ n = 95).

Fixpoint Map_keep_ident (s : string) : string :=
  match s with
  | EmptyString => EmptyString
  | String c s' =>
      if keep_char c then String c (Map_keep_ident s') else Map_keep_ident s'
  end.

(** Name-based identifiers carry version 5, random ones version 4: the two
    never coincide. *)
Definition NewHash (id : string) : string := "v5-" +:+ id.
Definition env : Env := mkEnv 1700000000%Z (λ n, "v4-" +:+ pretty n) (λ _ m, map_to_list m).

Definition task (id name : string) : BpmnTask.t := BpmnTask.mk id name "" "" "".
Definition flow (source target name : string) : BpmnSequenceFlow.t :=
  BpmnSequenceFlow.mk "" source target name.
Definition gateway (id name : string) (outgoing : list string) : BpmnGateway.t :=
  BpmnGateway.mk id name "" outgoing.
Definition definitions (processes : list BpmnProcess.t) : BpmnDefinitions.t :=
  BpmnDefinitions.mk ("", "definitions") "" "" "" "" "" "" "Definitions_1" "" "" ""
    processes.

(** A process with nothing in it. *)
Definition empty_process : BpmnProcess.t :=
  BpmnProcess.mk "Process_0" "empty" true "" None [] [] [] [] [] [] [] [] [] [] [] [] [].

(** start -> service task Check -> exclusive gateway Approved?
    (Yes -> user task A, No -> user task B); A and B have no outgoing
    transition. *)
Definition approval : BpmnProcess.t :=
  BpmnProcess.mk "Process_1" "approval" true ""
    (Some (BpmnStartEvent.mk "Start" "begin" "Flow_1"))
    [task "Check" "Check"] [task "A" "do a"; task "B" "do b"] [] [] [] [] [] []
    [gateway "Gate" "Approved?" ["Flow_3"; "Flow_4"]] [] [] []
    [flow "Start" "Check" ""; flow "Check" "Gate" "";
     flow "Gate" "A" "Yes"; flow "Gate" "B" "No"].

(** No start event: two intermediate catch events, the first feeding the
    second. *)
Definition event_driven : BpmnProcess.t :=
  BpmnProcess.mk "Process_2" "event driven" true "" None
    [] [] [] [] [] [] [] [task "Catch_1" "wait"; task "Catch_2" "wait again"]
    [] [] [] [] [flow "Catch_1" "Catch_2" ""].


(** A parallel gateway with one declared outgoing transition and no
    sequence flow leaving it. *)
Definition dangling_fork : BpmnProcess.t :=
  BpmnProcess.mk "Process_4" "dangling fork" true "" None
    [] [] [] [] [] [] [] [] [] [] [gateway "Fork" "" ["Flow_1"]] [] [].

(** An exclusive gateway Gate with three labelled transitions, and a user
    task whose id, Gate2, starts with the gateway's id. *)
Definition prefixed_ids : BpmnProcess.t :=
  BpmnProcess.mk "Process_5" "prefixed ids" true "" None
    [] [task "A" "a"; task "B" "b"; task "C" "c"; task "Gate2" "other"] [] [] [] [] [] []
    [gateway "Gate" "Which?" ["Flow_1"; "Flow_2"; "Flow_3"]] [] [] []
    [flow "Gate" "A" "low"; flow "Gate" "B" "medium"; flow "Gate" "C" "high";
     flow "Gate2" "A" ""].

(** Two transitions leaving Gate: the first unlabelled, the second
    labelled 0. *)
Definition unlabelled_then_0 : list BpmnSequenceFlow.t :=
  [flow "Gate" "A" ""; flow "Gate" "B" "0"].

(** A start event and an end event with the same id. *)
Definition shared_id : BpmnProcess.t :=
  BpmnProcess.mk "Process_6" "shared id" true ""
    (Some (BpmnStartEvent.mk "Event_1" "begin" ""))
    [] [] [] [] [] [] [] [] [] [] []
    [BpmnEndEvent.mk "Event_1" "finish" [] (BpmnSignalEventDefinition.mk "")] [].

(** A user task followed by an inclusive gateway with two labelled
    transitions. *)
Definition inclusive_choice : BpmnProcess.t :=
  BpmnProcess.mk "Process_7" "inclusive choice" true "" None
    [] [task "Ask" "ask"; task "A" "a"; task "B" "b"] [] [] [] [] [] []
    [] [gateway "Either" "Which ones?" ["Flow_2"; "Flow_3"]] [] []
    [flow "Ask" "Either" ""; flow "Either" "A" "Yes"; flow "Either" "B" "No"].

(** Two transitions leaving Gate whose labels differ in case only. *)
Definition same_label_twice : list BpmnSequenceFlow.t :=
  [flow "Gate" "A" "Yes"; flow "Gate" "B" "yes"].

(** An exclusive gateway with three labelled transitions; no other id
    starts with the gateway's id. *)
Definition triage : BpmnProcess.t :=
  BpmnProcess.mk "Process_8" "triage" true "" None
    [] [task "A" "a"; task "B" "b"; task "C" "c"] [] [] [] [] [] []
    [gateway "Gate" "Severity" ["Flow_1"; "Flow_2"; "Flow_3"]] [] [] []
    [flow "Gate" "A" "low"; flow "Gate" "B" "medium"; flow "Gate" "C" "high"].

End Example.

Section Lowering.

(** Library functions the code calls, taken as they are:
    [uuid.NewHash(crypto.SHA256.New(), uuid.MustParse(CACAO_NAMESPACE_UUID_STRING), []byte(id), 5)]
    rendered by [%s]; [strings.ToUpper]; [strings.ToLower]; and
    [strings.Map] with the closure of lines 200-205, which keeps the runes
    that are letters, numbers or the underscore. *)
Variable uuid_NewHash : string → string.
Variable strings_ToUpper : string → string.
Variable strings_ToLower : string → string.
Variable strings_Map_keep_ident : string → string.

(** *** ProcessTask (lines 130-171) *)

(** The version tables of lines 132-135, 140-143, 176-185 and 287-304: the
    2.0 kind, or [step] under 1.1. *)
Definition kind_for (specVersion kind20 : string) : string :=
  if decide (specVersion = CACAO_SPEC_VERSION_11)
  then CACAO_STEP_TYPE_11_STEP else kind20.

Definition ProcessTask (env : Env) (task : BpmnTask.t)
    (commandType specVersion : string)
    (stepMap nextStepMap : gmap string string) (m : Mem.t) : Mem.t :=
  let taskUuid := uuid_NewHash (BpmnTask.Id task) in
  let stepType := kind_for specVersion CACAO_STEP_TYPE_ACTION in
  let stepId := Sprintf_id stepType taskUuid in
  let onCompletion :=
    getStr stepMap (getStr nextStepMap (Sprintf_key (BpmnTask.Id task) "0")) in
  let '(onCompletion, m) :=
    if decide (onCompletion = "") then
      let endStepType := kind_for specVersion CACAO_STEP_TYPE_END in
      synthesize_end env endStepType m
    else (onCompletion, m) in
  let internalStepType :=
    if decide (specVersion = CACAO_SPEC_VERSION_11)
    then CACAO_STEP_TYPE_11_SINGLE else CACAO_STEP_TYPE_ACTION in
  let internalStepType :=
    if decide (CacaoPlaybook.WorkflowStart (Mem.cacaoPlaybook m) = stepId)
    then CACAO_STEP_TYPE_START else internalStepType in
  store_step stepId
    (Step.mk internalStepType (BpmnTask.Name task) onCompletion "" "" "" "" ∅ []
       [Command.mk commandType (BpmnTask.Name task) (BpmnTask.Documentation task)]
       [])
    m.

(** *** ProcessGateway (lines 174-276) *)

(** Lines 191-193: one successor per outgoing transition, by position. *)
Definition parallel_NextSteps (gateway : BpmnGateway.t)
    (stepMap nextStepMap : gmap string string) : list string :=
  foldl (λ NextSteps i,
           (NextSteps ++
            [getStr stepMap
               (getStr nextStepMap (Sprintf_key_d (BpmnGateway.Id gateway) i))])%list)
        [] (seq 0 (length (BpmnGateway.Outgoing gateway))).

(** Lines 198-211: the condition variable's name. *)
Definition condition_name (gateway : BpmnGateway.t) : string :=
  let condition := ReplaceAll_space_underscore (BpmnGateway.Name gateway) in
  let condition := strings_ToLower condition in
  let condition := strings_Map_keep_ident condition in
  if decide (condition = "") then BpmnGateway.Id gateway else condition.

(** Lines 265-270: one pass over the transition index, in the order given. *)
Definition switch_cases_pass (gateway : BpmnGateway.t)
    (stepMap : gmap string string) (order : list (string * string))
    (Cases : gmap string (list string)) : gmap string (list string) :=
  foldl (λ Cases kv,
           let '(key, val) := kv in
           if HasPrefix key (BpmnGateway.Id gateway) then
             let nameString := TrimPrefix key (BpmnGateway.Id gateway +:+ ":") in
             <[nameString := [getStr stepMap val]]> Cases
           else Cases)
        Cases order.

(** Lines 263-271: the pass is repeated once per outgoing transition. *)
Definition switch_cases (env : Env) (gateway : BpmnGateway.t)
    (stepMap nextStepMap : gmap string string) (m : Mem.t)
    : gmap string (list string) * Mem.t :=
  foldl (λ '(Cases, m) (_ : nat),
           let '(order, m) := range_nextStepMap env nextStepMap m in
           (switch_cases_pass gateway stepMap order Cases, m))
        (∅, m) (seq 0 (length (BpmnGateway.Outgoing gateway))).

Definition ProcessGateway (env : Env) (gateway : BpmnGateway.t)
    (specVersion : string) (parallel : bool)
    (stepMap nextStepMap : gmap string string) (m : Mem.t) : Mem.t :=
  let gatewayUuid := uuid_NewHash (BpmnGateway.Id gateway) in
  let parallelStepType := kind_for specVersion CACAO_STEP_TYPE_PARALLEL in
  let ifStepType := kind_for specVersion CACAO_STEP_TYPE_IF_COND in
  let switchStepType := kind_for specVersion CACAO_STEP_TYPE_SWITCH_COND in
  let endStepType := kind_for specVersion CACAO_STEP_TYPE_END in
  if parallel then
    let stepId := Sprintf_id parallelStepType gatewayUuid in
    store_step stepId
      (Step.mk CACAO_STEP_TYPE_PARALLEL "" "" "" "" "" "" ∅
         (parallel_NextSteps gateway stepMap nextStepMap) [] [])
      m
  else
    let condition := condition_name gateway in
    let gatewayName :=
      if decide (BpmnGateway.Name gateway = "")
      then BpmnGateway.Id gateway else BpmnGateway.Name gateway in
    let m := store_variable condition
               (PlaybookVariable.mk "integer" gatewayName "0" false) m in
    if decide (length (BpmnGateway.Outgoing gateway) = 2) then
      let stepId := Sprintf_id ifStepType gatewayUuid in
      let onTrue :=
        getStr stepMap (getStr nextStepMap (Sprintf_key (BpmnGateway.Id gateway) "YES")) in
      let '(onTrue, m) :=
        if decide (onTrue = "") then synthesize_end env endStepType m
        else (onTrue, m) in
      let onFalse :=
        getStr stepMap (getStr nextStepMap (Sprintf_key (BpmnGateway.Id gateway) "NO")) in
      let '(onFalse, m) :=
        if decide (onFalse = "") then synthesize_end env endStepType m
        else (onFalse, m) in
      store_step stepId
        (Step.mk CACAO_STEP_TYPE_IF_COND gatewayName "" (condition +:+ " == 1")
           onTrue onFalse "" ∅ [] [] [condition])
        m
    else if decide (2 < length (BpmnGateway.Outgoing gateway)) then
      let stepId := Sprintf_id switchStepType gatewayUuid in
      let '(Cases, m) := switch_cases env gateway stepMap nextStepMap m in
      store_step stepId
        (Step.mk CACAO_STEP_TYPE_SWITCH_COND gatewayName "" "" "" "" condition
           Cases [] [] [condition])
        m
    else
      (* glog.Errorf: the anomaly is logged and no step is written *)
      m.

(** *** ConvertToCacao: the step-id index (lines 286-378) *)

(** Lines 307-311. *)
Definition classify_StartEvent (startStepType : string)
    (StartEvent : option BpmnStartEvent.t)
    : string * gmap string string :=
  match StartEvent with
  | Some ev =>
      let startEventUuid := uuid_NewHash (BpmnStartEvent.Id ev) in
      let startStepId := Sprintf_id startStepType startEventUuid in
      (startStepId, <[BpmnStartEvent.Id ev := startStepId]> ∅)
  | None => ("", ∅)
  end.

(** Lines 312-321. *)
Definition classify_IntermediateCatchEvent (startStepType actionStepType : string)
    (tasks : list BpmnTask.t) (st : string * gmap string string)
    : string * gmap string string :=
  foldl (λ '(startStepId, stepMap) task,
           let taskUuid := uuid_NewHash (BpmnTask.Id task) in
           if decide (startStepId ≠ "") then
             (startStepId,
              <[BpmnTask.Id task := Sprintf_id actionStepType taskUuid]> stepMap)
           else
             (Sprintf_id startStepType taskUuid, stepMap))
        st tasks.

(** Lines 323-326 and 356-359. *)
Definition classify_EndEvent (endStepType : string)
    (events : list BpmnEndEvent.t) (stepMap : gmap string string)
    : gmap string string :=
  foldl (λ stepMap endEvent,
           let endEventUuid := uuid_NewHash (BpmnEndEvent.Id endEvent) in
           <[BpmnEndEvent.Id endEvent := Sprintf_id endStepType endEventUuid]> stepMap)
        stepMap events.

(** Lines 328-355: the same loop for each task category. *)
Definition classify_tasks (actionStepType : string)
    (tasks : list BpmnTask.t) (stepMap : gmap string string)
    : gmap string string :=
  foldl (λ stepMap task,
           let taskUuid := uuid_NewHash (BpmnTask.Id task) in
           <[BpmnTask.Id task := Sprintf_id actionStepType taskUuid]> stepMap)
        stepMap tasks.

(** Lines 360-369. *)
Definition classify_ExclusiveGateway (ifStepType switchStepType : string)
    (gateways : list BpmnGateway.t) (stepMap : gmap string string)
    : gmap string string :=
  foldl (λ stepMap exclusiveGateway,
           let exclusiveGatewayUuid := uuid_NewHash (BpmnGateway.Id exclusiveGateway) in
           if decide (length (BpmnGateway.Outgoing exclusiveGateway) = 2) then
             <[BpmnGateway.Id exclusiveGateway :=
                 Sprintf_id ifStepType exclusiveGatewayUuid]> stepMap
           else if decide (2 < length (BpmnGateway.Outgoing exclusiveGateway)) then
             <[BpmnGateway.Id exclusiveGateway :=
                 Sprintf_id switchStepType exclusiveGatewayUuid]> stepMap
           else
             (* glog.Errorf: logged, nothing recorded *)
             stepMap)
        stepMap gateways.

(** Lines 370-378: parallel and inclusive gateways alike. *)
Definition classify_fanout (parallelStepType : string)
    (gateways : list BpmnGateway.t) (stepMap : gmap string string)
    : gmap string string :=
  foldl (λ stepMap parallelGateway,
           let parallelGatewayUuid := uuid_NewHash (BpmnGateway.Id parallelGateway) in
           <[BpmnGateway.Id parallelGateway :=
               Sprintf_id parallelStepType parallelGatewayUuid]> stepMap)
        stepMap gateways.

(** Lines 286-378 in order: the declared start id and the step-id index. *)
Definition build_stepMap (specVersion : string) (bpmnProcess : BpmnProcess.t)
    : string * gmap string string :=
  let startStepType := kind_for specVersion CACAO_STEP_TYPE_START in
  let endStepType := kind_for specVersion CACAO_STEP_TYPE_END in
  let actionStepType := kind_for specVersion CACAO_STEP_TYPE_ACTION in
  let ifStepType := kind_for specVersion CACAO_STEP_TYPE_IF_COND in
  let parallelStepType := kind_for specVersion CACAO_STEP_TYPE_PARALLEL in
  let switchStepType := kind_for specVersion CACAO_STEP_TYPE_SWITCH_COND in
  let st := classify_StartEvent startStepType (BpmnProcess.StartEvent bpmnProcess) in
  let '(startStepId, stepMap) :=
    classify_IntermediateCatchEvent startStepType actionStepType
      (BpmnProcess.IntermediateCatchEvent bpmnProcess) st in
  let stepMap := classify_EndEvent endStepType (BpmnProcess.EndEvent bpmnProcess) stepMap in
  let stepMap := classify_tasks actionStepType (BpmnProcess.ServiceTask bpmnProcess) stepMap in
  let stepMap := classify_tasks actionStepType (BpmnProcess.UserTask bpmnProcess) stepMap in
  let stepMap := classify_tasks actionStepType (BpmnProcess.ManualTask bpmnProcess) stepMap in
  let stepMap := classify_tasks actionStepType (BpmnProcess.ScriptTask bpmnProcess) stepMap in
  let stepMap := classify_tasks actionStepType (BpmnProcess.SendTask bpmnProcess) stepMap in
  let stepMap := classify_tasks actionStepType (BpmnProcess.Task bpmnProcess) stepMap in
  let stepMap :=
    classify_tasks actionStepType (BpmnProcess.IntermediateThrowEvent bpmnProcess) stepMap in
  let stepMap := classify_EndEvent endStepType (BpmnProcess.EndEvent bpmnProcess) stepMap in
  let stepMap :=
    classify_ExclusiveGateway ifStepType switchStepType
      (BpmnProcess.ExclusiveGateway bpmnProcess) stepMap in
  let stepMap := classify_fanout parallelStepType (BpmnProcess.ParallelGateway bpmnProcess) stepMap in
  let stepMap := classify_fanout parallelStepType (BpmnProcess.InclusiveGateway bpmnProcess) stepMap in
  (startStepId, stepMap).

(** *** ConvertToCacao: the transition index (lines 384-399) *)

(** Lines 390-396, [for i := 0; true; i++]: the first [i] from the given one
    whose key is unused.  The loop has no bound of its own; [fuel] bounds
    the number of probes, and [probe_finds] shows that one more than the
    size of the index is always enough. *)
Fixpoint probe (fuel : nat) (nextStepMap : gmap string string)
    (SourceRef : string) (i : nat) : option nat :=
  match fuel with
  | O => None
  | S fuel' =>
      match nextStepMap !! Sprintf_key_d SourceRef i with
      | None => Some i
      | Some _ => probe fuel' nextStepMap SourceRef (S i)
      end
  end.

(** Lines 386-397: the key under which a flow is recorded. *)
Definition nextStepMapKey (nextStepMap : gmap string string)
    (sequenceFlow : BpmnSequenceFlow.t) : string :=
  if decide (BpmnSequenceFlow.Name sequenceFlow ≠ "") then
    Sprintf_key (BpmnSequenceFlow.SourceRef sequenceFlow)
                (strings_ToUpper (BpmnSequenceFlow.Name sequenceFlow))
  else
    Sprintf_key_d (BpmnSequenceFlow.SourceRef sequenceFlow)
      (default 0 (probe (S (size nextStepMap)) nextStepMap
                        (BpmnSequenceFlow.SourceRef sequenceFlow) 0)).

(** Line 398. *)
Definition record_flow (nextStepMap : gmap string string)
    (sequenceFlow : BpmnSequenceFlow.t) : gmap string string :=
  <[nextStepMapKey nextStepMap sequenceFlow :=
      BpmnSequenceFlow.TargetRef sequenceFlow]> nextStepMap.

Definition build_nextStepMap (flows : list BpmnSequenceFlow.t) : gmap string string :=
  foldl record_flow ∅ flows.

(** *** ConvertToCacao: the playbook and the lowering (lines 401-466) *)

(** Lines 402-412: the freshly allocated playbook. *)
Definition new_playbook (env : Env) (specVersion : string)
    (bpmnProcess : BpmnProcess.t) (startStepId : string) : CacaoPlaybook.t :=
  let playbookUuid := uuid_NewHash (BpmnProcess.Id bpmnProcess) in
  let now := time_Now env in
  CacaoPlaybook.mk "playbook" specVersion ("playbook--" +:+ playbookUuid)
    (BpmnProcess.Name bpmnProcess) "" [] "" (Some now) (Some now) false
    None None "" 0 0 0 [] [] [] ∅ startStepId "" ∅.

(** Lines 415-422. *)
Definition create_start_step (StartEvent : option BpmnStartEvent.t)
    (stepMap nextStepMap : gmap string string) (m : Mem.t) : Mem.t :=
  match StartEvent with
  | Some ev =>
      let startId := getStr stepMap (BpmnStartEvent.Id ev) in
      store_step startId
        (Step.mk CACAO_STEP_TYPE_START (BpmnStartEvent.Name ev)
           (getStr stepMap (getStr nextStepMap (Sprintf_key (BpmnStartEvent.Id ev) "0")))
           "" "" "" "" ∅ [] [] [])
        m
  | None => m
  end.

(** Lines 427-433. *)
Definition create_end_steps (events : list BpmnEndEvent.t)
    (stepMap : gmap string string) (m : Mem.t) : Mem.t :=
  foldl (λ m endEvent,
           let endId := getStr stepMap (BpmnEndEvent.Id endEvent) in
           store_step endId End_step m)
        m events.

(** [for _, task := range tasks { ProcessTask(task, commandType, ...) }] *)
Definition ProcessTasks (env : Env) (commandType specVersion : string)
    (stepMap nextStepMap : gmap string string)
    (tasks : list BpmnTask.t) (m : Mem.t) : Mem.t :=
  foldl (λ m task, ProcessTask env task commandType specVersion stepMap nextStepMap m)
        m tasks.

(** [for _, gateway := range gateways { ProcessGateway(gateway, ..., parallel, ...) }] *)
Definition ProcessGateways (env : Env) (specVersion : string) (parallel : bool)
    (stepMap nextStepMap : gmap string string)
    (gateways : list BpmnGateway.t) (m : Mem.t) : Mem.t :=
  foldl (λ m gateway, ProcessGateway env gateway specVersion parallel stepMap nextStepMap m)
        m gateways.

(** Lines 414-465, in the order of the source. *)
Definition lower (env : Env) (specVersion : string) (bpmnProcess : BpmnProcess.t)
    (stepMap nextStepMap : gmap string string) (m : Mem.t) : Mem.t :=
  let tasks := ProcessTasks env in
  let m := create_start_step (BpmnProcess.StartEvent bpmnProcess) stepMap nextStepMap m in
  let m := tasks CACAO_COMMAND_TYPE_MANUAL specVersion stepMap nextStepMap
             (BpmnProcess.IntermediateCatchEvent bpmnProcess) m in
  let m := create_end_steps (BpmnProcess.EndEvent bpmnProcess) stepMap m in
  let m := tasks CACAO_COMMAND_TYPE_HTTP specVersion stepMap nextStepMap
             (BpmnProcess.ServiceTask bpmnProcess) m in
  let m := tasks CACAO_COMMAND_TYPE_MANUAL specVersion stepMap nextStepMap
             (BpmnProcess.UserTask bpmnProcess) m in
  let m := tasks CACAO_COMMAND_TYPE_MANUAL specVersion stepMap nextStepMap
             (BpmnProcess.ManualTask bpmnProcess) m in
  let m := tasks CACAO_COMMAND_TYPE_BASH specVersion stepMap nextStepMap
             (BpmnProcess.ScriptTask bpmnProcess) m in
  let m := tasks CACAO_COMMAND_TYPE_BASH specVersion stepMap nextStepMap
             (BpmnProcess.SendTask bpmnProcess) m in
  let m := tasks CACAO_COMMAND_TYPE_MANUAL specVersion stepMap nextStepMap
             (BpmnProcess.Task bpmnProcess) m in
  let m := tasks CACAO_COMMAND_TYPE_MANUAL specVersion stepMap nextStepMap
             (BpmnProcess.IntermediateThrowEvent bpmnProcess) m in
  let m := ProcessGateways env specVersion false stepMap nextStepMap
             (BpmnProcess.ExclusiveGateway bpmnProcess) m in
  let m := ProcessGateways env specVersion true stepMap nextStepMap
             (BpmnProcess.ParallelGateway bpmnProcess) m in
  let m := ProcessGateways env specVersion false stepMap nextStepMap
             (BpmnProcess.InclusiveGateway bpmnProcess) m in
  m.

(** The memory at the end of a conversion of [bpmnProcess], the single
    process of [bpmnDefinition]. *)
Definition convert_process (env : Env) (bpmnDefinition : BpmnDefinitions.t)
    (bpmnProcess : BpmnProcess.t) (specVersion : string) : Mem.t :=
  let '(startStepId, stepMap) := build_stepMap specVersion bpmnProcess in
  let nextStepMap := build_nextStepMap (BpmnProcess.SequenceFlow bpmnProcess) in
  let cacaoPlaybook := new_playbook env specVersion bpmnProcess startStepId in
  lower env specVersion bpmnProcess stepMap nextStepMap
    (Mem.mk bpmnDefinition cacaoPlaybook 0 0).

(** What a call leaves behind: the two results of the Go function and the
    object its pointer argument designates, as it is when the call
    returns. *)
Record Outcome := mkOutcome {
  playbook : option CacaoPlaybook.t;
  error : option string;
  bpmnDefinition_after : BpmnDefinitions.t }.

(** [ConvertToCacao] (lines 279-467).  The guard of line 280 and the read of
    [Processes[0]] are one match: a list has length one exactly when it is
    a singleton. *)
Definition ConvertToCacao (env : Env) (bpmnDefinition : BpmnDefinitions.t)
    (specVersion : string) : Outcome :=
  match BpmnDefinitions.Processes bpmnDefinition with
  | [bpmnProcess] =>
      let m := convert_process env bpmnDefinition bpmnProcess specVersion in
      mkOutcome (Some (Mem.cacaoPlaybook m)) None (Mem.bpmnDefinition m)
  | Processes =>
      mkOutcome None
        (Some ("unexpected number of process definitions: " +:+ pretty (length Processes)))
        bpmnDefinition
  end.

(** ** What the theorems speak about *)

(** The playbook without its two growing tables: what the lowering never
    touches once the playbook is allocated. *)
Definition envelope (p : CacaoPlaybook.t) : CacaoPlaybook.t :=
  CacaoPlaybook.with_Workflow (CacaoPlaybook.with_PlaybookVariables p ∅) ∅.

(** The memory outside the workflow, the variable table and the two
    counters. *)
Definition frame (m : Mem.t) : BpmnDefinitions.t * CacaoPlaybook.t :=
  (Mem.bpmnDefinition m, envelope (Mem.cacaoPlaybook m)).

Definition Workflow_of (m : Mem.t) : gmap string Step.t :=
  CacaoPlaybook.Workflow (Mem.cacaoPlaybook m).

(** The id under which [ProcessTask] stores the step of [task]. *)
Definition task_stepId (specVersion : string) (task : BpmnTask.t) : string :=
  Sprintf_id (kind_for specVersion CACAO_STEP_TYPE_ACTION)
             (uuid_NewHash (BpmnTask.Id task)).

(** The successor [ProcessTask] looks up for [task]; empty when the lookup
    through the two indices does not resolve. *)
Definition task_successor (stepMap nextStepMap : gmap string string)
    (task : BpmnTask.t) : string :=
  getStr stepMap (getStr nextStepMap (Sprintf_key (BpmnTask.Id task) "0")).

(** The id of the End step synthesized with the [n]-th random identifier. *)
Definition fresh_end_id (env : Env) (specVersion : string) (n : nat) : string :=
  Sprintf_id (kind_for specVersion CACAO_STEP_TYPE_END) (uuid_New env n).

(** The [Type] field [ProcessTask] gives a step stored under [stepId]
    (lines 152-158). *)
Definition task_step_Type (specVersion WorkflowStart stepId : string) : string :=
  if decide (WorkflowStart = stepId) then CACAO_STEP_TYPE_START
  else if decide (specVersion = CACAO_SPEC_VERSION_11)
       then CACAO_STEP_TYPE_11_SINGLE else CACAO_STEP_TYPE_ACTION.

(** The step [ProcessTask] stores for [task], given its successor. *)
Definition task_step (specVersion WorkflowStart commandType : string)
    (task : BpmnTask.t) (onCompletion : string) : Step.t :=
  Step.mk (task_step_Type specVersion WorkflowStart (task_stepId specVersion task))
    (BpmnTask.Name task) onCompletion "" "" "" "" ∅ []
    [Command.mk commandType (BpmnTask.Name task) (BpmnTask.Documentation task)]
    [].

(** The id under which [ProcessGateway] stores a step of kind [kind20]. *)
Definition gateway_stepId (specVersion kind20 : string) (gateway : BpmnGateway.t)
    : string :=
  Sprintf_id (kind_for specVersion kind20) (uuid_NewHash (BpmnGateway.Id gateway)).

(** Lines 212-215. *)
Definition gateway_name (gateway : BpmnGateway.t) : string :=
  if decide (BpmnGateway.Name gateway = "")
  then BpmnGateway.Id gateway else BpmnGateway.Name gateway.

(** The branch target found under [discriminator]; empty when unresolved. *)
Definition gateway_branch (stepMap nextStepMap : gmap string string)
    (gateway : BpmnGateway.t) (discriminator : string) : string :=
  getStr stepMap (getStr nextStepMap (Sprintf_key (BpmnGateway.Id gateway) discriminator)).

(** The if-condition step of lines 246-253. *)
Definition if_step (gateway : BpmnGateway.t) (onTrue onFalse : string) : Step.t :=
  Step.mk CACAO_STEP_TYPE_IF_COND (gateway_name gateway) ""
    (condition_name gateway +:+ " == 1") onTrue onFalse "" ∅ [] []
    [condition_name gateway].

(** The switch-condition step of lines 256-262, with its case table. *)
Definition switch_step (gateway : BpmnGateway.t) (Cases : gmap string (list string))
    : Step.t :=
  Step.mk CACAO_STEP_TYPE_SWITCH_COND (gateway_name gateway) "" "" "" ""
    (condition_name gateway) Cases [] [] [condition_name gateway].



Definition PlaybookVariables_of (m : Mem.t) : gmap string PlaybookVariable.t :=
  CacaoPlaybook.PlaybookVariables (Mem.cacaoPlaybook m).

(** Lines 216-221: the variable a gateway lowered conditionally declares. *)
Definition declare_variable (vars : gmap string PlaybookVariable.t)
    (gateway : BpmnGateway.t) : gmap string PlaybookVariable.t :=
  <[condition_name gateway :=
      PlaybookVariable.mk "integer" (gateway_name gateway) "0" false]> vars.


(** The parallel step of lines 188-193. *)
Definition parallel_step (gateway : BpmnGateway.t)
    (stepMap nextStepMap : gmap string string) : Step.t :=
  Step.mk CACAO_STEP_TYPE_PARALLEL "" "" "" "" "" "" ∅
    (parallel_NextSteps gateway stepMap nextStepMap) [] [].

(** Every id a step names as a successor: on_completion, on_true,
    on_false, the targets of every case, and the fan-out list.  An unused
    string field is the empty string. *)
Definition successors (step : Step.t) : list string :=
  (Step.OnCompletion step :: Step.OnTrue step :: Step.OnFalse step
   :: concat ((map_to_list (Step.Cases step)).*2) ++ Step.NextSteps step)%list.

(** Referential closure, with the empty string allowed: every non-empty
    successor named by a step of [wf] is a key of [wf]. *)
Definition closed (wf : gmap string Step.t) : Prop :=
  map_Forall
    (λ _ step, Forall (λ r, r = "" ∨ is_Some (wf !! r)) (successors step)) wf.

(** The same while the lowering is under way: a successor may also be an
    id promised by the step-id index. *)
Definition closed_up_to (stepMap : gmap string string) (wf : gmap string Step.t) : Prop :=
  map_Forall
    (λ _ step,
       Forall (λ r, r = "" ∨ is_Some (wf !! r) ∨ ∃ id, stepMap !! id = Some r)
              (successors step))
    wf.

(** The task-like nodes of a process, in the order the lowering visits
    their categories. *)
Definition all_tasks (p : BpmnProcess.t) : list BpmnTask.t :=
  (BpmnProcess.IntermediateCatchEvent p ++ BpmnProcess.ServiceTask p
   ++ BpmnProcess.UserTask p ++ BpmnProcess.ManualTask p
   ++ BpmnProcess.ScriptTask p ++ BpmnProcess.SendTask p
   ++ BpmnProcess.Task p ++ BpmnProcess.IntermediateThrowEvent p)%list.

(** Where an entry [id ↦ stepId] of the step-id index comes from. *)
Definition promised (specVersion : string) (p : BpmnProcess.t)
    (id stepId : string) : Prop :=
  (∃ ev, BpmnProcess.StartEvent p = Some ev ∧ id = BpmnStartEvent.Id ev
         ∧ stepId = Sprintf_id (kind_for specVersion CACAO_STEP_TYPE_START)
                               (uuid_NewHash id))
  ∨ (∃ ev, ev ∈ BpmnProcess.EndEvent p ∧ id = BpmnEndEvent.Id ev
           ∧ stepId = Sprintf_id (kind_for specVersion CACAO_STEP_TYPE_END)
                                 (uuid_NewHash id))
  ∨ (∃ task, task ∈ all_tasks p ∧ id = BpmnTask.Id task
             ∧ stepId = task_stepId specVersion task)
  ∨ (∃ gateway, gateway ∈ BpmnProcess.ExclusiveGateway p
                ∧ id = BpmnGateway.Id gateway
                ∧ length (BpmnGateway.Outgoing gateway) = 2
                ∧ stepId = gateway_stepId specVersion CACAO_STEP_TYPE_IF_COND gateway)
  ∨ (∃ gateway, gateway ∈ BpmnProcess.ExclusiveGateway p
                ∧ id = BpmnGateway.Id gateway
                ∧ 2 < length (BpmnGateway.Outgoing gateway)
                ∧ stepId = gateway_stepId specVersion CACAO_STEP_TYPE_SWITCH_COND gateway)
  ∨ (∃ gateway, gateway ∈ BpmnProcess.ParallelGateway p
                ∧ id = BpmnGateway.Id gateway
                ∧ stepId = gateway_stepId specVersion CACAO_STEP_TYPE_PARALLEL gateway)
  ∨ (∃ gateway, gateway ∈ BpmnProcess.InclusiveGateway p
                ∧ id = BpmnGateway.Id gateway
                ∧ stepId = gateway_stepId specVersion CACAO_STEP_TYPE_PARALLEL gateway).

(** [stepId] is a key of the workflow held in [m]. *)
Definition has_key (m : Mem.t) (stepId : string) : Prop :=
  is_Some (Workflow_of m !! stepId).

(** How many keys of the workflow equal [stepId]. *)
Definition occurrences (wf : gmap string Step.t) (stepId : string) : nat :=
  length (filter (λ entry, entry.1 = stepId) (map_to_list wf)).

(** The id of the node that the code makes the declared start and also
    stores under the declared start id: the start event, or, without one
    and under 1.1, the first intermediate catch event. *)
Definition start_node (specVersion : string) (p : BpmnProcess.t) : option string :=
  match BpmnProcess.StartEvent p with
  | Some ev => Some (BpmnStartEvent.Id ev)
  | None =>
      if decide (specVersion = CACAO_SPEC_VERSION_11)
      then BpmnTask.Id <$> head (BpmnProcess.IntermediateCatchEvent p)
      else None
  end.

Definition end_and_gateway_ids (p : BpmnProcess.t) : list string :=
  ((BpmnEndEvent.Id <$> BpmnProcess.EndEvent p)
   ++ (BpmnGateway.Id <$> BpmnProcess.ExclusiveGateway p)
   ++ (BpmnGateway.Id <$> BpmnProcess.ParallelGateway p)
   ++ (BpmnGateway.Id <$> BpmnProcess.InclusiveGateway p))%list.

Definition task_ids (p : BpmnProcess.t) : list string :=
  BpmnTask.Id <$> all_tasks p.

(** The 2.0 kinds from which step ids are derived. *)
Definition derived_kinds : list string :=
  [CACAO_STEP_TYPE_START; CACAO_STEP_TYPE_END; CACAO_STEP_TYPE_ACTION;
   CACAO_STEP_TYPE_IF_COND; CACAO_STEP_TYPE_SWITCH_COND; CACAO_STEP_TYPE_PARALLEL].

(** The declared start is a key of the workflow and holds a start step. *)
Definition start_stored (WorkflowStart : string) (wf : gmap string Step.t) : Prop :=
  ∃ step, wf !! WorkflowStart = Some step
          ∧ Step.Type_ step = CACAO_STEP_TYPE_START.

(** The number of End steps a gateway lowered conditionally synthesizes:
    one per branch, YES and NO, that does not resolve, when it has two
    outgoing transitions. *)
Definition gateway_repairs (stepMap nextStepMap : gmap string string)
    (gateway : BpmnGateway.t) : nat :=
  if decide (length (BpmnGateway.Outgoing gateway) = 2) then
    (if decide (gateway_branch stepMap nextStepMap gateway "YES" = "") then 1 else 0)
    + (if decide (gateway_branch stepMap nextStepMap gateway "NO" = "") then 1 else 0)
  else 0.

(** The variable of lines 216-221. *)
Definition gateway_variable (gateway : BpmnGateway.t) : PlaybookVariable.t :=
  PlaybookVariable.mk "integer" (gateway_name gateway) "0" false.

(** A string without a colon, as a BPMN id is: ids are XML names without
    colon. *)
Fixpoint colon_free (s : string) : bool :=
  match s with
  | EmptyString => true
  | String c s' => if decide (c = ":"%char) then false else colon_free s'
  end.

(** A string of decimal digits only. *)
Fixpoint all_digits (s : string) : bool :=
  match s with
  | EmptyString => true
  | String c s' =>
      bool_decide (48 ≤ nat_of_ascii c ∧ nat_of_ascii c ≤ 57) && all_digits s'
  end.

(** The flows without a label that leave [SourceRef], in document order. *)
Definition unlabelled_from (SourceRef : string) (flows : list BpmnSequenceFlow.t)
    : list BpmnSequenceFlow.t :=
  filter (λ f, BpmnSequenceFlow.SourceRef f = SourceRef
               ∧ BpmnSequenceFlow.Name f = "") flows.

(** The labelled flows that leave [SourceRef] and whose label, upper-cased,
    is [label], in document order. *)
Definition labelled_from (SourceRef label : string) (flows : list BpmnSequenceFlow.t)
    : list BpmnSequenceFlow.t :=
  filter (λ f, BpmnSequenceFlow.SourceRef f = SourceRef
               ∧ BpmnSequenceFlow.Name f ≠ ""
               ∧ strings_ToUpper (BpmnSequenceFlow.Name f) = label) flows.

(** The task-like nodes other than intermediate catch events. *)
Definition plain_tasks (p : BpmnProcess.t) : list BpmnTask.t :=
  (BpmnProcess.ServiceTask p ++ BpmnProcess.UserTask p ++ BpmnProcess.ManualTask p
   ++ BpmnProcess.ScriptTask p ++ BpmnProcess.SendTask p
   ++ BpmnProcess.Task p ++ BpmnProcess.IntermediateThrowEvent p)%list.

(** The intermediate catch events that get an entry of the step-id index:
    all of them when the process has a start event, all but the first
    otherwise. *)
Definition indexed_catch_events (p : BpmnProcess.t) : list BpmnTask.t :=
  match BpmnProcess.StartEvent p with
  | Some _ => BpmnProcess.IntermediateCatchEvent p
  | None => tail (BpmnProcess.IntermediateCatchEvent p)
  end.

(** The BPMN ids that get an entry of the step-id index. *)
Definition indexed_ids (p : BpmnProcess.t) : list string :=
  (match BpmnProcess.StartEvent p with
   | Some ev => [BpmnStartEvent.Id ev]
   | None => []
   end
   ++ (BpmnTask.Id <$> indexed_catch_events p)
   ++ (BpmnEndEvent.Id <$> BpmnProcess.EndEvent p)
   ++ (BpmnTask.Id <$> plain_tasks p)
   ++ (BpmnGateway.Id
         <$> filter (λ gateway, 2 ≤ length (BpmnGateway.Outgoing gateway))
                    (BpmnProcess.ExclusiveGateway p))
   ++ (BpmnGateway.Id <$> BpmnProcess.ParallelGateway p)
   ++ (BpmnGateway.Id <$> BpmnProcess.InclusiveGateway p))%list.

(** The declared start of lines 305-321: the start event's step id, else
    the start id derived from the first intermediate catch event, else
    empty. *)
Definition declared_start (specVersion : string) (p : BpmnProcess.t) : string :=
  let startStepType := kind_for specVersion CACAO_STEP_TYPE_START in
  match BpmnProcess.StartEvent p with
  | Some ev => Sprintf_id startStepType (uuid_NewHash (BpmnStartEvent.Id ev))
  | None =>
      match head (BpmnProcess.IntermediateCatchEvent p) with
      | Some task => Sprintf_id startStepType (uuid_NewHash (BpmnTask.Id task))
      | None => ""
      end
  end.

(** The gateways lowered conditionally: the exclusive ones, then the
    inclusive ones. *)
Definition conditional_gateways (p : BpmnProcess.t) : list BpmnGateway.t :=
  (BpmnProcess.ExclusiveGateway p ++ BpmnProcess.InclusiveGateway p)%list.

(** The header the conversion gives the playbook of process [p] (lines
    402-412): every field but the two tables. *)
Definition header (env : Env) (specVersion : string) (p : BpmnProcess.t)
    : CacaoPlaybook.t :=
  CacaoPlaybook.mk "playbook" specVersion
    ("playbook--" +:+ uuid_NewHash (BpmnProcess.Id p)) (BpmnProcess.Name p)
    "" [] "" (Some (time_Now env)) (Some (time_Now env)) false None None "" 0 0 0
    [] [] [] ∅ (declared_start specVersion p) "" ∅.

(** The task categories in the order the lowering visits them, each with
    the command type its tasks are given (lines 423-457). *)
Definition categories (p : BpmnProcess.t) : list (string * list BpmnTask.t) :=
  [(CACAO_COMMAND_TYPE_MANUAL, BpmnProcess.IntermediateCatchEvent p);
   (CACAO_COMMAND_TYPE_HTTP, BpmnProcess.ServiceTask p);
   (CACAO_COMMAND_TYPE_MANUAL, BpmnProcess.UserTask p);
   (CACAO_COMMAND_TYPE_MANUAL, BpmnProcess.ManualTask p);
   (CACAO_COMMAND_TYPE_BASH, BpmnProcess.ScriptTask p);
   (CACAO_COMMAND_TYPE_BASH, BpmnProcess.SendTask p);
   (CACAO_COMMAND_TYPE_MANUAL, BpmnProcess.Task p);
   (CACAO_COMMAND_TYPE_MANUAL, BpmnProcess.IntermediateThrowEvent p)].

(** [task] belongs to a category lowered with [commandType]. *)
Definition lowered_as (p : BpmnProcess.t) (task : BpmnTask.t) (commandType : string)
    : Prop :=
  ∃ tasks, (commandType, tasks) ∈ categories p ∧ task ∈ tasks.

(** The start step of lines 415-422. *)
Definition start_step (ev : BpmnStartEvent.t)
    (stepMap nextStepMap : gmap string string) : Step.t :=
  Step.mk CACAO_STEP_TYPE_START (BpmnStartEvent.Name ev)
    (getStr stepMap (getStr nextStepMap (Sprintf_key (BpmnStartEvent.Id ev) "0")))
    "" "" "" "" ∅ [] [] [].

(** A link after the repair of lines 139-150, 226-233 and 237-244: the id
    looked up when there is one, else the id of an End step synthesized
    with one of the first [draws] random identifiers. *)
Definition repaired (env : Env) (specVersion : string) (draws : nat)
    (looked_up link : string) : Prop :=
  (looked_up ≠ "" ∧ link = looked_up)
  ∨ (looked_up = "" ∧ ∃ n, n < draws ∧ link = fresh_end_id env specVersion n).

(** What the lowering of process [p] stores in the workflow: a key and the
    step stored under it, for each kind of node and for the End steps
    synthesized with the first [draws] random identifiers. *)
Definition written_for (env : Env) (specVersion : string) (p : BpmnProcess.t)
    (stepMap nextStepMap : gmap string string) (WorkflowStart : string)
    (draws : nat) (key : string) (step : Step.t) : Prop :=
  (∃ ev, BpmnProcess.StartEvent p = Some ev
         ∧ key = getStr stepMap (BpmnStartEvent.Id ev)
         ∧ step = start_step ev stepMap nextStepMap)
  ∨ (∃ ev, ev ∈ BpmnProcess.EndEvent p
           ∧ key = getStr stepMap (BpmnEndEvent.Id ev)
           ∧ step = End_step)
  ∨ (∃ task commandType link,
       lowered_as p task commandType
       ∧ repaired env specVersion draws (task_successor stepMap nextStepMap task) link
       ∧ key = task_stepId specVersion task
       ∧ step = task_step specVersion WorkflowStart commandType task link)
  ∨ (∃ gateway onTrue onFalse,
       gateway ∈ conditional_gateways p
       ∧ length (BpmnGateway.Outgoing gateway) = 2
       ∧ repaired env specVersion draws
           (gateway_branch stepMap nextStepMap gateway "YES") onTrue
       ∧ repaired env specVersion draws
           (gateway_branch stepMap nextStepMap gateway "NO") onFalse
       ∧ key = gateway_stepId specVersion CACAO_STEP_TYPE_IF_COND gateway
       ∧ step = if_step gateway onTrue onFalse)
  ∨ (∃ gateway Cases,
       gateway ∈ conditional_gateways p
       ∧ 2 < length (BpmnGateway.Outgoing gateway)
       ∧ map_Forall (λ _ targets, ∃ val, targets = [getStr stepMap val]) Cases
       ∧ key = gateway_stepId specVersion CACAO_STEP_TYPE_SWITCH_COND gateway
       ∧ step = switch_step gateway Cases)
  ∨ (∃ gateway,
       gateway ∈ BpmnProcess.ParallelGateway p
       ∧ key = gateway_stepId specVersion CACAO_STEP_TYPE_PARALLEL gateway
       ∧ step = parallel_step gateway stepMap nextStepMap)
  ∨ (∃ n, n < draws ∧ key = fresh_end_id env specVersion n ∧ step = End_step).

(** The number of tasks whose successor does not resolve. *)
Definition unresolved_tasks (stepMap nextStepMap : gmap string string)
    (tasks : list BpmnTask.t) : nat :=
  length (filter (λ task, task_successor stepMap nextStepMap task = "") tasks).

(** Every End step synthesized so far is in the workflow. *)
Definition fresh_stored (env : Env) (specVersion : string) (m : Mem.t) : Prop :=
  ∀ n, n < Mem.uuids m → has_key m (fresh_end_id env specVersion n).

(** ** Strings *)

(** A proof depends on the library functions its statement names, and on
    no other. *)
Local Set Default Proof Using "Type".

Lemma Sprintf_id_nonempty a b : Sprintf_id a b ≠ "".
Proof. unfold Sprintf_id. destruct a; simpl; discriminate. Qed.

Lemma append_cancel_l (p a b : string) : p +:+ a = p +:+ b → a = b.
Proof. induction p as [|c p IH]; simpl; [done|]. intros [=]. auto. Qed.

Lemma Sprintf_id_inj k a b : Sprintf_id k a = Sprintf_id k b → a = b.
Proof.
  unfold Sprintf_id. intros H%append_cancel_l. by apply (append_cancel_l "--").
Qed.

Lemma Sprintf_key_d_inj a i j : Sprintf_key_d a i = Sprintf_key_d a j → i = j.
Proof.
  unfold Sprintf_key_d, Sprintf_key. intros H%append_cancel_l.
  apply (append_cancel_l ":") in H. by apply (inj pretty) in H.
Qed.

(** ** Loops *)

Lemma foldl_invariant {A B} (P : A → Prop) (f : A → B → A) (l : list B) (a : A) :
  P a → (∀ a b, b ∈ l → P a → P (f a b)) → P (foldl f a l).
Proof.
  revert a. induction l as [|b l IH]; intros a Ha Hf; simpl; [done|].
  apply IH.
  - apply Hf; [left|done].
  - intros a' b' Hb'. apply Hf. by right.
Qed.


Lemma elem_of_concat {A} (ls : list (list A)) (x : A) :
  x ∈ concat ls ↔ ∃ l, x ∈ l ∧ l ∈ ls.
Proof.
  induction ls as [|l ls IH]; simpl.
  - split; [by inversion 1|]. intros (l & _ & H). by inversion H.
  - rewrite elem_of_app, IH. split.
    + intros [H|(l' & Hx & Hl')].
      * exists l. split; [done|left].
      * exists l'. split; [done|by right].
    + intros (l' & Hx & [->|Hl']%elem_of_cons); [by left|].
      right. by exists l'.
Qed.

Lemma append_assoc' (a b c : string) : (a +:+ b) +:+ c = a +:+ (b +:+ c).
Proof.
  induction a as [|x a IH]; [done|].
  change (String x ((a +:+ b) +:+ c) = String x (a +:+ (b +:+ c))). by f_equal.
Qed.

Lemma HasPrefix_append p s : HasPrefix (p +:+ s) p = true.
Proof.
  induction p as [|c p IH]; [reflexivity|].
  change (String c p +:+ s) with (String c (p +:+ s)). simpl.
  by rewrite decide_True.
Qed.

Lemma string_drop_append p s : string_drop (String.length p) (p +:+ s) = s.
Proof. induction p as [|c p IH]; [reflexivity|]. exact IH. Qed.

Lemma HasPrefix_split s p :
  HasPrefix s p = true → s = p +:+ string_drop (String.length p) s.
Proof.
  revert s. induction p as [|c p IH]; intros s; [reflexivity|].
  destruct s as [|d s]; [done|]. simpl.
  destruct (decide (c = d)) as [->|]; [|done].
  intros H. change (String d s = String d (p +:+ string_drop (String.length p) s)).
  f_equal. by apply IH.
Qed.

Lemma TrimPrefix_append p s : TrimPrefix (p +:+ s) p = s.
Proof. unfold TrimPrefix. by rewrite HasPrefix_append, string_drop_append. Qed.

(** ** The frame of the lowering

    Every lowering operation writes the workflow, the variable table and
    the two counters, and nothing else. *)

Lemma frame_store_step stepId step m : frame (store_step stepId step m) = frame m.
Proof. reflexivity. Qed.

Lemma frame_store_variable name var m : frame (store_variable name var m) = frame m.
Proof. reflexivity. Qed.

Lemma frame_synthesize_end env endStepType m :
  frame (synthesize_end env endStepType m).2 = frame m.
Proof. reflexivity. Qed.

Lemma frame_switch_cases env gateway stepMap nextStepMap m :
  frame (switch_cases env gateway stepMap nextStepMap m).2 = frame m.
Proof.
  unfold switch_cases.
  apply (foldl_invariant (λ st, frame st.2 = frame m)); [done|].
  by intros [Cases m'] _ _.
Qed.

Lemma frame_ProcessTask env task commandType specVersion stepMap nextStepMap m :
  frame (ProcessTask env task commandType specVersion stepMap nextStepMap m) = frame m.
Proof.
  unfold ProcessTask.
  destruct (decide (getStr stepMap _ = "")); simpl; reflexivity.
Qed.

Lemma frame_ProcessGateway env gateway specVersion parallel stepMap nextStepMap m :
  frame (ProcessGateway env gateway specVersion parallel stepMap nextStepMap m) = frame m.
Proof.
  unfold ProcessGateway. destruct parallel; [reflexivity|].
  destruct (decide (length _ = 2)).
  - by repeat (destruct (decide (getStr stepMap _ = "")); simpl).
  - destruct (decide (2 < length _)); [|reflexivity].
    destruct (switch_cases _ _ _ _ _) as [Cases m'] eqn:E.
    rewrite frame_store_step.
    change m' with (Cases, m').2. rewrite <- E.
    by rewrite frame_switch_cases.
Qed.

Lemma frame_ProcessTasks env commandType specVersion stepMap nextStepMap tasks m :
  frame (ProcessTasks env commandType specVersion stepMap nextStepMap tasks m) = frame m.
Proof.
  unfold ProcessTasks.
  apply (foldl_invariant (λ m', frame m' = frame m)); [done|].
  intros m' task _ <-. apply frame_ProcessTask.
Qed.

Lemma frame_ProcessGateways env specVersion parallel stepMap nextStepMap gateways m :
  frame (ProcessGateways env specVersion parallel stepMap nextStepMap gateways m) = frame m.
Proof.
  unfold ProcessGateways.
  apply (foldl_invariant (λ m', frame m' = frame m)); [done|].
  intros m' gateway _ <-. apply frame_ProcessGateway.
Qed.

Lemma frame_create_start_step StartEvent stepMap nextStepMap m :
  frame (create_start_step StartEvent stepMap nextStepMap m) = frame m.
Proof. by destruct StartEvent. Qed.

Lemma frame_create_end_steps events stepMap m :
  frame (create_end_steps events stepMap m) = frame m.
Proof.
  unfold create_end_steps.
  apply (foldl_invariant (λ m', frame m' = frame m)); [done|].
  by intros m' ev _ <-.
Qed.

Lemma frame_lower env specVersion bpmnProcess stepMap nextStepMap m :
  frame (lower env specVersion bpmnProcess stepMap nextStepMap m) = frame m.
Proof.
  unfold lower.
  rewrite !frame_ProcessGateways, !frame_ProcessTasks, frame_create_end_steps,
    !frame_ProcessTasks.
  apply frame_create_start_step.
Qed.

Lemma frame_convert_process env bpmnDefinition bpmnProcess specVersion :
  frame (convert_process env bpmnDefinition bpmnProcess specVersion)
  = (bpmnDefinition,
     new_playbook env specVersion bpmnProcess (build_stepMap specVersion bpmnProcess).1).
Proof.
  unfold convert_process.
  destruct (build_stepMap specVersion bpmnProcess) as [startStepId stepMap].
  by rewrite frame_lower.
Qed.

Lemma frame_WorkflowStart m m' :
  frame m = frame m' →
  CacaoPlaybook.WorkflowStart (Mem.cacaoPlaybook m)
  = CacaoPlaybook.WorkflowStart (Mem.cacaoPlaybook m').
Proof.
  intros H. by apply (f_equal (λ x, CacaoPlaybook.WorkflowStart x.2)) in H.
Qed.

(** ** ProcessTask *)

Lemma Workflow_of_store_step stepId step m :
  Workflow_of (store_step stepId step m) = <[stepId := step]> (Workflow_of m).
Proof. reflexivity. Qed.

Lemma synthesize_end_eq env specVersion m :
  synthesize_end env (kind_for specVersion CACAO_STEP_TYPE_END) m
  = (fresh_end_id env specVersion (Mem.uuids m),
     store_step (fresh_end_id env specVersion (Mem.uuids m)) End_step
       (new_uuid env m).2).
Proof. reflexivity. Qed.

(** What [ProcessTask] does to the workflow, in one equation. *)
Lemma ProcessTask_Workflow env task commandType specVersion stepMap nextStepMap m :
  let WorkflowStart := CacaoPlaybook.WorkflowStart (Mem.cacaoPlaybook m) in
  let successor := task_successor stepMap nextStepMap task in
  Workflow_of (ProcessTask env task commandType specVersion stepMap nextStepMap m)
  = if decide (successor = "") then
      <[task_stepId specVersion task :=
          task_step specVersion WorkflowStart commandType task
            (fresh_end_id env specVersion (Mem.uuids m))]>
        (<[fresh_end_id env specVersion (Mem.uuids m) := End_step]> (Workflow_of m))
    else
      <[task_stepId specVersion task :=
          task_step specVersion WorkflowStart commandType task successor]>
        (Workflow_of m).
Proof.
  intros WorkflowStart successor. unfold ProcessTask.
  fold (task_successor stepMap nextStepMap task). fold successor.
  fold (task_stepId specVersion task).
  destruct (decide (successor = "")) as [Hs|Hs].
  - rewrite synthesize_end_eq. rewrite Workflow_of_store_step.
    unfold task_step, task_step_Type. simpl.
    fold WorkflowStart.
    by repeat case_decide.
  - rewrite Workflow_of_store_step.
    unfold task_step, task_step_Type. fold WorkflowStart.
    by repeat case_decide.
Qed.

Lemma ProcessTask_uuids env task commandType specVersion stepMap nextStepMap m :
  Mem.uuids (ProcessTask env task commandType specVersion stepMap nextStepMap m)
  = if decide (task_successor stepMap nextStepMap task = "")
    then S (Mem.uuids m) else Mem.uuids m.
Proof.
  unfold ProcessTask. fold (task_successor stepMap nextStepMap task).
  by destruct (decide (task_successor stepMap nextStepMap task = "")).
Qed.

(** A task without outgoing transition is unresolved, unless some node of
    the process carries the empty id. *)
Lemma task_without_transition_unresolved stepMap nextStepMap task :
  nextStepMap !! Sprintf_key (BpmnTask.Id task) "0" = None →
  stepMap !! "" = None →
  task_successor stepMap nextStepMap task = "".
Proof.
  intros Hnext Hstep. unfold task_successor, getStr.
  rewrite Hnext. simpl. by rewrite Hstep.
Qed.


(** ** ProcessGateway *)

Lemma Workflow_of_store_variable name var m :
  Workflow_of (store_variable name var m) = Workflow_of m.
Proof. reflexivity. Qed.

(** What [ProcessGateway] does to the workflow for a gateway lowered
    conditionally with two outgoing transitions. *)
Lemma ProcessGateway_binary_Workflow env gateway specVersion stepMap nextStepMap m :
  length (BpmnGateway.Outgoing gateway) = 2 →
  let yes := gateway_branch stepMap nextStepMap gateway "YES" in
  let no := gateway_branch stepMap nextStepMap gateway "NO" in
  let n := Mem.uuids m in
  let n' := if decide (yes = "") then S n else n in
  let onTrue := if decide (yes = "") then fresh_end_id env specVersion n else yes in
  let onFalse := if decide (no = "") then fresh_end_id env specVersion n' else no in
  let wf1 := if decide (yes = "")
             then <[onTrue := End_step]> (Workflow_of m) else Workflow_of m in
  let wf2 := if decide (no = "") then <[onFalse := End_step]> wf1 else wf1 in
  Workflow_of (ProcessGateway env gateway specVersion false stepMap nextStepMap m)
  = <[gateway_stepId specVersion CACAO_STEP_TYPE_IF_COND gateway :=
        if_step gateway onTrue onFalse]> wf2.
Proof.
  intros Htwo yes no n n' onTrue onFalse wf1 wf2.
  unfold ProcessGateway. rewrite (decide_True _ _ Htwo).
  fold (gateway_branch stepMap nextStepMap gateway "YES").
  fold (gateway_branch stepMap nextStepMap gateway "NO").
  fold yes no. fold (gateway_name gateway).
  fold (gateway_stepId specVersion CACAO_STEP_TYPE_IF_COND gateway).
  subst wf2 wf1 onTrue onFalse n'.
  destruct (decide (yes = "")), (decide (no = "")); reflexivity.
Qed.

(** C4. A gateway lowered conditionally with exactly two outgoing
    transitions gets one if-condition step, stored under its derived id.
    Its on_true is the target found under discriminator YES and its
    on_false the target found under NO; a branch that does not resolve is
    the id of an End step synthesized with the next random identifier and
    stored in the workflow, each branch on its own; an End step has type
    [end] and name End.  Both branches are non-empty, and every other key
    of the workflow keeps its step or holds one of the synthesized End
    steps.  The random identifiers are taken to differ from the gateway's
    name-based one. *)
Theorem ProcessGateway_binary_if_condition
    env gateway specVersion stepMap nextStepMap m :
  length (BpmnGateway.Outgoing gateway) = 2 →
  (∀ n, uuid_New env n ≠ uuid_NewHash (BpmnGateway.Id gateway)) →
  let m' := ProcessGateway env gateway specVersion false stepMap nextStepMap m in
  let stepId := gateway_stepId specVersion CACAO_STEP_TYPE_IF_COND gateway in
  let yes := gateway_branch stepMap nextStepMap gateway "YES" in
  let no := gateway_branch stepMap nextStepMap gateway "NO" in
  let n := Mem.uuids m in
  let n' := if decide (yes = "") then S n else n in
  ∃ onTrue onFalse,
    Workflow_of m' !! stepId = Some (if_step gateway onTrue onFalse)
    ∧ Step.Type_ (if_step gateway onTrue onFalse) = CACAO_STEP_TYPE_IF_COND
    ∧ Step.Type_ End_step = CACAO_STEP_TYPE_END
    ∧ Step.Name End_step = "End"
    ∧ onTrue ≠ "" ∧ onFalse ≠ ""
    ∧ (yes ≠ "" → onTrue = yes)
    ∧ (no ≠ "" → onFalse = no)
    ∧ (yes = "" → onTrue = fresh_end_id env specVersion n
                  ∧ Workflow_of m' !! onTrue = Some End_step)
    ∧ (no = "" → onFalse = fresh_end_id env specVersion n'
                 ∧ Workflow_of m' !! onFalse = Some End_step)
    ∧ ∀ key, key ≠ stepId →
        Workflow_of m' !! key = Workflow_of m !! key
        ∨ (Workflow_of m' !! key = Some End_step
           ∧ (yes = "" ∧ key = onTrue ∨ no = "" ∧ key = onFalse)).
Proof.
  intros Htwo Hfresh m' stepId yes no n n'.
  pose proof (ProcessGateway_binary_Workflow env gateway specVersion
                stepMap nextStepMap m Htwo) as Hwf.
  cbv zeta in Hwf. fold m' stepId yes no n n' in Hwf.
  assert (Hne : ∀ k, fresh_end_id env specVersion k ≠ stepId).
  { intros k. unfold stepId, gateway_stepId, fresh_end_id, kind_for.
    destruct (decide (specVersion = CACAO_SPEC_VERSION_11)).
    - intros Heq%Sprintf_id_inj. by apply (Hfresh k).
    - discriminate. }
  assert (Hne' : ∀ k, stepId ≠ fresh_end_id env specVersion k).
  { intros k Heq. by apply (Hne k). }
  revert Hwf. subst n'.
  destruct (decide (yes = "")) as [Hyes|Hyes], (decide (no = "")) as [Hno|Hno];
    intros Hwf;
    (eexists _, _; split; [rewrite Hwf; apply lookup_insert_eq|]);
    (split; [done|]);
    (split; [reflexivity|]);
    (split; [reflexivity|]);
    (split; [first [apply Sprintf_id_nonempty|done]|]);
    (split; [first [apply Sprintf_id_nonempty|done]|]);
    (split; [intros ?; first [done|congruence]|]);
    (split; [intros ?; first [done|congruence]|]);
    (split; [intros ?; first [congruence|split; [done|];
             rewrite Hwf, !lookup_insert; repeat case_decide;
             first [done|congruence|exfalso; eapply Hne'; eassumption]]|]);
    (split; [intros ?; first [congruence|split; [done|];
             rewrite Hwf, !lookup_insert; repeat case_decide;
             first [done|congruence|exfalso; eapply Hne'; eassumption]]|]);
    intros key Hkey; rewrite Hwf, !lookup_insert; repeat case_decide;
    first [ congruence
          | by left
          | right; split; [done|]; first [by left|by right] ].
Qed.

(** What [ProcessGateway] does to the workflow in the other cases. *)

Lemma ProcessGateway_parallel_Workflow env gateway specVersion stepMap nextStepMap m :
  Workflow_of (ProcessGateway env gateway specVersion true stepMap nextStepMap m)
  = <[gateway_stepId specVersion CACAO_STEP_TYPE_PARALLEL gateway :=
        parallel_step gateway stepMap nextStepMap]> (Workflow_of m).
Proof. reflexivity. Qed.

Lemma Workflow_of_switch_cases env gateway stepMap nextStepMap m :
  Workflow_of (switch_cases env gateway stepMap nextStepMap m).2 = Workflow_of m.
Proof.
  unfold switch_cases.
  apply (foldl_invariant (λ st, Workflow_of st.2 = Workflow_of m)); [done|].
  by intros [Cases m'] _ _.
Qed.

Lemma ProcessGateway_switch_Workflow env gateway specVersion stepMap nextStepMap m :
  2 < length (BpmnGateway.Outgoing gateway) →
  Workflow_of (ProcessGateway env gateway specVersion false stepMap nextStepMap m)
  = <[gateway_stepId specVersion CACAO_STEP_TYPE_SWITCH_COND gateway :=
        switch_step gateway
          (switch_cases env gateway stepMap nextStepMap
             (store_variable (condition_name gateway)
                (PlaybookVariable.mk "integer" (gateway_name gateway) "0" false) m)).1]>
      (Workflow_of m).
Proof.
  intros Hmany. unfold ProcessGateway.
  rewrite decide_False by lia. rewrite decide_True by done.
  fold (gateway_name gateway).
  destruct (switch_cases _ _ _ _ _) as [Cases m'] eqn:E.
  rewrite Workflow_of_store_step.
  change m' with (Cases, m').2. rewrite <- E.
  by rewrite Workflow_of_switch_cases.
Qed.

Lemma ProcessGateway_anomaly_Workflow env gateway specVersion stepMap nextStepMap m :
  length (BpmnGateway.Outgoing gateway) < 2 →
  Workflow_of (ProcessGateway env gateway specVersion false stepMap nextStepMap m)
  = Workflow_of m.
Proof.
  intros Hfew. unfold ProcessGateway.
  rewrite decide_False by lia. by rewrite decide_False by lia.
Qed.

(** Every case of a switch step has one target, read from the step-id
    index. *)
Lemma switch_cases_pass_targets gateway stepMap order Cases :
  map_Forall (λ _ targets, ∃ val, targets = [getStr stepMap val]) Cases →
  map_Forall (λ _ targets, ∃ val, targets = [getStr stepMap val])
             (switch_cases_pass gateway stepMap order Cases).
Proof.
  unfold switch_cases_pass. intros HCases.
  apply (foldl_invariant
           (map_Forall (λ _ targets, ∃ val, targets = [getStr stepMap val])));
    [done|].
  intros Cases' [key val] _ HCases'.
  destruct (HasPrefix key (BpmnGateway.Id gateway)); [|done].
  apply map_Forall_insert_2; [by exists val|done].
Qed.

Lemma switch_cases_targets env gateway stepMap nextStepMap m :
  map_Forall (λ _ targets, ∃ val, targets = [getStr stepMap val])
             (switch_cases env gateway stepMap nextStepMap m).1.
Proof.
  unfold switch_cases.
  apply (foldl_invariant
           (λ st, map_Forall (λ _ targets, ∃ val, targets = [getStr stepMap val]) st.1)).
  - apply map_Forall_empty.
  - intros [Cases m'] i _ HCases. simpl in *. by apply switch_cases_pass_targets.
Qed.

(** The names of the cases after one pass: those already there, and the
    trimmed key of every visited entry whose key starts with the gateway's
    id. *)
Lemma switch_cases_pass_names gateway stepMap order Cases name :
  is_Some (switch_cases_pass gateway stepMap order Cases !! name)
  ↔ is_Some (Cases !! name)
    ∨ ∃ key val, (key, val) ∈ order
                 ∧ HasPrefix key (BpmnGateway.Id gateway) = true
                 ∧ TrimPrefix key (BpmnGateway.Id gateway +:+ ":") = name.
Proof.
  unfold switch_cases_pass. revert Cases.
  induction order as [|[key val] order IH]; intros Cases; simpl.
  - split; [by left|]. intros [H|(key & val & H & _)]; [done|]. by inversion H.
  - rewrite IH. destruct (HasPrefix key (BpmnGateway.Id gateway)) eqn:E.
    + rewrite lookup_insert_is_Some. split.
      * intros [[<-|[_ H]]|(key' & val' & Hin & Hp & Ht)].
        -- right. exists key, val. split; [left|done].
        -- by left.
        -- right. exists key', val'. split; [by right|done].
      * intros [H|(key' & val' & Hin & Hp & Ht)].
        -- left. destruct (decide (TrimPrefix key (BpmnGateway.Id gateway +:+ ":") = name));
             [by left|by right].
        -- apply elem_of_cons in Hin as [[= -> ->]|Hin].
           ++ left. by left.
           ++ right. by exists key', val'.
    + split.
      * intros [H|(key' & val' & Hin & Hp & Ht)]; [by left|].
        right. exists key', val'. split; [by right|done].
      * intros [H|(key' & val' & Hin & Hp & Ht)]; [by left|].
        apply elem_of_cons in Hin as [[= -> ->]|Hin]; [congruence|].
        right. by exists key', val'.
Qed.

(** The names of the cases of a switch step, when every [range] visits
    each entry of the transition index: the trimmed keys of the entries
    whose key starts with the gateway's id. *)
Lemma switch_cases_names env gateway stepMap nextStepMap m name :
  (∀ n key val, (key, val) ∈ range_order env n nextStepMap
                ↔ nextStepMap !! key = Some val) →
  0 < length (BpmnGateway.Outgoing gateway) →
  is_Some ((switch_cases env gateway stepMap nextStepMap m).1 !! name)
  ↔ ∃ key val, nextStepMap !! key = Some val
               ∧ HasPrefix key (BpmnGateway.Id gateway) = true
               ∧ TrimPrefix key (BpmnGateway.Id gateway +:+ ":") = name.
Proof.
  intros Hrange Hsome. unfold switch_cases.
  set (Q := ∃ key val, nextStepMap !! key = Some val
                       ∧ HasPrefix key (BpmnGateway.Id gateway) = true
                       ∧ TrimPrefix key (BpmnGateway.Id gateway +:+ ":") = name).
  assert (Hpasses : ∀ passes Cases m,
    is_Some
      ((foldl (λ '(Cases, m) (_ : nat),
                 let '(order, m) := range_nextStepMap env nextStepMap m in
                 (switch_cases_pass gateway stepMap order Cases, m))
              (Cases, m) passes).1 !! name)
    ↔ is_Some (Cases !! name) ∨ (passes ≠ [] ∧ Q)).
  { induction passes as [|i passes IH]; intros Cases m0; simpl.
    - split; [by left|]. by intros [?|[? _]].
    - rewrite IH, switch_cases_pass_names. split.
      + intros [[?|(key & val & Hin%Hrange & ?)]|[_ ?]]; auto.
        right. split; [done|]. by exists key, val.
      + intros [?|[_ (key & val & Hin & ?)]]; auto.
        left. right. exists key, val. split; [|done]. by apply Hrange. }
  rewrite Hpasses. split.
  - intros [[? H]|[_ ?]]; [|done]. by rewrite lookup_empty in H.
  - intros HQ. right. split; [|done].
    destruct (BpmnGateway.Outgoing gateway); simpl in *; [lia|done].
Qed.

(** When no other key of the transition index starts with the gateway's
    id, the cases are the gateway's own discriminators: one case per key
    [id:discriminator] of the index. *)
Lemma switch_cases_own_discriminators env gateway stepMap nextStepMap m name :
  (∀ n key val, (key, val) ∈ range_order env n nextStepMap
                ↔ nextStepMap !! key = Some val) →
  0 < length (BpmnGateway.Outgoing gateway) →
  (∀ key, is_Some (nextStepMap !! key) →
          HasPrefix key (BpmnGateway.Id gateway) = true →
          HasPrefix key (BpmnGateway.Id gateway +:+ ":") = true) →
  is_Some ((switch_cases env gateway stepMap nextStepMap m).1 !! name)
  ↔ is_Some (nextStepMap !! Sprintf_key (BpmnGateway.Id gateway) name).
Proof.
  intros Hrange Hsome Hown. rewrite switch_cases_names by done.
  unfold Sprintf_key. split.
  - intros (key & val & Hkey & Hprefix & <-).
    assert (Hcolon : HasPrefix key (BpmnGateway.Id gateway +:+ ":") = true)
      by (apply Hown; [by eexists|done]).
    unfold TrimPrefix. rewrite Hcolon.
    rewrite <- append_assoc', <- (HasPrefix_split _ _ Hcolon). by eexists.
  - intros [val Hval]. eexists _, val. split; [exact Hval|]. split.
    + apply HasPrefix_append.
    + rewrite <- append_assoc'. apply TrimPrefix_append.
Qed.

(** ** The transition index *)

Lemma probe_Some fuel nextStepMap SourceRef i k :
  probe fuel nextStepMap SourceRef i = Some k →
  i ≤ k
  ∧ nextStepMap !! Sprintf_key_d SourceRef k = None
  ∧ ∀ j, i ≤ j < k → is_Some (nextStepMap !! Sprintf_key_d SourceRef j).
Proof.
  revert i. induction fuel as [|fuel IH]; intros i; simpl; [done|].
  destruct (nextStepMap !! Sprintf_key_d SourceRef i) as [target|] eqn:E.
  - intros (Hle & Hk & Hbelow)%IH. split; [lia|]. split; [done|].
    intros j Hj. destruct (decide (j = i)) as [->|]; [by rewrite E|].
    apply Hbelow. lia.
  - intros [= <-]. split; [done|]. split; [done|]. intros j Hj. lia.
Qed.

Lemma probe_None fuel nextStepMap SourceRef i :
  probe fuel nextStepMap SourceRef i = None →
  ∀ j, i ≤ j < i + fuel → is_Some (nextStepMap !! Sprintf_key_d SourceRef j).
Proof.
  revert i. induction fuel as [|fuel IH]; intros i; simpl; [intros _ j Hj; lia|].
  destruct (nextStepMap !! Sprintf_key_d SourceRef i) as [target|] eqn:E; [|done].
  intros Hnone j Hj. destruct (decide (j = i)) as [->|]; [by rewrite E|].
  apply (IH _ Hnone). lia.
Qed.

(** A map with [n] entries cannot hold [n + 1] different keys. *)
Lemma keys_bounded_by_size (nextStepMap : gmap string string) (keys : list string) :
  NoDup keys → (∀ key, key ∈ keys → is_Some (nextStepMap !! key)) →
  length keys ≤ size nextStepMap.
Proof.
  intros Hnodup Hin.
  rewrite <- length_map_to_list, <- (length_fmap fst).
  apply submseteq_length, NoDup_submseteq; [done|].
  intros key [target Htarget]%Hin.
  apply list_elem_of_fmap. exists (key, target). split; [done|].
  by apply elem_of_map_to_list.
Qed.

(** The probing loop of lines 390-396 terminates: it needs at most one
    probe more than the index has entries. *)
Lemma probe_finds nextStepMap SourceRef :
  is_Some (probe (S (size nextStepMap)) nextStepMap SourceRef 0).
Proof.
  destruct (probe _ _ _ _) as [k|] eqn:E; [by eexists|]. exfalso.
  pose proof (probe_None _ _ _ _ E) as Hall.
  pose proof
    (keys_bounded_by_size nextStepMap
       (Sprintf_key_d SourceRef <$> seq 0 (S (size nextStepMap)))) as Hbound.
  rewrite length_fmap, length_seq in Hbound.
  enough (S (size nextStepMap) ≤ size nextStepMap) by lia.
  apply Hbound.
  - apply NoDup_fmap_2; [|apply NoDup_seq].
    intros i j. apply Sprintf_key_d_inj.
  - intros key (j & -> & Hj%elem_of_seq)%list_elem_of_fmap. apply Hall. lia.
Qed.

Lemma build_nextStepMap_snoc flows sequenceFlow :
  build_nextStepMap (flows ++ [sequenceFlow])
  = record_flow (build_nextStepMap flows) sequenceFlow.
Proof. unfold build_nextStepMap. by rewrite foldl_app. Qed.

(** C6, as amended.  When the index built from [flows] is extended by the
    next flow, the flow's target is stored under [nextStepMapKey]: for a
    labelled flow this is source id and upper-cased label, whatever the
    index already holds there; for an unlabelled flow it is source id and
    [k], where [k] is the least number whose key is absent from the index,
    so this insertion replaces nothing and every entry recorded before is
    still there. *)
Theorem transition_index_insertion flows sequenceFlow :
  let nextStepMap := build_nextStepMap flows in
  let SourceRef := BpmnSequenceFlow.SourceRef sequenceFlow in
  let Name := BpmnSequenceFlow.Name sequenceFlow in
  let key := nextStepMapKey nextStepMap sequenceFlow in
  build_nextStepMap (flows ++ [sequenceFlow])
  = <[key := BpmnSequenceFlow.TargetRef sequenceFlow]> nextStepMap
  ∧ (Name ≠ "" → key = Sprintf_key SourceRef (strings_ToUpper Name))
  ∧ (Name = "" →
     ∃ k, key = Sprintf_key_d SourceRef k
          ∧ nextStepMap !! key = None
          ∧ (∀ j, j < k → is_Some (nextStepMap !! Sprintf_key_d SourceRef j))
          ∧ ∀ key' target,
              nextStepMap !! key' = Some target →
              build_nextStepMap (flows ++ [sequenceFlow]) !! key' = Some target).
Proof.
  intros nextStepMap SourceRef Name key.
  split; [apply build_nextStepMap_snoc|]. split.
  - intros HName. subst key. unfold nextStepMapKey.
    by rewrite decide_True.
  - intros HName. subst key. unfold nextStepMapKey.
    rewrite decide_False by (intros H; by apply H).
    destruct (probe_finds nextStepMap (BpmnSequenceFlow.SourceRef sequenceFlow))
      as [k Hk].
    rewrite Hk. simpl.
    apply probe_Some in Hk as (_ & Hfree & Hbelow).
    exists k. split; [done|]. split; [done|]. split.
    + intros j Hj. apply Hbelow. lia.
    + intros key' target Hkey'.
      rewrite build_nextStepMap_snoc. unfold record_flow, nextStepMapKey.
      rewrite decide_False by (intros H; by apply H).
      fold nextStepMap.
      destruct (probe_finds nextStepMap (BpmnSequenceFlow.SourceRef sequenceFlow))
        as [k' Hk'].
      rewrite Hk'. simpl.
      apply probe_Some in Hk' as (_ & Hfree' & _).
      rewrite lookup_insert_ne; [done|]. intros <-. congruence.
Qed.

(** ** Fields the lowering does not read

    A change of the playbook that leaves the workflow, the variable table
    and the declared start alone commutes with every lowering step. *)


Section Unread_fields.

Variable g : CacaoPlaybook.t → CacaoPlaybook.t.
Hypothesis g_Workflow :
  ∀ p wf, g (CacaoPlaybook.with_Workflow p wf) = CacaoPlaybook.with_Workflow (g p) wf.
Hypothesis g_PlaybookVariables :
  ∀ p vars,
    g (CacaoPlaybook.with_PlaybookVariables p vars)
    = CacaoPlaybook.with_PlaybookVariables (g p) vars.
Hypothesis Workflow_g : ∀ p, CacaoPlaybook.Workflow (g p) = CacaoPlaybook.Workflow p.
Hypothesis PlaybookVariables_g :
  ∀ p, CacaoPlaybook.PlaybookVariables (g p) = CacaoPlaybook.PlaybookVariables p.
Hypothesis WorkflowStart_g :
  ∀ p, CacaoPlaybook.WorkflowStart (g p) = CacaoPlaybook.WorkflowStart p.

Collection g_laws :=
  g_Workflow g_PlaybookVariables Workflow_g PlaybookVariables_g WorkflowStart_g.
Local Set Default Proof Using "Type + g_laws".








End Unread_fields.

(** ** The spec-version selector *)










(** ** What a second run reproduces *)

Lemma PlaybookVariables_ProcessTask env task commandType specVersion stepMap nextStepMap m :
  PlaybookVariables_of
    (ProcessTask env task commandType specVersion stepMap nextStepMap m)
  = PlaybookVariables_of m.
Proof.
  unfold ProcessTask. by destruct (decide (getStr stepMap _ = "")).
Qed.

Lemma PlaybookVariables_switch_cases env gateway stepMap nextStepMap m :
  PlaybookVariables_of (switch_cases env gateway stepMap nextStepMap m).2
  = PlaybookVariables_of m.
Proof.
  unfold switch_cases.
  apply (foldl_invariant (λ st, PlaybookVariables_of st.2 = PlaybookVariables_of m));
    [done|].
  by intros [Cases m'] _ _.
Qed.

Lemma PlaybookVariables_ProcessGateway
    env gateway specVersion parallel stepMap nextStepMap m :
  PlaybookVariables_of
    (ProcessGateway env gateway specVersion parallel stepMap nextStepMap m)
  = if parallel then PlaybookVariables_of m
    else declare_variable (PlaybookVariables_of m) gateway.
Proof.
  unfold ProcessGateway. destruct parallel; [reflexivity|].
  fold (gateway_name gateway).
  destruct (decide (length _ = 2)).
  - by repeat (destruct (decide (getStr stepMap _ = ""))).
  - destruct (decide (2 < length _)); [|reflexivity].
    destruct (switch_cases _ _ _ _ _) as [Cases m'] eqn:E.
    change (PlaybookVariables_of (store_step ?k ?s m')) with (PlaybookVariables_of m').
    change m' with (Cases, m').2. rewrite <- E.
    by rewrite PlaybookVariables_switch_cases.
Qed.

Lemma PlaybookVariables_ProcessTasks
    env commandType specVersion stepMap nextStepMap tasks m :
  PlaybookVariables_of
    (ProcessTasks env commandType specVersion stepMap nextStepMap tasks m)
  = PlaybookVariables_of m.
Proof.
  unfold ProcessTasks.
  apply (foldl_invariant (λ m', PlaybookVariables_of m' = PlaybookVariables_of m));
    [done|].
  intros m' task _ <-. apply PlaybookVariables_ProcessTask.
Qed.

Lemma PlaybookVariables_ProcessGateways
    env specVersion parallel stepMap nextStepMap gateways m :
  PlaybookVariables_of
    (ProcessGateways env specVersion parallel stepMap nextStepMap gateways m)
  = if parallel then PlaybookVariables_of m
    else foldl declare_variable (PlaybookVariables_of m) gateways.
Proof.
  unfold ProcessGateways. revert m.
  induction gateways as [|gateway gateways IH]; intros m; simpl; [by destruct parallel|].
  rewrite IH, PlaybookVariables_ProcessGateway. by destruct parallel.
Qed.

Lemma PlaybookVariables_create_end_steps events stepMap m :
  PlaybookVariables_of (create_end_steps events stepMap m) = PlaybookVariables_of m.
Proof.
  unfold create_end_steps.
  apply (foldl_invariant (λ m', PlaybookVariables_of m' = PlaybookVariables_of m));
    [done|].
  by intros m' ev _ <-.
Qed.

(** The variable table of the result: one declaration per exclusive and per
    inclusive gateway, in that order. *)
Lemma PlaybookVariables_lower env specVersion bpmnProcess stepMap nextStepMap m :
  PlaybookVariables_of (lower env specVersion bpmnProcess stepMap nextStepMap m)
  = foldl declare_variable
      (foldl declare_variable (PlaybookVariables_of m)
         (BpmnProcess.ExclusiveGateway bpmnProcess))
      (BpmnProcess.InclusiveGateway bpmnProcess).
Proof.
  unfold lower.
  rewrite !PlaybookVariables_ProcessGateways, !PlaybookVariables_ProcessTasks,
    PlaybookVariables_create_end_steps, !PlaybookVariables_ProcessTasks.
  by destruct (BpmnProcess.StartEvent bpmnProcess).
Qed.

Lemma playbook_eq_from_parts (p q : CacaoPlaybook.t) :
  envelope p = envelope q →
  CacaoPlaybook.PlaybookVariables p = CacaoPlaybook.PlaybookVariables q →
  CacaoPlaybook.Workflow p = CacaoPlaybook.Workflow q →
  p = q.
Proof.
  destruct p, q. unfold envelope. simpl. intros [=] -> ->. by subst.
Qed.


Section Same_draws.

Variables env1 env2 : Env.
Hypothesis same_uuids : uuid_New env1 = uuid_New env2.
Hypothesis same_orders : range_order env1 = range_order env2.

Collection same_draws := same_uuids same_orders.
Local Set Default Proof Using "Type + same_draws".






End Same_draws.


(** ** The step-id index *)

Section Entries.

Variable P : string → string → Prop.

Lemma classify_tasks_entries kind tasks stepMap :
  map_Forall P stepMap →
  (∀ task, task ∈ tasks →
           P (BpmnTask.Id task) (Sprintf_id kind (uuid_NewHash (BpmnTask.Id task)))) →
  map_Forall P (classify_tasks kind tasks stepMap).
Proof.
  intros HstepMap Htasks. unfold classify_tasks.
  apply (foldl_invariant (map_Forall P)); [done|].
  intros stepMap' task Htask H. apply map_Forall_insert_2; auto.
Qed.

Lemma classify_EndEvent_entries kind events stepMap :
  map_Forall P stepMap →
  (∀ ev, ev ∈ events →
         P (BpmnEndEvent.Id ev) (Sprintf_id kind (uuid_NewHash (BpmnEndEvent.Id ev)))) →
  map_Forall P (classify_EndEvent kind events stepMap).
Proof.
  intros HstepMap Hevents. unfold classify_EndEvent.
  apply (foldl_invariant (map_Forall P)); [done|].
  intros stepMap' ev Hev H. apply map_Forall_insert_2; auto.
Qed.

Lemma classify_fanout_entries kind gateways stepMap :
  map_Forall P stepMap →
  (∀ gateway, gateway ∈ gateways →
     P (BpmnGateway.Id gateway)
       (Sprintf_id kind (uuid_NewHash (BpmnGateway.Id gateway)))) →
  map_Forall P (classify_fanout kind gateways stepMap).
Proof.
  intros HstepMap Hgateways. unfold classify_fanout.
  apply (foldl_invariant (map_Forall P)); [done|].
  intros stepMap' gateway Hgateway H. apply map_Forall_insert_2; auto.
Qed.

Lemma classify_ExclusiveGateway_entries ifKind switchKind gateways stepMap :
  map_Forall P stepMap →
  (∀ gateway, gateway ∈ gateways →
     length (BpmnGateway.Outgoing gateway) = 2 →
     P (BpmnGateway.Id gateway)
       (Sprintf_id ifKind (uuid_NewHash (BpmnGateway.Id gateway)))) →
  (∀ gateway, gateway ∈ gateways →
     2 < length (BpmnGateway.Outgoing gateway) →
     P (BpmnGateway.Id gateway)
       (Sprintf_id switchKind (uuid_NewHash (BpmnGateway.Id gateway)))) →
  map_Forall P (classify_ExclusiveGateway ifKind switchKind gateways stepMap).
Proof.
  intros HstepMap Hif Hswitch. unfold classify_ExclusiveGateway.
  apply (foldl_invariant (map_Forall P)); [done|].
  intros stepMap' gateway Hgateway H.
  destruct (decide (length _ = 2)); [apply map_Forall_insert_2; auto|].
  destruct (decide (2 < length _)); [apply map_Forall_insert_2; auto|done].
Qed.

Lemma classify_IntermediateCatchEvent_entries startKind actionKind tasks st :
  map_Forall P st.2 →
  (∀ task, task ∈ tasks →
     P (BpmnTask.Id task) (Sprintf_id actionKind (uuid_NewHash (BpmnTask.Id task)))) →
  map_Forall P (classify_IntermediateCatchEvent startKind actionKind tasks st).2.
Proof.
  intros Hst Htasks. unfold classify_IntermediateCatchEvent.
  apply (foldl_invariant (λ st, map_Forall P st.2)); [done|].
  intros [startStepId stepMap] task Htask H. simpl in *.
  destruct (decide (startStepId ≠ "")); simpl; [|done].
  apply map_Forall_insert_2; auto.
Qed.

End Entries.

Ltac pick_disjunct H := first [exact H | left; exact H | right; pick_disjunct H].

(** Every entry of the step-id index was recorded for a node of the
    process, with the id derived for that node's category. *)
Lemma build_stepMap_entries specVersion bpmnProcess :
  map_Forall (promised specVersion bpmnProcess)
             (build_stepMap specVersion bpmnProcess).2.
Proof.
  unfold build_stepMap.
  set (st0 := classify_StartEvent _ _).
  assert (H0 : map_Forall (promised specVersion bpmnProcess) st0.2).
  { subst st0. unfold classify_StartEvent.
    destruct (BpmnProcess.StartEvent bpmnProcess) as [ev|] eqn:E; simpl.
    - apply map_Forall_insert_2; [|apply map_Forall_empty].
      left. by exists ev.
    - apply map_Forall_empty. }
  pose proof (classify_IntermediateCatchEvent_entries
                (promised specVersion bpmnProcess)
                (kind_for specVersion CACAO_STEP_TYPE_START)
                (kind_for specVersion CACAO_STEP_TYPE_ACTION)
                (BpmnProcess.IntermediateCatchEvent bpmnProcess) st0 H0) as H1.
  destruct (classify_IntermediateCatchEvent _ _ _ st0) as [startStepId stepMap].
  simpl in *.
  assert (Htask : ∀ task, task ∈ all_tasks bpmnProcess →
            promised specVersion bpmnProcess (BpmnTask.Id task)
              (Sprintf_id (kind_for specVersion CACAO_STEP_TYPE_ACTION)
                          (uuid_NewHash (BpmnTask.Id task)))).
  { intros task Htask. right; right; left. by exists task. }
  assert (Hend : ∀ ev, ev ∈ BpmnProcess.EndEvent bpmnProcess →
            promised specVersion bpmnProcess (BpmnEndEvent.Id ev)
              (Sprintf_id (kind_for specVersion CACAO_STEP_TYPE_END)
                          (uuid_NewHash (BpmnEndEvent.Id ev)))).
  { intros ev Hev. right; left. by exists ev. }
  apply classify_fanout_entries;
    [|intros g Hg; do 6 right; by exists g].
  apply classify_fanout_entries;
    [|intros g Hg; do 5 right; left; by exists g].
  apply classify_ExclusiveGateway_entries;
    [|intros g Hg Hlen; do 3 right; left; by exists g
     |intros g Hg Hlen; do 4 right; left; by exists g].
  apply classify_EndEvent_entries; [|done].
  do 7 (apply classify_tasks_entries;
        [|intros task Htask'; apply Htask; unfold all_tasks; rewrite !elem_of_app; pick_disjunct Htask']).
  apply classify_EndEvent_entries; [|done].
  apply H1. intros task Htask'. apply Htask. unfold all_tasks. rewrite !elem_of_app.
  pick_disjunct Htask'.
Qed.

(** ** Referential closure *)

Lemma elem_of_successors step r :
  r ∈ successors step
  ↔ r = Step.OnCompletion step ∨ r = Step.OnTrue step ∨ r = Step.OnFalse step
    ∨ (∃ name targets, Step.Cases step !! name = Some targets ∧ r ∈ targets)
    ∨ r ∈ Step.NextSteps step.
Proof.
  unfold successors. rewrite !elem_of_cons, elem_of_app, elem_of_concat.
  split.
  - intros [?|[?|[?|[(targets & Hr & Htargets)|?]]]]; auto.
    apply list_elem_of_fmap in Htargets as ([name targets'] & -> & Hin).
    apply elem_of_map_to_list in Hin. right; right; right; left. by exists name, targets'.
  - intros [?|[?|[?|[(name & targets & Hcase & Hr)|?]]]]; auto.
    right; right; right; left. exists targets. split; [done|].
    apply list_elem_of_fmap. exists (name, targets). split; [done|].
    by apply elem_of_map_to_list.
Qed.

Lemma getStr_cases (stepMap : gmap string string) id :
  getStr stepMap id = "" ∨ ∃ id', stepMap !! id' = Some (getStr stepMap id).
Proof.
  unfold getStr. destruct (stepMap !! id) as [stepId|] eqn:E; simpl; [|by left].
  right. by exists id.
Qed.

Lemma closed_up_to_insert stepMap wf stepId step :
  closed_up_to stepMap wf →
  (∀ r, r ∈ successors step →
        r = "" ∨ is_Some (<[stepId := step]> wf !! r) ∨ ∃ id, stepMap !! id = Some r) →
  closed_up_to stepMap (<[stepId := step]> wf).
Proof.
  intros Hwf Hstep. unfold closed_up_to.
  apply map_Forall_insert_2.
  - by apply Forall_forall.
  - intros key step' Hkey. specialize (Hwf key step' Hkey). simpl in Hwf.
    eapply Forall_impl; [exact Hwf|].
    intros r [?|[Hr|?]]; auto. right; left.
    apply lookup_insert_is_Some'. by right.
Qed.

Lemma closed_up_to_insert_End stepMap wf stepId :
  closed_up_to stepMap wf → closed_up_to stepMap (<[stepId := End_step]> wf).
Proof.
  intros Hwf. apply closed_up_to_insert; [done|].
  intros r Hr. left. apply elem_of_successors in Hr. simpl in Hr.
  destruct Hr as [?|[?|[?|[(name & targets & Hcase & _)|Hr]]]]; try done.
  by inversion Hr.
Qed.

Lemma successors_task_step specVersion WorkflowStart commandType task onCompletion r :
  r ∈ successors (task_step specVersion WorkflowStart commandType task onCompletion) →
  r = "" ∨ r = onCompletion.
Proof.
  intros Hr%elem_of_successors. simpl in Hr.
  destruct Hr as [?|[?|[?|[(name & targets & Hcase & _)|Hr]]]]; auto; try done.
  by inversion Hr.
Qed.

Lemma successors_if_step gateway onTrue onFalse r :
  r ∈ successors (if_step gateway onTrue onFalse) →
  r = "" ∨ r = onTrue ∨ r = onFalse.
Proof.
  intros Hr%elem_of_successors. simpl in Hr.
  destruct Hr as [?|[?|[?|[(name & targets & Hcase & _)|Hr]]]]; auto; try done.
  by inversion Hr.
Qed.

Lemma successors_switch_step gateway Cases r :
  r ∈ successors (switch_step gateway Cases) →
  r = "" ∨ ∃ name targets, Cases !! name = Some targets ∧ r ∈ targets.
Proof.
  intros Hr%elem_of_successors. simpl in Hr.
  destruct Hr as [?|[?|[?|[?|Hr]]]]; auto. by inversion Hr.
Qed.

Lemma parallel_NextSteps_lookups gateway stepMap nextStepMap :
  Forall (λ r, ∃ id, r = getStr stepMap id)
         (parallel_NextSteps gateway stepMap nextStepMap).
Proof.
  unfold parallel_NextSteps.
  apply (foldl_invariant (Forall (λ r, ∃ id, r = getStr stepMap id))); [done|].
  intros NextSteps i _ H. apply Forall_app. split; [done|].
  apply Forall_singleton. by eexists.
Qed.

Lemma successors_parallel_step gateway stepMap nextStepMap r :
  r ∈ successors (parallel_step gateway stepMap nextStepMap) →
  r = "" ∨ ∃ id, r = getStr stepMap id.
Proof.
  intros Hr%elem_of_successors. simpl in Hr.
  destruct Hr as [?|[?|[?|[(name & targets & Hcase & _)|Hr]]]]; auto; try done.
  right. pose proof (parallel_NextSteps_lookups gateway stepMap nextStepMap) as H.
  rewrite Forall_forall in H. by apply H.
Qed.

Lemma closed_up_to_ProcessTask env task commandType specVersion stepMap nextStepMap m :
  closed_up_to stepMap (Workflow_of m) →
  closed_up_to stepMap
    (Workflow_of (ProcessTask env task commandType specVersion stepMap nextStepMap m)).
Proof.
  intros Hm. rewrite ProcessTask_Workflow.
  destruct (decide (task_successor stepMap nextStepMap task = "")) as [Hs|Hs].
  - apply closed_up_to_insert; [by apply closed_up_to_insert_End|].
    intros r [-> | ->]%successors_task_step; [by left|].
    right; left. apply lookup_insert_is_Some'. right.
    apply lookup_insert_is_Some'. by left.
  - apply closed_up_to_insert; [done|].
    intros r [-> | ->]%successors_task_step; [by left|].
    right; right. unfold task_successor in *.
    by destruct (getStr_cases stepMap
                   (getStr nextStepMap (Sprintf_key (BpmnTask.Id task) "0"))).
Qed.

Lemma closed_up_to_ProcessGateway
    env gateway specVersion parallel stepMap nextStepMap m :
  closed_up_to stepMap (Workflow_of m) →
  closed_up_to stepMap
    (Workflow_of (ProcessGateway env gateway specVersion parallel stepMap nextStepMap m)).
Proof.
  intros Hm. destruct parallel.
  { rewrite ProcessGateway_parallel_Workflow.
    apply closed_up_to_insert; [done|].
    intros r [-> | [id ->]]%successors_parallel_step; [by left|].
    destruct (getStr_cases stepMap id); auto. }
  destruct (decide (length (BpmnGateway.Outgoing gateway) = 2)) as [Htwo|Hnot].
  { rewrite ProcessGateway_binary_Workflow by done.
    set (yes := gateway_branch stepMap nextStepMap gateway "YES").
    set (no := gateway_branch stepMap nextStepMap gateway "NO").
    assert (Hyes : yes = "" ∨ ∃ id, stepMap !! id = Some yes)
      by apply getStr_cases.
    assert (Hno : no = "" ∨ ∃ id, stepMap !! id = Some no)
      by apply getStr_cases.
    apply closed_up_to_insert.
    - destruct (decide (no = "")), (decide (yes = ""));
        repeat apply closed_up_to_insert_End; done.
    - intros r [-> | [-> | ->]]%successors_if_step; [by left| |].
      + destruct (decide (yes = "")) as [Hy|Hy]; [|destruct Hyes; [done|auto]].
        right; left. apply lookup_insert_is_Some'. right.
        destruct (decide (no = "")).
        * apply lookup_insert_is_Some'. right. apply lookup_insert_is_Some'. by left.
        * apply lookup_insert_is_Some'. by left.
      + destruct (decide (no = "")) as [Hn|Hn]; [|destruct Hno; [done|auto]].
        right; left. apply lookup_insert_is_Some'. right.
        apply lookup_insert_is_Some'. by left. }
  destruct (decide (2 < length (BpmnGateway.Outgoing gateway))) as [Hmany|Hfew].
  { rewrite ProcessGateway_switch_Workflow by done.
    apply closed_up_to_insert; [done|].
    intros r [-> | (name & targets & Hcase & Hr)]%successors_switch_step; [by left|].
    apply switch_cases_targets in Hcase as [val ->].
    apply list_elem_of_singleton in Hr as ->.
    destruct (getStr_cases stepMap val); auto. }
  rewrite ProcessGateway_anomaly_Workflow by lia. done.
Qed.

(** ** The keys the lowering writes

    No step is ever removed from the workflow, and each node category is
    stored under the id derived for it. *)

Lemma has_key_store_step stepId step m key :
  has_key (store_step stepId step m) key ↔ stepId = key ∨ has_key m key.
Proof. unfold has_key. rewrite Workflow_of_store_step. apply lookup_insert_is_Some'. Qed.

Lemma grows_ProcessTask env task commandType specVersion stepMap nextStepMap m key :
  has_key m key →
  has_key (ProcessTask env task commandType specVersion stepMap nextStepMap m) key.
Proof.
  unfold has_key. rewrite ProcessTask_Workflow. intros H.
  destruct (decide (task_successor stepMap nextStepMap task = ""));
    repeat (apply lookup_insert_is_Some'; right); done.
Qed.

Lemma writes_ProcessTask env task commandType specVersion stepMap nextStepMap m :
  has_key (ProcessTask env task commandType specVersion stepMap nextStepMap m)
          (task_stepId specVersion task).
Proof.
  unfold has_key. rewrite ProcessTask_Workflow.
  destruct (decide (task_successor stepMap nextStepMap task = ""));
    apply lookup_insert_is_Some'; by left.
Qed.

Lemma grows_ProcessGateway env gateway specVersion parallel stepMap nextStepMap m key :
  has_key m key →
  has_key (ProcessGateway env gateway specVersion parallel stepMap nextStepMap m) key.
Proof.
  unfold has_key. intros H. destruct parallel.
  { rewrite ProcessGateway_parallel_Workflow. apply lookup_insert_is_Some'. by right. }
  destruct (decide (length (BpmnGateway.Outgoing gateway) = 2)) as [Htwo|Hnot].
  { rewrite ProcessGateway_binary_Workflow by done.
    repeat case_decide; repeat (apply lookup_insert_is_Some'; right); done. }
  destruct (decide (2 < length (BpmnGateway.Outgoing gateway))) as [Hmany|Hfew].
  { rewrite ProcessGateway_switch_Workflow by done.
    apply lookup_insert_is_Some'. by right. }
  by rewrite ProcessGateway_anomaly_Workflow by lia.
Qed.

Lemma writes_ProcessGateway_parallel env gateway specVersion stepMap nextStepMap m :
  has_key (ProcessGateway env gateway specVersion true stepMap nextStepMap m)
          (gateway_stepId specVersion CACAO_STEP_TYPE_PARALLEL gateway).
Proof.
  unfold has_key. rewrite ProcessGateway_parallel_Workflow.
  apply lookup_insert_is_Some'. by left.
Qed.

Lemma writes_ProcessGateway_if env gateway specVersion stepMap nextStepMap m :
  length (BpmnGateway.Outgoing gateway) = 2 →
  has_key (ProcessGateway env gateway specVersion false stepMap nextStepMap m)
          (gateway_stepId specVersion CACAO_STEP_TYPE_IF_COND gateway).
Proof.
  intros Htwo. unfold has_key. rewrite ProcessGateway_binary_Workflow by done.
  apply lookup_insert_is_Some'. by left.
Qed.

Lemma writes_ProcessGateway_switch env gateway specVersion stepMap nextStepMap m :
  2 < length (BpmnGateway.Outgoing gateway) →
  has_key (ProcessGateway env gateway specVersion false stepMap nextStepMap m)
          (gateway_stepId specVersion CACAO_STEP_TYPE_SWITCH_COND gateway).
Proof.
  intros Hmany. unfold has_key. rewrite ProcessGateway_switch_Workflow by done.
  apply lookup_insert_is_Some'. by left.
Qed.

Lemma foldl_grows {B} (f : Mem.t → B → Mem.t) (l : list B) (m : Mem.t) key :
  (∀ m b, has_key m key → has_key (f m b) key) →
  has_key m key → has_key (foldl f m l) key.
Proof.
  intros Hf Hm. apply (foldl_invariant (λ m', has_key m' key)); [done|].
  intros m' b _. apply Hf.
Qed.

Lemma foldl_writes {B} (f : Mem.t → B → Mem.t) (W : B → string → Prop)
    (l : list B) (m : Mem.t) b key :
  (∀ m b key, has_key m key → has_key (f m b) key) →
  (∀ m b key, W b key → has_key (f m b) key) →
  b ∈ l → W b key → has_key (foldl f m l) key.
Proof.
  intros Hgrows Hwrites Hb HW. revert m.
  induction l as [|b' l IH]; intros m; [by inversion Hb|].
  simpl. apply elem_of_cons in Hb as [->|Hb]; [|by apply IH].
  apply foldl_grows; [intros; by apply Hgrows|]. by apply Hwrites.
Qed.

Lemma grows_ProcessTasks env commandType specVersion stepMap nextStepMap tasks m key :
  has_key m key →
  has_key (ProcessTasks env commandType specVersion stepMap nextStepMap tasks m) key.
Proof. apply foldl_grows. intros. by apply grows_ProcessTask. Qed.

Lemma writes_ProcessTasks env commandType specVersion stepMap nextStepMap tasks m task :
  task ∈ tasks →
  has_key (ProcessTasks env commandType specVersion stepMap nextStepMap tasks m)
          (task_stepId specVersion task).
Proof.
  intros Htask.
  apply (foldl_writes _ (λ task key, key = task_stepId specVersion task) tasks m task);
    [intros; by apply grows_ProcessTask| |done|done].
  intros m' task' key ->. apply writes_ProcessTask.
Qed.

Lemma grows_ProcessGateways
    env specVersion parallel stepMap nextStepMap gateways m key :
  has_key m key →
  has_key (ProcessGateways env specVersion parallel stepMap nextStepMap gateways m) key.
Proof. apply foldl_grows. intros. by apply grows_ProcessGateway. Qed.

Lemma writes_ProcessGateways_parallel
    env specVersion stepMap nextStepMap gateways m gateway :
  gateway ∈ gateways →
  has_key (ProcessGateways env specVersion true stepMap nextStepMap gateways m)
          (gateway_stepId specVersion CACAO_STEP_TYPE_PARALLEL gateway).
Proof.
  intros Hgateway.
  apply (foldl_writes _
           (λ gateway key, key = gateway_stepId specVersion CACAO_STEP_TYPE_PARALLEL gateway)
           gateways m gateway);
    [intros; by apply grows_ProcessGateway| |done|done].
  intros m' gateway' key ->. apply writes_ProcessGateway_parallel.
Qed.

Lemma writes_ProcessGateways_if
    env specVersion stepMap nextStepMap gateways m gateway :
  gateway ∈ gateways → length (BpmnGateway.Outgoing gateway) = 2 →
  has_key (ProcessGateways env specVersion false stepMap nextStepMap gateways m)
          (gateway_stepId specVersion CACAO_STEP_TYPE_IF_COND gateway).
Proof.
  intros Hgateway Htwo.
  apply (foldl_writes _
           (λ gateway key,
              length (BpmnGateway.Outgoing gateway) = 2
              ∧ key = gateway_stepId specVersion CACAO_STEP_TYPE_IF_COND gateway)
           gateways m gateway);
    [intros; by apply grows_ProcessGateway| |done|done].
  intros m' gateway' key [? ->]. by apply writes_ProcessGateway_if.
Qed.

Lemma writes_ProcessGateways_switch
    env specVersion stepMap nextStepMap gateways m gateway :
  gateway ∈ gateways → 2 < length (BpmnGateway.Outgoing gateway) →
  has_key (ProcessGateways env specVersion false stepMap nextStepMap gateways m)
          (gateway_stepId specVersion CACAO_STEP_TYPE_SWITCH_COND gateway).
Proof.
  intros Hgateway Hmany.
  apply (foldl_writes _
           (λ gateway key,
              2 < length (BpmnGateway.Outgoing gateway)
              ∧ key = gateway_stepId specVersion CACAO_STEP_TYPE_SWITCH_COND gateway)
           gateways m gateway);
    [intros; by apply grows_ProcessGateway| |done|done].
  intros m' gateway' key [? ->]. by apply writes_ProcessGateway_switch.
Qed.

Lemma grows_create_start_step StartEvent stepMap nextStepMap m key :
  has_key m key → has_key (create_start_step StartEvent stepMap nextStepMap m) key.
Proof.
  intros H. destruct StartEvent; [|done]. apply has_key_store_step. by right.
Qed.

Lemma writes_create_start_step ev stepMap nextStepMap m :
  has_key (create_start_step (Some ev) stepMap nextStepMap m)
          (getStr stepMap (BpmnStartEvent.Id ev)).
Proof. apply has_key_store_step. by left. Qed.

Lemma grows_create_end_steps events stepMap m key :
  has_key m key → has_key (create_end_steps events stepMap m) key.
Proof.
  apply foldl_grows. intros m' ev H. apply has_key_store_step. by right.
Qed.

Lemma writes_create_end_steps events stepMap m ev :
  ev ∈ events →
  has_key (create_end_steps events stepMap m) (getStr stepMap (BpmnEndEvent.Id ev)).
Proof.
  intros Hev.
  apply (foldl_writes _ (λ ev key, key = getStr stepMap (BpmnEndEvent.Id ev)) events m ev);
    [| |done|done].
  - intros m' ev' key H. apply has_key_store_step. by right.
  - intros m' ev' key ->. apply has_key_store_step. by left.
Qed.

(** ** Referential closure of the result *)

Lemma closed_up_to_ProcessTasks
    env commandType specVersion stepMap nextStepMap tasks m :
  closed_up_to stepMap (Workflow_of m) →
  closed_up_to stepMap
    (Workflow_of (ProcessTasks env commandType specVersion stepMap nextStepMap tasks m)).
Proof.
  intros H. apply (foldl_invariant (λ m', closed_up_to stepMap (Workflow_of m'))); [done|].
  intros m' task _. apply closed_up_to_ProcessTask.
Qed.

Lemma closed_up_to_ProcessGateways
    env specVersion parallel stepMap nextStepMap gateways m :
  closed_up_to stepMap (Workflow_of m) →
  closed_up_to stepMap
    (Workflow_of
       (ProcessGateways env specVersion parallel stepMap nextStepMap gateways m)).
Proof.
  intros H. apply (foldl_invariant (λ m', closed_up_to stepMap (Workflow_of m'))); [done|].
  intros m' gateway _. apply closed_up_to_ProcessGateway.
Qed.

Lemma closed_up_to_create_end_steps events stepMap m :
  closed_up_to stepMap (Workflow_of m) →
  closed_up_to stepMap (Workflow_of (create_end_steps events stepMap m)).
Proof.
  intros H. apply (foldl_invariant (λ m', closed_up_to stepMap (Workflow_of m'))); [done|].
  intros m' ev _ H'. rewrite Workflow_of_store_step. by apply closed_up_to_insert_End.
Qed.

Lemma closed_up_to_create_start_step StartEvent stepMap nextStepMap m :
  closed_up_to stepMap (Workflow_of m) →
  closed_up_to stepMap
    (Workflow_of (create_start_step StartEvent stepMap nextStepMap m)).
Proof.
  intros H. destruct StartEvent as [ev|]; [|done]. simpl.
  rewrite Workflow_of_store_step. apply closed_up_to_insert; [done|].
  intros r Hr%elem_of_successors. simpl in Hr.
  destruct Hr as [->|[?|[?|[(name & targets & Hcase & _)|Hr]]]];
    auto; try done; [|by inversion Hr].
  destruct (getStr_cases stepMap
              (getStr nextStepMap (Sprintf_key (BpmnStartEvent.Id ev) "0"))); auto.
Qed.

Lemma closed_up_to_lower env specVersion bpmnProcess stepMap nextStepMap m :
  closed_up_to stepMap (Workflow_of m) →
  closed_up_to stepMap
    (Workflow_of (lower env specVersion bpmnProcess stepMap nextStepMap m)).
Proof.
  intros H. unfold lower.
  do 3 apply closed_up_to_ProcessGateways.
  do 7 apply closed_up_to_ProcessTasks.
  apply closed_up_to_create_end_steps, closed_up_to_ProcessTasks.
  by apply closed_up_to_create_start_step.
Qed.

(** Without inclusive gateways, every id the step-id index promises is a
    key of the workflow once the lowering is over. *)
Lemma lower_writes_promised env specVersion bpmnProcess stepMap nextStepMap m id stepId :
  BpmnProcess.InclusiveGateway bpmnProcess = [] →
  promised specVersion bpmnProcess id stepId →
  stepMap !! id = Some stepId →
  has_key (lower env specVersion bpmnProcess stepMap nextStepMap m) stepId.
Proof.
  intros Hinclusive Hpromised HstepMap.
  assert (Hget : getStr stepMap id = stepId) by (unfold getStr; by rewrite HstepMap).
  unfold lower.
  destruct Hpromised
    as [(ev & Hev & -> & _)
       |[(ev & Hev & -> & _)
        |[(task & Htask & -> & ->)
         |[(gateway & Hgateway & -> & Hlen & ->)
          |[(gateway & Hgateway & -> & Hlen & ->)
           |[(gateway & Hgateway & -> & ->)
            |(gateway & Hgateway & _)]]]]]].
  - do 3 apply grows_ProcessGateways. do 7 apply grows_ProcessTasks.
    apply grows_create_end_steps, grows_ProcessTasks.
    rewrite Hev, <- Hget. apply writes_create_start_step.
  - do 3 apply grows_ProcessGateways. do 7 apply grows_ProcessTasks.
    rewrite <- Hget. by apply writes_create_end_steps.
  - do 3 apply grows_ProcessGateways.
    unfold all_tasks in Htask. rewrite !elem_of_app in Htask.
    destruct Htask as [H|[H|[H|[H|[H|[H|[H|H]]]]]]].
    + do 7 apply grows_ProcessTasks. apply grows_create_end_steps.
      by apply writes_ProcessTasks.
    + do 6 apply grows_ProcessTasks. by apply writes_ProcessTasks.
    + do 5 apply grows_ProcessTasks. by apply writes_ProcessTasks.
    + do 4 apply grows_ProcessTasks. by apply writes_ProcessTasks.
    + do 3 apply grows_ProcessTasks. by apply writes_ProcessTasks.
    + do 2 apply grows_ProcessTasks. by apply writes_ProcessTasks.
    + do 1 apply grows_ProcessTasks. by apply writes_ProcessTasks.
    + by apply writes_ProcessTasks.
  - do 2 apply grows_ProcessGateways. by apply writes_ProcessGateways_if.
  - do 2 apply grows_ProcessGateways. by apply writes_ProcessGateways_switch.
  - apply grows_ProcessGateways. by apply writes_ProcessGateways_parallel.
  - rewrite Hinclusive in Hgateway. by inversion Hgateway.
Qed.

(** C3, as amended.  For a document with one process and no inclusive
    gateway, every non-empty id named by a successor field of a step of the
    output workflow (on_completion, on_true, on_false, a target of a switch
    case, an entry of next_steps) is a key of that workflow.  The empty
    string may stand in a start step's on_completion, in a case target and
    in next_steps, where nothing repairs a transition that does not
    resolve. *)
Theorem workflow_closed_without_inclusive_gateways
    env bpmnDefinition specVersion bpmnProcess cacaoPlaybook :
  BpmnDefinitions.Processes bpmnDefinition = [bpmnProcess] →
  BpmnProcess.InclusiveGateway bpmnProcess = [] →
  playbook (ConvertToCacao env bpmnDefinition specVersion) = Some cacaoPlaybook →
  closed (CacaoPlaybook.Workflow cacaoPlaybook).
Proof.
  intros Hone Hinclusive. unfold ConvertToCacao. rewrite Hone. simpl.
  intros [= <-]. unfold convert_process.
  pose proof (build_stepMap_entries specVersion bpmnProcess) as Hentries.
  destruct (build_stepMap specVersion bpmnProcess) as [startStepId stepMap].
  simpl in Hentries.
  set (nextStepMap := build_nextStepMap _).
  set (m0 := Mem.mk _ _ 0 0).
  pose proof (closed_up_to_lower env specVersion bpmnProcess stepMap nextStepMap m0)
    as Hclosed.
  fold (Workflow_of (lower env specVersion bpmnProcess stepMap nextStepMap m0)).
  intros key step Hstep.
  specialize (Hclosed (map_Forall_empty _) key step Hstep). simpl in Hclosed.
  eapply Forall_impl; [exact Hclosed|].
  intros r [?|[?|[id Hid]]]; auto. right.
  apply (lower_writes_promised env specVersion bpmnProcess stepMap nextStepMap m0 id r);
    [done| |done].
  by apply Hentries.
Qed.

(** ** The declared start *)

Lemma filter_none {A} (P : A → Prop) `{∀ x, Decision (P x)} (l : list A) :
  (∀ x, x ∈ l → ¬ P x) → filter P l = [].
Proof.
  induction l as [|x l IH]; intros Hl; [done|].
  rewrite filter_cons_False by (apply Hl; left).
  apply IH. intros y Hy. apply Hl. by right.
Qed.

(** A key of a map is there once. *)
Lemma occurrences_key wf stepId step :
  wf !! stepId = Some step → occurrences wf stepId = 1.
Proof.
  intros Hstep. unfold occurrences.
  rewrite <- (insert_delete_id wf stepId step Hstep).
  rewrite map_to_list_insert by apply lookup_delete_eq.
  rewrite filter_cons_True by done. simpl. f_equal.
  rewrite filter_none; [done|].
  intros [key step'] Hin%elem_of_map_to_list. simpl. intros ->.
  by rewrite lookup_delete_eq in Hin.
Qed.

Lemma derived_kinds_all :
  CACAO_STEP_TYPE_START ∈ derived_kinds ∧ CACAO_STEP_TYPE_END ∈ derived_kinds
  ∧ CACAO_STEP_TYPE_ACTION ∈ derived_kinds ∧ CACAO_STEP_TYPE_IF_COND ∈ derived_kinds
  ∧ CACAO_STEP_TYPE_SWITCH_COND ∈ derived_kinds
  ∧ CACAO_STEP_TYPE_PARALLEL ∈ derived_kinds.
Proof. unfold derived_kinds. repeat split; repeat constructor. Qed.

Ltac derived_kind := apply derived_kinds_all.

(** Ids derived with different kinds, or from different identifiers, are
    different. *)
Lemma derived_id_inj specVersion kind1 kind2 a b :
  kind1 ∈ derived_kinds → kind2 ∈ derived_kinds →
  Sprintf_id (kind_for specVersion kind1) a = Sprintf_id (kind_for specVersion kind2) b →
  a = b.
Proof.
  unfold kind_for, derived_kinds.
  destruct (decide (specVersion = CACAO_SPEC_VERSION_11)).
  { intros _ _. apply Sprintf_id_inj. }
  rewrite !elem_of_cons, !elem_of_nil.
  intros [->|[->|[->|[->|[->|[->|[]]]]]]] [->|[->|[->|[->|[->|[->|[]]]]]]];
    first [apply Sprintf_id_inj | by (intros [=])].
Qed.

Lemma promised_derived specVersion bpmnProcess id stepId :
  promised specVersion bpmnProcess id stepId →
  ∃ kind, kind ∈ derived_kinds
          ∧ stepId = Sprintf_id (kind_for specVersion kind) (uuid_NewHash id).
Proof.
  unfold derived_kinds, task_stepId, gateway_stepId.
  intros [(ev & _ & -> & ->)
         |[(ev & _ & -> & ->)
          |[(task & _ & -> & ->)
           |[(gateway & _ & -> & _ & ->)
            |[(gateway & _ & -> & _ & ->)
             |[(gateway & _ & -> & ->)
              |(gateway & _ & -> & ->)]]]]]];
    eexists; (split; [|reflexivity]); derived_kind.
Qed.

(** The declared start id computed by the classification. *)
Lemma classify_IntermediateCatchEvent_start startKind actionKind tasks st :
  (classify_IntermediateCatchEvent startKind actionKind tasks st).1
  = if decide (st.1 ≠ "") then st.1
    else match head tasks with
         | Some task => Sprintf_id startKind (uuid_NewHash (BpmnTask.Id task))
         | None => ""
         end.
Proof.
  unfold classify_IntermediateCatchEvent. revert st.
  induction tasks as [|task tasks IH]; intros [startStepId stepMap]; simpl.
  - destruct (decide (startStepId ≠ "")) as [H|H]; [done|].
    by apply dec_stable in H.
  - rewrite IH. destruct (decide (startStepId ≠ "")) as [Hs|Hs]; simpl.
    + by rewrite decide_True.
    + by rewrite decide_True by apply Sprintf_id_nonempty.
Qed.

Lemma build_stepMap_start specVersion bpmnProcess id :
  start_node specVersion bpmnProcess = Some id →
  (build_stepMap specVersion bpmnProcess).1
  = Sprintf_id (kind_for specVersion CACAO_STEP_TYPE_START) (uuid_NewHash id).
Proof.
  unfold start_node, build_stepMap. intros Hstart.
  pose proof (classify_IntermediateCatchEvent_start
                (kind_for specVersion CACAO_STEP_TYPE_START)
                (kind_for specVersion CACAO_STEP_TYPE_ACTION)
                (BpmnProcess.IntermediateCatchEvent bpmnProcess)
                (classify_StartEvent (kind_for specVersion CACAO_STEP_TYPE_START)
                   (BpmnProcess.StartEvent bpmnProcess))) as H.
  destruct (classify_IntermediateCatchEvent _ _ _ _) as [startStepId stepMap].
  simpl in *. rewrite H. clear H.
  destruct (BpmnProcess.StartEvent bpmnProcess) as [ev|]; simpl.
  - injection Hstart as <-. by rewrite decide_True by apply Sprintf_id_nonempty.
  - destruct (decide (specVersion = CACAO_SPEC_VERSION_11)); [|done].
    destruct (head _) as [task|]; [|done]. by injection Hstart as <-.
Qed.

(** The start event's entry of the step-id index survives the
    classification of the other nodes. *)

Lemma classify_tasks_keeps kind tasks stepMap id :
  is_Some (stepMap !! id) → is_Some (classify_tasks kind tasks stepMap !! id).
Proof.
  intros H. apply (foldl_invariant (λ sm, is_Some (sm !! id))); [done|].
  intros sm task _ Hsm. apply lookup_insert_is_Some'. by right.
Qed.

Lemma classify_EndEvent_keeps kind events stepMap id :
  is_Some (stepMap !! id) → is_Some (classify_EndEvent kind events stepMap !! id).
Proof.
  intros H. apply (foldl_invariant (λ sm, is_Some (sm !! id))); [done|].
  intros sm ev _ Hsm. apply lookup_insert_is_Some'. by right.
Qed.

Lemma classify_fanout_keeps kind gateways stepMap id :
  is_Some (stepMap !! id) → is_Some (classify_fanout kind gateways stepMap !! id).
Proof.
  intros H. apply (foldl_invariant (λ sm, is_Some (sm !! id))); [done|].
  intros sm gateway _ Hsm. apply lookup_insert_is_Some'. by right.
Qed.

Lemma classify_ExclusiveGateway_keeps ifKind switchKind gateways stepMap id :
  is_Some (stepMap !! id) →
  is_Some (classify_ExclusiveGateway ifKind switchKind gateways stepMap !! id).
Proof.
  intros H. apply (foldl_invariant (λ sm, is_Some (sm !! id))); [done|].
  intros sm gateway _ Hsm.
  repeat case_decide; try done; apply lookup_insert_is_Some'; by right.
Qed.

Lemma classify_IntermediateCatchEvent_keeps startKind actionKind tasks st id :
  is_Some (st.2 !! id) →
  is_Some ((classify_IntermediateCatchEvent startKind actionKind tasks st).2 !! id).
Proof.
  intros H. apply (foldl_invariant (λ st, is_Some (st.2 !! id))); [done|].
  intros [startStepId sm] task _ Hsm. simpl in *.
  destruct (decide (startStepId ≠ "")); simpl; [|done].
  apply lookup_insert_is_Some'. by right.
Qed.

Lemma build_stepMap_has_StartEvent specVersion bpmnProcess ev :
  BpmnProcess.StartEvent bpmnProcess = Some ev →
  is_Some ((build_stepMap specVersion bpmnProcess).2 !! BpmnStartEvent.Id ev).
Proof.
  intros Hev. unfold build_stepMap.
  set (st0 := classify_StartEvent _ _).
  assert (H0 : is_Some (st0.2 !! BpmnStartEvent.Id ev)).
  { subst st0. rewrite Hev. simpl. rewrite lookup_insert_eq. by eexists. }
  pose proof (classify_IntermediateCatchEvent_keeps
                (kind_for specVersion CACAO_STEP_TYPE_START)
                (kind_for specVersion CACAO_STEP_TYPE_ACTION)
                (BpmnProcess.IntermediateCatchEvent bpmnProcess) st0 _ H0) as H1.
  destruct (classify_IntermediateCatchEvent _ _ _ st0) as [startStepId stepMap].
  simpl in *.
  do 2 apply classify_fanout_keeps.
  apply classify_ExclusiveGateway_keeps, classify_EndEvent_keeps.
  do 7 apply classify_tasks_keeps.
  by apply classify_EndEvent_keeps.
Qed.

Section Start_invariant.

Variable env : Env.
Variable specVersion : string.
Variable bpmnProcess : BpmnProcess.t.
Variable id : string.

Let WorkflowStart : string :=
  Sprintf_id (kind_for specVersion CACAO_STEP_TYPE_START) (uuid_NewHash id).

Hypothesis random_differs : ∀ n, uuid_New env n ≠ uuid_NewHash id.
Hypothesis ends_and_gateways_differ :
  ∀ id', id' ∈ end_and_gateway_ids bpmnProcess → uuid_NewHash id' ≠ uuid_NewHash id.

Lemma fresh_end_id_not_start n : fresh_end_id env specVersion n ≠ WorkflowStart.
Proof using Type + random_differs.
  unfold fresh_end_id, WorkflowStart. intros H.
  apply derived_id_inj in H; [by apply (random_differs n)| |]; derived_kind.
Qed.

Lemma start_stored_insert wf stepId step :
  start_stored WorkflowStart wf → stepId ≠ WorkflowStart →
  start_stored WorkflowStart (<[stepId := step]> wf).
Proof.
  intros (start & Hstart & Htype) Hne. exists start.
  by rewrite lookup_insert_ne.
Qed.

Lemma start_stored_ProcessTask task commandType stepMap nextStepMap m :
  CacaoPlaybook.WorkflowStart (Mem.cacaoPlaybook m) = WorkflowStart →
  start_stored WorkflowStart (Workflow_of m)
  ∨ task_stepId specVersion task = WorkflowStart →
  start_stored WorkflowStart
    (Workflow_of (ProcessTask env task commandType specVersion stepMap nextStepMap m)).
Proof using Type + random_differs.
  intros HWS H. rewrite ProcessTask_Workflow. rewrite HWS.
  destruct (decide (task_stepId specVersion task = WorkflowStart)) as [Heq|Hne].
  - destruct (decide (task_successor stepMap nextStepMap task = ""));
      (eexists; rewrite Heq; split; [apply lookup_insert_eq|]);
      simpl; unfold task_step_Type; by rewrite Heq, decide_True.
  - destruct H as [H|H]; [|done].
    case_decide; apply start_stored_insert; try done.
    apply start_stored_insert; [done|]. apply fresh_end_id_not_start.
Qed.

Lemma start_stored_ProcessTasks commandType stepMap nextStepMap tasks m :
  CacaoPlaybook.WorkflowStart (Mem.cacaoPlaybook m) = WorkflowStart →
  start_stored WorkflowStart (Workflow_of m)
  ∨ (∃ task, task ∈ tasks ∧ task_stepId specVersion task = WorkflowStart) →
  start_stored WorkflowStart
    (Workflow_of (ProcessTasks env commandType specVersion stepMap nextStepMap tasks m)).
Proof using Type + random_differs.
  unfold ProcessTasks. revert m.
  induction tasks as [|task tasks IH]; intros m HWS H; simpl.
  - destruct H as [H|(task & Htask & _)]; [done|by inversion Htask].
  - apply IH.
    + rewrite <- HWS. apply frame_WorkflowStart, frame_ProcessTask.
    + destruct H as [H|(task' & [->|Htask]%elem_of_cons & Heq)].
      * left. apply start_stored_ProcessTask; auto.
      * left. apply start_stored_ProcessTask; auto.
      * right. by exists task'.
Qed.

Lemma gateway_stepId_not_start kind gateway :
  kind ∈ derived_kinds →
  uuid_NewHash (BpmnGateway.Id gateway) ≠ uuid_NewHash id →
  gateway_stepId specVersion kind gateway ≠ WorkflowStart.
Proof.
  intros Hkind Hne H. unfold gateway_stepId, WorkflowStart in H.
  apply derived_id_inj in H; [done|done|]. derived_kind.
Qed.

Lemma start_stored_ProcessGateway gateway parallel stepMap nextStepMap m :
  uuid_NewHash (BpmnGateway.Id gateway) ≠ uuid_NewHash id →
  start_stored WorkflowStart (Workflow_of m) →
  start_stored WorkflowStart
    (Workflow_of (ProcessGateway env gateway specVersion parallel stepMap nextStepMap m)).
Proof using Type + random_differs.
  intros Hne H. destruct parallel.
  { rewrite ProcessGateway_parallel_Workflow. apply start_stored_insert; [done|].
    apply gateway_stepId_not_start; [|done]. derived_kind. }
  destruct (decide (length (BpmnGateway.Outgoing gateway) = 2)) as [Htwo|Hnot].
  { rewrite ProcessGateway_binary_Workflow by done.
    apply start_stored_insert;
      [|apply gateway_stepId_not_start; [derived_kind|done]].
    repeat case_decide; repeat apply start_stored_insert;
      try done; apply fresh_end_id_not_start. }
  destruct (decide (2 < length (BpmnGateway.Outgoing gateway))) as [Hmany|Hfew].
  { rewrite ProcessGateway_switch_Workflow by done.
    apply start_stored_insert; [done|].
    apply gateway_stepId_not_start; [|done]. derived_kind. }
  by rewrite ProcessGateway_anomaly_Workflow by lia.
Qed.

Lemma start_stored_ProcessGateways parallel stepMap nextStepMap gateways m :
  (∀ gateway, gateway ∈ gateways →
     uuid_NewHash (BpmnGateway.Id gateway) ≠ uuid_NewHash id) →
  start_stored WorkflowStart (Workflow_of m) →
  start_stored WorkflowStart
    (Workflow_of
       (ProcessGateways env specVersion parallel stepMap nextStepMap gateways m)).
Proof using Type + random_differs.
  intros Hne H.
  apply (foldl_invariant (λ m', start_stored WorkflowStart (Workflow_of m'))); [done|].
  intros m' gateway Hgateway. apply start_stored_ProcessGateway. by apply Hne.
Qed.

Lemma getStr_not_start stepMap id' :
  map_Forall (promised specVersion bpmnProcess) stepMap →
  uuid_NewHash id' ≠ uuid_NewHash id →
  getStr stepMap id' ≠ WorkflowStart.
Proof.
  intros Hentries Hne. unfold getStr.
  destruct (stepMap !! id') as [stepId|] eqn:E; simpl.
  - apply Hentries in E. apply promised_derived in E as (kind & Hkind & ->).
    intros H. apply derived_id_inj in H; [done|done|]. derived_kind.
  - intros H. symmetry in H. by apply Sprintf_id_nonempty in H.
Qed.

Lemma start_stored_create_end_steps stepMap m :
  map_Forall (promised specVersion bpmnProcess) stepMap →
  start_stored WorkflowStart (Workflow_of m) →
  start_stored WorkflowStart
    (Workflow_of (create_end_steps (BpmnProcess.EndEvent bpmnProcess) stepMap m)).
Proof using Type + ends_and_gateways_differ.
  intros Hentries H.
  apply (foldl_invariant (λ m', start_stored WorkflowStart (Workflow_of m'))); [done|].
  intros m' ev Hev H'. rewrite Workflow_of_store_step.
  apply start_stored_insert; [done|]. apply getStr_not_start; [done|].
  apply ends_and_gateways_differ. unfold end_and_gateway_ids.
  apply elem_of_app. left. apply list_elem_of_fmap. by exists ev.
Qed.

End Start_invariant.

Lemma build_stepMap_StartEvent_entry specVersion bpmnProcess ev :
  BpmnProcess.StartEvent bpmnProcess = Some ev →
  (∀ id', id' ∈ end_and_gateway_ids bpmnProcess →
          uuid_NewHash id' ≠ uuid_NewHash (BpmnStartEvent.Id ev)) →
  (∀ id', id' ∈ task_ids bpmnProcess → id' ≠ BpmnStartEvent.Id ev) →
  (build_stepMap specVersion bpmnProcess).2 !! BpmnStartEvent.Id ev
  = Some (Sprintf_id (kind_for specVersion CACAO_STEP_TYPE_START)
                     (uuid_NewHash (BpmnStartEvent.Id ev))).
Proof.
  intros Hev Hdistinct Htasks.
  destruct (build_stepMap_has_StartEvent specVersion bpmnProcess ev Hev)
    as [stepId HstepId].
  rewrite HstepId. f_equal.
  pose proof (build_stepMap_entries specVersion bpmnProcess _ _ HstepId) as Hpromised.
  assert (Hno : ∀ id', id' ∈ end_and_gateway_ids bpmnProcess →
                       id' ≠ BpmnStartEvent.Id ev).
  { intros id' Hid' ->. by apply (Hdistinct _ Hid'). }
  unfold end_and_gateway_ids in Hno.
  destruct Hpromised
    as [(ev' & Hev' & _ & ->)
       |[(end' & Hend & Heq & _)
        |[(task & Htask & Heq & _)
         |[(gateway & Hgateway & Heq & _)
          |[(gateway & Hgateway & Heq & _)
           |[(gateway & Hgateway & Heq & _)
            |(gateway & Hgateway & Heq & _)]]]]]]; [done|exfalso..].
  - apply (Hno (BpmnEndEvent.Id end')); [|done].
    rewrite !elem_of_app, !list_elem_of_fmap. left. by exists end'.
  - apply (Htasks (BpmnTask.Id task)); [|done].
    apply list_elem_of_fmap. by exists task.
  - apply (Hno (BpmnGateway.Id gateway)); [|done].
    rewrite !elem_of_app, !list_elem_of_fmap. right; left. by exists gateway.
  - apply (Hno (BpmnGateway.Id gateway)); [|done].
    rewrite !elem_of_app, !list_elem_of_fmap. right; left. by exists gateway.
  - apply (Hno (BpmnGateway.Id gateway)); [|done].
    rewrite !elem_of_app, !list_elem_of_fmap. right; right; left. by exists gateway.
  - apply (Hno (BpmnGateway.Id gateway)); [|done].
    rewrite !elem_of_app, !list_elem_of_fmap. right; right; right. by exists gateway.
Qed.

Lemma start_stored_lower env specVersion bpmnProcess id nextStepMap m :
  start_node specVersion bpmnProcess = Some id →
  (∀ n, uuid_New env n ≠ uuid_NewHash id) →
  (∀ id', id' ∈ end_and_gateway_ids bpmnProcess → uuid_NewHash id' ≠ uuid_NewHash id) →
  (is_Some (BpmnProcess.StartEvent bpmnProcess) →
   ∀ id', id' ∈ task_ids bpmnProcess → id' ≠ id) →
  CacaoPlaybook.WorkflowStart (Mem.cacaoPlaybook m)
  = Sprintf_id (kind_for specVersion CACAO_STEP_TYPE_START) (uuid_NewHash id) →
  start_stored
    (Sprintf_id (kind_for specVersion CACAO_STEP_TYPE_START) (uuid_NewHash id))
    (Workflow_of
       (lower env specVersion bpmnProcess
          (build_stepMap specVersion bpmnProcess).2 nextStepMap m)).
Proof.
  intros Hstart Hrandom Hdistinct Htasks HWS.
  set (WS := Sprintf_id _ _) in *.
  set (stepMap := (build_stepMap specVersion bpmnProcess).2).
  pose proof (build_stepMap_entries specVersion bpmnProcess) as Hentries.
  fold stepMap in Hentries.
  assert (Hgateways : ∀ gateway,
            gateway ∈ BpmnProcess.ExclusiveGateway bpmnProcess
            ∨ gateway ∈ BpmnProcess.ParallelGateway bpmnProcess
            ∨ gateway ∈ BpmnProcess.InclusiveGateway bpmnProcess →
            uuid_NewHash (BpmnGateway.Id gateway) ≠ uuid_NewHash id).
  { intros gateway Hgateway. apply Hdistinct. unfold end_and_gateway_ids.
    rewrite !elem_of_app, !list_elem_of_fmap.
    destruct Hgateway as [?|[?|?]];
      [right; left|right; right; left|right; right; right]; by exists gateway. }
  assert (Hkeep : ∀ m',
            CacaoPlaybook.WorkflowStart (Mem.cacaoPlaybook m') = WS →
            start_stored WS (Workflow_of m') →
            start_stored WS
              (Workflow_of
                 (ProcessGateways env specVersion false stepMap nextStepMap
                    (BpmnProcess.InclusiveGateway bpmnProcess)
                 (ProcessGateways env specVersion true stepMap nextStepMap
                    (BpmnProcess.ParallelGateway bpmnProcess)
                 (ProcessGateways env specVersion false stepMap nextStepMap
                    (BpmnProcess.ExclusiveGateway bpmnProcess)
                 (ProcessTasks env CACAO_COMMAND_TYPE_MANUAL specVersion stepMap nextStepMap
                    (BpmnProcess.IntermediateThrowEvent bpmnProcess)
                 (ProcessTasks env CACAO_COMMAND_TYPE_MANUAL specVersion stepMap nextStepMap
                    (BpmnProcess.Task bpmnProcess)
                 (ProcessTasks env CACAO_COMMAND_TYPE_BASH specVersion stepMap nextStepMap
                    (BpmnProcess.SendTask bpmnProcess)
                 (ProcessTasks env CACAO_COMMAND_TYPE_BASH specVersion stepMap nextStepMap
                    (BpmnProcess.ScriptTask bpmnProcess)
                 (ProcessTasks env CACAO_COMMAND_TYPE_MANUAL specVersion stepMap nextStepMap
                    (BpmnProcess.ManualTask bpmnProcess)
                 (ProcessTasks env CACAO_COMMAND_TYPE_MANUAL specVersion stepMap nextStepMap
                    (BpmnProcess.UserTask bpmnProcess)
                 (ProcessTasks env CACAO_COMMAND_TYPE_HTTP specVersion stepMap nextStepMap
                    (BpmnProcess.ServiceTask bpmnProcess)
                 (create_end_steps (BpmnProcess.EndEvent bpmnProcess) stepMap
                    m'))))))))))))).
  { intros m' HWS' Hm'.
    do 3 (apply (start_stored_ProcessGateways env specVersion id Hrandom);
          [intros gateway Hgateway; apply Hgateways; auto|]).
    do 7 (apply (start_stored_ProcessTasks env specVersion id Hrandom);
          [etrans; [|exact HWS']; apply frame_WorkflowStart;
           rewrite ?frame_ProcessTasks; apply frame_create_end_steps
          |left]).
    by apply start_stored_create_end_steps. }
  unfold lower. apply Hkeep.
  { etrans; [|exact HWS]. apply frame_WorkflowStart.
    rewrite frame_ProcessTasks. apply frame_create_start_step. }
  unfold start_node in Hstart.
  destruct (BpmnProcess.StartEvent bpmnProcess) as [ev|] eqn:Hev.
  - injection Hstart as <-.
    apply (start_stored_ProcessTasks env specVersion _ Hrandom).
    { etrans; [|exact HWS]. apply frame_WorkflowStart, frame_create_start_step. }
    left. simpl. rewrite Workflow_of_store_step.
    assert (Hentry : getStr stepMap (BpmnStartEvent.Id ev) = WS).
    { unfold getStr, stepMap.
      rewrite (build_stepMap_StartEvent_entry specVersion bpmnProcess ev Hev);
        [done|done|]. apply Htasks. by eexists. }
    rewrite Hentry. eexists. split; [apply lookup_insert_eq|done].
  - destruct (decide (specVersion = CACAO_SPEC_VERSION_11)) as [->|]; [|done].
    destruct (BpmnProcess.IntermediateCatchEvent bpmnProcess) as [|task tasks] eqn:Hcatch;
      [done|].
    injection Hstart as <-.
    apply (start_stored_ProcessTasks env _ _ Hrandom); [done|].
    right. exists task. split; [left|done].
Qed.

(** C1, as amended.  Take a document with one process that has a start
    node: its start event or, without one and under 1.1, its first
    intermediate catch event.  When no end event and no gateway has the
    derived identifier of that node, no task has the id of the start event,
    and no random identifier equals the node's derived identifier, the
    declared start id of the returned playbook is a key of the workflow,
    once, and the step under it has type [start]. *)
Theorem declared_start_is_stored
    env bpmnDefinition specVersion bpmnProcess id cacaoPlaybook :
  BpmnDefinitions.Processes bpmnDefinition = [bpmnProcess] →
  start_node specVersion bpmnProcess = Some id →
  (∀ n, uuid_New env n ≠ uuid_NewHash id) →
  (∀ id', id' ∈ end_and_gateway_ids bpmnProcess → uuid_NewHash id' ≠ uuid_NewHash id) →
  (is_Some (BpmnProcess.StartEvent bpmnProcess) →
   ∀ id', id' ∈ task_ids bpmnProcess → id' ≠ id) →
  playbook (ConvertToCacao env bpmnDefinition specVersion) = Some cacaoPlaybook →
  ∃ step,
    CacaoPlaybook.Workflow cacaoPlaybook !! CacaoPlaybook.WorkflowStart cacaoPlaybook
    = Some step
    ∧ Step.Type_ step = CACAO_STEP_TYPE_START
    ∧ occurrences (CacaoPlaybook.Workflow cacaoPlaybook)
                  (CacaoPlaybook.WorkflowStart cacaoPlaybook) = 1.
Proof.
  intros Hone Hstart Hrandom Hdistinct Htasks.
  unfold ConvertToCacao. rewrite Hone. simpl. intros [= <-].
  pose proof (frame_convert_process env bpmnDefinition bpmnProcess specVersion) as Hframe.
  apply (f_equal (λ x, CacaoPlaybook.WorkflowStart x.2)) in Hframe. simpl in Hframe.
  rewrite (build_stepMap_start _ _ _ Hstart) in Hframe.
  rewrite Hframe.
  assert (Hstored :
    start_stored
      (Sprintf_id (kind_for specVersion CACAO_STEP_TYPE_START) (uuid_NewHash id))
      (Workflow_of (convert_process env bpmnDefinition bpmnProcess specVersion))).
  { unfold convert_process.
    pose proof (build_stepMap_start _ _ _ Hstart) as HWS.
    pose proof (start_stored_lower env specVersion bpmnProcess id
                  (build_nextStepMap (BpmnProcess.SequenceFlow bpmnProcess))) as Hlower.
    destruct (build_stepMap specVersion bpmnProcess) as [startStepId stepMap].
    simpl in *. subst startStepId. by apply Hlower. }
  destruct Hstored as (step & Hstep & Htype).
  exists step. split; [done|]. split; [done|].
  by apply (occurrences_key _ _ step).
Qed.

(** ** The result of a call, and the input after it *)

(** C8. [ConvertToCacao] returns an error exactly when the number of
    processes of the document differs from one, and then it returns no
    playbook; with exactly one process it returns a playbook and no
    error, whatever the process contains. *)
Theorem ConvertToCacao_error_iff_not_one_process env bpmnDefinition specVersion :
  let r := ConvertToCacao env bpmnDefinition specVersion in
  (is_Some (error r) ↔ length (BpmnDefinitions.Processes bpmnDefinition) ≠ 1)
  ∧ (length (BpmnDefinitions.Processes bpmnDefinition) ≠ 1 → playbook r = None)
  ∧ (length (BpmnDefinitions.Processes bpmnDefinition) = 1 →
     is_Some (playbook r) ∧ error r = None).
Proof.
  unfold ConvertToCacao.
  destruct (BpmnDefinitions.Processes bpmnDefinition) as [|bpmnProcess [|second rest]];
    simpl; (split; [split|split]); try done; try lia; eauto;
    try (intros [? [=]]); try (intros _; split; [by eexists|done]).
Qed.

(** C10. The conversion reads the parsed document and never writes it: the
    object behind the pointer given to [ConvertToCacao] is the same after
    the call, and [ProcessTask] and [ProcessGateway] leave it as they found
    it. *)
Theorem bpmnDefinition_never_modified env bpmnDefinition specVersion :
  bpmnDefinition_after (ConvertToCacao env bpmnDefinition specVersion) = bpmnDefinition
  ∧ (∀ task commandType stepMap nextStepMap m,
       Mem.bpmnDefinition
         (ProcessTask env task commandType specVersion stepMap nextStepMap m)
       = Mem.bpmnDefinition m)
  ∧ (∀ gateway parallel stepMap nextStepMap m,
       Mem.bpmnDefinition
         (ProcessGateway env gateway specVersion parallel stepMap nextStepMap m)
       = Mem.bpmnDefinition m).
Proof.
  split; [|split].
  - unfold ConvertToCacao.
    destruct (BpmnDefinitions.Processes bpmnDefinition) as [|bpmnProcess [|second rest]];
      try reflexivity.
    simpl.
    pose proof (frame_convert_process env bpmnDefinition bpmnProcess specVersion) as H.
    by apply (f_equal fst) in H.
  - intros.
    pose proof (frame_ProcessTask env task commandType specVersion stepMap nextStepMap m) as H.
    by apply (f_equal fst) in H.
  - intros.
    pose proof (frame_ProcessGateway env gateway specVersion parallel stepMap nextStepMap m) as H.
    by apply (f_equal fst) in H.
Qed.

(** ** One call of ProcessTask or ProcessGateway, in full *)

Lemma uuids_switch_cases env gateway stepMap nextStepMap m :
  Mem.uuids (switch_cases env gateway stepMap nextStepMap m).2 = Mem.uuids m.
Proof.
  unfold switch_cases.
  apply (foldl_invariant (λ st, Mem.uuids st.2 = Mem.uuids m)); [done|].
  by intros [Cases m'] _ _.
Qed.

Lemma ranges_switch_cases env gateway stepMap nextStepMap m :
  Mem.ranges (switch_cases env gateway stepMap nextStepMap m).2
  = Mem.ranges m + length (BpmnGateway.Outgoing gateway).
Proof.
  unfold switch_cases.
  assert (H : ∀ passes Cases m,
    Mem.ranges
      (foldl (λ '(Cases, m) (_ : nat),
                let '(order, m) := range_nextStepMap env nextStepMap m in
                (switch_cases_pass gateway stepMap order Cases, m))
             (Cases, m) passes).2
    = Mem.ranges m + length passes).
  { induction passes as [|i passes IH]; intros Cases m0; simpl; [lia|].
    rewrite IH. simpl. lia. }
  by rewrite H, length_seq.
Qed.

(** The random identifiers one call of [ProcessGateway] draws. *)
Lemma ProcessGateway_uuids env gateway specVersion parallel stepMap nextStepMap m :
  Mem.uuids (ProcessGateway env gateway specVersion parallel stepMap nextStepMap m)
  = Mem.uuids m
    + if parallel then 0 else gateway_repairs stepMap nextStepMap gateway.
Proof.
  unfold ProcessGateway, gateway_repairs, gateway_branch.
  destruct parallel; [simpl; lia|].
  destruct (decide (length _ = 2)).
  - repeat (destruct (decide (getStr stepMap _ = ""))); simpl; lia.
  - destruct (decide (2 < length _)); [|simpl; lia].
    destruct (switch_cases _ _ _ _ _) as [Cases m'] eqn:E. simpl.
    change m' with (Cases, m').2. rewrite <- E, uuids_switch_cases. simpl. lia.
Qed.

Lemma ProcessTask_ranges env task commandType specVersion stepMap nextStepMap m :
  Mem.ranges (ProcessTask env task commandType specVersion stepMap nextStepMap m)
  = Mem.ranges m.
Proof.
  unfold ProcessTask. by destruct (decide (getStr stepMap _ = "")).
Qed.

(** X1. When the successor of a task resolves, [ProcessTask] stores one
    step for the task and nothing else: its on_completion is the step id the
    step-id index gives for the target of the task's transition, it carries
    the task's name and one command, every other key of the workflow keeps
    its step, and no random identifier is drawn. *)
Theorem ProcessTask_links_resolved_successor
    env task commandType specVersion stepMap nextStepMap m :
  task_successor stepMap nextStepMap task ≠ "" →
  let m' := ProcessTask env task commandType specVersion stepMap nextStepMap m in
  let target := getStr nextStepMap (Sprintf_key (BpmnTask.Id task) "0") in
  ∃ step,
    Workflow_of m' = <[task_stepId specVersion task := step]> (Workflow_of m)
    ∧ stepMap !! target = Some (Step.OnCompletion step)
    ∧ Step.Name step = BpmnTask.Name task
    ∧ Step.Commands step
      = [Command.mk commandType (BpmnTask.Name task) (BpmnTask.Documentation task)]
    ∧ (∀ key, key ≠ task_stepId specVersion task →
              Workflow_of m' !! key = Workflow_of m !! key)
    ∧ Mem.uuids m' = Mem.uuids m.
Proof.
  intros Hresolved m' target.
  pose proof (ProcessTask_Workflow env task commandType specVersion
                stepMap nextStepMap m) as Hwf.
  cbv zeta in Hwf. rewrite decide_False in Hwf by done. fold m' in Hwf.
  eexists. split; [exact Hwf|]. split.
  { simpl. unfold task_successor, getStr in *. fold target in Hresolved |- *.
    by destruct (stepMap !! target). }
  split; [done|]. split; [done|]. split.
  - intros key Hkey. rewrite Hwf. by rewrite lookup_insert_ne.
  - subst m'. rewrite ProcessTask_uuids. by rewrite decide_False.
Qed.

(** X2. [ProcessTask] writes the workflow and nothing else of the playbook;
    [ProcessGateway] writes the workflow and the variable table and nothing
    else.  Type, spec version, id, name, timestamps and declared start are
    those of the playbook before the call. *)
Theorem lowering_step_writes_only_its_tables
    env specVersion stepMap nextStepMap m :
  (∀ task commandType,
     let m' := ProcessTask env task commandType specVersion stepMap nextStepMap m in
     Mem.cacaoPlaybook m'
     = CacaoPlaybook.with_Workflow (Mem.cacaoPlaybook m) (Workflow_of m')
     ∧ Mem.ranges m' = Mem.ranges m)
  ∧ (∀ gateway parallel,
       let m' := ProcessGateway env gateway specVersion parallel stepMap nextStepMap m in
       Mem.cacaoPlaybook m'
       = CacaoPlaybook.with_Workflow
           (CacaoPlaybook.with_PlaybookVariables (Mem.cacaoPlaybook m)
              (PlaybookVariables_of m'))
           (Workflow_of m')).
Proof.
  split.
  - intros task commandType m'. split; [|apply ProcessTask_ranges].
    apply playbook_eq_from_parts.
    + pose proof (frame_ProcessTask env task commandType specVersion
                    stepMap nextStepMap m) as H.
      apply (f_equal snd) in H. simpl in H. fold m' in H. rewrite H.
      by destruct (Mem.cacaoPlaybook m).
    + pose proof (PlaybookVariables_ProcessTask env task commandType specVersion
                    stepMap nextStepMap m) as H.
      unfold PlaybookVariables_of in H. fold m' in H. rewrite H.
      by destruct (Mem.cacaoPlaybook m).
    + by destruct (Mem.cacaoPlaybook m).
  - intros gateway parallel m'.
    apply playbook_eq_from_parts.
    + pose proof (frame_ProcessGateway env gateway specVersion parallel
                    stepMap nextStepMap m) as H.
      apply (f_equal snd) in H. simpl in H. fold m' in H. rewrite H.
      by destruct (Mem.cacaoPlaybook m).
    + by destruct (Mem.cacaoPlaybook m).
    + by destruct (Mem.cacaoPlaybook m).
Qed.

Lemma foldl_snoc_fmap {A B} (f : B → A) (l : list B) (acc : list A) :
  foldl (λ acc b, (acc ++ [f b])%list) acc l = (acc ++ (f <$> l))%list.
Proof.
  revert acc. induction l as [|b l IH]; intros acc; simpl.
  - by rewrite app_nil_r.
  - rewrite IH. by rewrite <- app_assoc.
Qed.

(** X3. A gateway lowered as parallel gets one parallel step, stored under
    its derived id, whose next_steps has one entry per outgoing transition
    of the gateway: the i-th is the step id found for the target recorded
    under the gateway's i-th positional key, or the empty string when that
    does not resolve.  No variable is declared and no End step is
    synthesized. *)
Theorem ProcessGateway_parallel_fan_out env gateway specVersion stepMap nextStepMap m :
  let m' := ProcessGateway env gateway specVersion true stepMap nextStepMap m in
  ∃ step,
    Workflow_of m'
    = <[gateway_stepId specVersion CACAO_STEP_TYPE_PARALLEL gateway := step]>
        (Workflow_of m)
    ∧ Step.Type_ step = CACAO_STEP_TYPE_PARALLEL
    ∧ length (Step.NextSteps step) = length (BpmnGateway.Outgoing gateway)
    ∧ (∀ i, i < length (BpmnGateway.Outgoing gateway) →
            Step.NextSteps step !! i
            = Some (getStr stepMap
                      (getStr nextStepMap (Sprintf_key_d (BpmnGateway.Id gateway) i))))
    ∧ PlaybookVariables_of m' = PlaybookVariables_of m
    ∧ Mem.uuids m' = Mem.uuids m.
Proof.
  intros m'. exists (parallel_step gateway stepMap nextStepMap).
  split; [apply ProcessGateway_parallel_Workflow|].
  split; [done|].
  assert (Hnext :
    Step.NextSteps (parallel_step gateway stepMap nextStepMap)
    = (λ i, getStr stepMap
              (getStr nextStepMap (Sprintf_key_d (BpmnGateway.Id gateway) i)))
        <$> seq 0 (length (BpmnGateway.Outgoing gateway))).
  { simpl. unfold parallel_NextSteps. by rewrite foldl_snoc_fmap. }
  rewrite Hnext.
  split; [by rewrite length_fmap, length_seq|]. split.
  - intros i Hi. by rewrite list_lookup_fmap, lookup_seq_lt.
  - split; [done|]. subst m'. rewrite ProcessGateway_uuids. lia.
Qed.

(** X4. A gateway lowered conditionally with fewer than two outgoing
    transitions gets no step, the workflow is as before; its condition
    variable is declared all the same, as an integer with value 0. *)
Theorem ProcessGateway_too_few_transitions
    env gateway specVersion stepMap nextStepMap m :
  length (BpmnGateway.Outgoing gateway) < 2 →
  let m' := ProcessGateway env gateway specVersion false stepMap nextStepMap m in
  Workflow_of m' = Workflow_of m
  ∧ PlaybookVariables_of m'
    = <[condition_name gateway := gateway_variable gateway]> (PlaybookVariables_of m)
  ∧ Mem.uuids m' = Mem.uuids m.
Proof.
  intros Hfew m'. split; [by apply ProcessGateway_anomaly_Workflow|]. split.
  - subst m'. by rewrite PlaybookVariables_ProcessGateway.
  - subst m'. rewrite ProcessGateway_uuids. unfold gateway_repairs.
    rewrite decide_False by lia. lia.
Qed.

(** ** The case table of a switch step *)

(** Where a case comes from: an entry of the transition index whose key
    starts with the gateway's id, trimmed to the case's name, whose target
    gives the case's only target. *)
Lemma switch_cases_pass_origin gateway (stepMap nextStepMap : gmap string string)
    (order : list (string * string)) Cases :
  (∀ key val, (key, val) ∈ order → nextStepMap !! key = Some val) →
  map_Forall
    (λ name targets,
       ∃ key val, nextStepMap !! key = Some val
                  ∧ HasPrefix key (BpmnGateway.Id gateway) = true
                  ∧ TrimPrefix key (BpmnGateway.Id gateway +:+ ":") = name
                  ∧ targets = [getStr stepMap val])
    Cases →
  map_Forall
    (λ name targets,
       ∃ key val, nextStepMap !! key = Some val
                  ∧ HasPrefix key (BpmnGateway.Id gateway) = true
                  ∧ TrimPrefix key (BpmnGateway.Id gateway +:+ ":") = name
                  ∧ targets = [getStr stepMap val])
    (switch_cases_pass gateway stepMap order Cases).
Proof.
  intros Horder HCases. unfold switch_cases_pass.
  apply (foldl_invariant
           (map_Forall
              (λ name targets,
                 ∃ key val, nextStepMap !! key = Some val
                            ∧ HasPrefix key (BpmnGateway.Id gateway) = true
                            ∧ TrimPrefix key (BpmnGateway.Id gateway +:+ ":") = name
                            ∧ targets = [getStr stepMap val])));
    [done|].
  intros Cases' [key val] Hin HCases'.
  destruct (HasPrefix key (BpmnGateway.Id gateway)) eqn:E; [|done].
  apply map_Forall_insert_2; [|done].
  exists key, val. split; [by apply Horder|done].
Qed.

Lemma switch_cases_origin env gateway stepMap nextStepMap m :
  (∀ n key val, (key, val) ∈ range_order env n nextStepMap
                ↔ nextStepMap !! key = Some val) →
  map_Forall
    (λ name targets,
       ∃ key val, nextStepMap !! key = Some val
                  ∧ HasPrefix key (BpmnGateway.Id gateway) = true
                  ∧ TrimPrefix key (BpmnGateway.Id gateway +:+ ":") = name
                  ∧ targets = [getStr stepMap val])
    (switch_cases env gateway stepMap nextStepMap m).1.
Proof.
  intros Hrange. unfold switch_cases.
  apply (foldl_invariant
           (λ st,
              map_Forall
                (λ name targets,
                   ∃ key val, nextStepMap !! key = Some val
                              ∧ HasPrefix key (BpmnGateway.Id gateway) = true
                              ∧ TrimPrefix key (BpmnGateway.Id gateway +:+ ":") = name
                              ∧ targets = [getStr stepMap val])
                st.1)).
  - apply map_Forall_empty.
  - intros [Cases m'] i _ HCases. simpl in *.
    apply (switch_cases_pass_origin gateway stepMap nextStepMap); [|done].
    intros key val Hin. by apply Hrange in Hin.
Qed.

Lemma own_key_rebuilt id key :
  HasPrefix key (id +:+ ":") = true →
  Sprintf_key id (TrimPrefix key (id +:+ ":")) = key.
Proof.
  intros H. unfold Sprintf_key, TrimPrefix. rewrite H.
  rewrite <- append_assoc'. symmetry. by apply HasPrefix_split.
Qed.

(** X5. A gateway lowered conditionally with more than two outgoing
    transitions gets one switch-condition step on its condition variable.
    Its cases are read off the whole transition index: there is a case for
    every entry whose key starts with the gateway's id, named by the key
    with [id:] trimmed, and every case has exactly one target, the step id
    found for the target of such an entry.  No End step is synthesized, and
    the index is traversed once per outgoing transition. *)
Theorem ProcessGateway_switch_cases env gateway specVersion stepMap nextStepMap m :
  2 < length (BpmnGateway.Outgoing gateway) →
  (∀ n key val, (key, val) ∈ range_order env n nextStepMap
                ↔ nextStepMap !! key = Some val) →
  let m' := ProcessGateway env gateway specVersion false stepMap nextStepMap m in
  ∃ step,
    Workflow_of m'
    = <[gateway_stepId specVersion CACAO_STEP_TYPE_SWITCH_COND gateway := step]>
        (Workflow_of m)
    ∧ Step.Type_ step = CACAO_STEP_TYPE_SWITCH_COND
    ∧ Step.Switch step = condition_name gateway
    ∧ (∀ name,
         is_Some (Step.Cases step !! name)
         ↔ ∃ key val, nextStepMap !! key = Some val
                      ∧ HasPrefix key (BpmnGateway.Id gateway) = true
                      ∧ TrimPrefix key (BpmnGateway.Id gateway +:+ ":") = name)
    ∧ (∀ name targets,
         Step.Cases step !! name = Some targets →
         ∃ key val, nextStepMap !! key = Some val
                    ∧ HasPrefix key (BpmnGateway.Id gateway) = true
                    ∧ TrimPrefix key (BpmnGateway.Id gateway +:+ ":") = name
                    ∧ targets = [getStr stepMap val])
    ∧ Mem.uuids m' = Mem.uuids m
    ∧ Mem.ranges m' = Mem.ranges m + length (BpmnGateway.Outgoing gateway).
Proof.
  intros Hmany Hrange m'. eexists.
  split; [by apply ProcessGateway_switch_Workflow|].
  split; [done|]. split; [done|]. split.
  { intros name. simpl. apply switch_cases_names; [done|lia]. }
  split.
  { intros name targets Hcase. simpl in Hcase.
    by apply (switch_cases_origin env gateway stepMap nextStepMap _ Hrange) in Hcase. }
  split.
  - subst m'. rewrite ProcessGateway_uuids. unfold gateway_repairs.
    rewrite decide_False by lia. lia.
  - subst m'. unfold ProcessGateway.
    rewrite decide_False by lia. rewrite decide_True by done.
    destruct (switch_cases _ _ _ _ _) as [Cases m1] eqn:E. simpl.
    change m1 with (Cases, m1).2. rewrite <- E, ranges_switch_cases. done.
Qed.

(** X6. When every entry of the transition index whose key starts with the
    gateway's id belongs to the gateway (its key starts with [id:]), the
    case table of the switch step is the gateway's part of the index: the
    case named by a discriminator holds the step id found for the target
    recorded under [id:discriminator], and there is no other case. *)
Theorem ProcessGateway_switch_own_cases
    env gateway specVersion stepMap nextStepMap m :
  2 < length (BpmnGateway.Outgoing gateway) →
  (∀ n key val, (key, val) ∈ range_order env n nextStepMap
                ↔ nextStepMap !! key = Some val) →
  (∀ key, is_Some (nextStepMap !! key) →
          HasPrefix key (BpmnGateway.Id gateway) = true →
          HasPrefix key (BpmnGateway.Id gateway +:+ ":") = true) →
  let m' := ProcessGateway env gateway specVersion false stepMap nextStepMap m in
  ∃ step,
    Workflow_of m'
      !! gateway_stepId specVersion CACAO_STEP_TYPE_SWITCH_COND gateway = Some step
    ∧ Step.Type_ step = CACAO_STEP_TYPE_SWITCH_COND
    ∧ ∀ discriminator,
        Step.Cases step !! discriminator
        = (λ target, [getStr stepMap target])
            <$> nextStepMap !! Sprintf_key (BpmnGateway.Id gateway) discriminator.
Proof.
  intros Hmany Hrange Hown m'. eexists.
  split; [subst m'; rewrite ProcessGateway_switch_Workflow by done;
          apply lookup_insert_eq|].
  split; [done|]. intros name. simpl.
  set (Cases := (switch_cases _ _ _ _ _).1).
  assert (Hnames : is_Some (Cases !! name)
                   ↔ is_Some (nextStepMap !! Sprintf_key (BpmnGateway.Id gateway) name)).
  { apply switch_cases_own_discriminators; [done|lia|done]. }
  destruct (Cases !! name) as [targets|] eqn:Hcase.
  - apply (switch_cases_origin env gateway stepMap nextStepMap _ Hrange) in Hcase
      as (key & val & Hkey & Hprefix & Htrim & ->).
    assert (Hcolon : HasPrefix key (BpmnGateway.Id gateway +:+ ":") = true)
      by (apply Hown; [by eexists|done]).
    rewrite <- Htrim, (own_key_rebuilt _ _ Hcolon), Hkey. done.
  - destruct (nextStepMap !! Sprintf_key (BpmnGateway.Id gateway) name) eqn:Hkey;
      [|done].
    destruct Hnames as [_ Hnames]. destruct (Hnames ltac:(by eexists)) as [? [=]].
Qed.

(** ** The transition index as a whole *)

Lemma Sprintf_key_inj a b x y :
  colon_free a = true → colon_free b = true →
  Sprintf_key a x = Sprintf_key b y → a = b ∧ x = y.
Proof.
  unfold Sprintf_key. revert b.
  induction a as [|c a IH]; intros [|d b]; simpl.
  - intros _ _ [=]. done.
  - destruct (decide (d = ":"%char)) as [->|]; [done|]. intros _ _ [=]. done.
  - destruct (decide (c = ":"%char)) as [->|]; [done|]. intros _ _ [=]. done.
  - destruct (decide (c = ":"%char)); [done|].
    destruct (decide (d = ":"%char)); [done|].
    intros Ha Hb [= -> H]. destruct (IH b Ha Hb H) as [-> ->]. done.
Qed.

Lemma pretty_N_go_all_digits x s :
  all_digits s = true → all_digits (pretty_N_go x s) = true.
Proof.
  revert s. induction (N.lt_wf_0 x) as [x _ IH]; intros s Hs.
  assert (x = 0 ∨ 0 < x)%N as [->|Hpos] by lia.
  - by rewrite pretty_N_go_0.
  - rewrite pretty_N_go_step by done. apply IH.
    { by apply N.div_lt. }
    simpl. rewrite Hs, andb_true_r. apply bool_decide_eq_true.
    unfold pretty_N_char. repeat case_match; vm_compute; lia.
Qed.

(** [%d] of a non-negative number prints decimal digits only. *)
Lemma pretty_nat_all_digits (k : nat) : all_digits (pretty k) = true.
Proof.
  unfold pretty, pretty_nat, pretty, pretty_N.
  destruct (decide (N.of_nat k = 0%N)); [reflexivity|].
  by apply pretty_N_go_all_digits.
Qed.

Lemma not_all_digits_not_numeral s (k : nat) : all_digits s = false → s ≠ pretty k.
Proof. intros Hs ->. by rewrite pretty_nat_all_digits in Hs. Qed.

Lemma record_flow_labelled nextStepMap sequenceFlow :
  BpmnSequenceFlow.Name sequenceFlow ≠ "" →
  record_flow nextStepMap sequenceFlow
  = <[Sprintf_key (BpmnSequenceFlow.SourceRef sequenceFlow)
        (strings_ToUpper (BpmnSequenceFlow.Name sequenceFlow))
      := BpmnSequenceFlow.TargetRef sequenceFlow]> nextStepMap.
Proof. intros HName. unfold record_flow, nextStepMapKey. by rewrite decide_True. Qed.

Lemma record_flow_unlabelled nextStepMap sequenceFlow :
  BpmnSequenceFlow.Name sequenceFlow = "" →
  ∃ k, record_flow nextStepMap sequenceFlow
       = <[Sprintf_key_d (BpmnSequenceFlow.SourceRef sequenceFlow) k
           := BpmnSequenceFlow.TargetRef sequenceFlow]> nextStepMap
       ∧ nextStepMap !! Sprintf_key_d (BpmnSequenceFlow.SourceRef sequenceFlow) k = None
       ∧ ∀ j, j < k →
              is_Some (nextStepMap
                         !! Sprintf_key_d (BpmnSequenceFlow.SourceRef sequenceFlow) j).
Proof.
  intros HName. unfold record_flow, nextStepMapKey.
  rewrite decide_False by (intros H; by apply H).
  destruct (probe_finds nextStepMap (BpmnSequenceFlow.SourceRef sequenceFlow))
    as [k Hk].
  rewrite Hk. simpl. apply probe_Some in Hk as (_ & Hfree & Hbelow).
  exists k. split; [done|]. split; [done|]. intros j Hj. apply Hbelow. lia.
Qed.

(** X7. The transition index holds nothing but the process's flows: every
    entry carries the target of a flow of the list, under the key made of
    that flow's source and either its upper-cased label or a number.  An
    unlabelled flow always gets an entry of its own, so the index has at
    least as many entries as there are unlabelled flows, and never more
    than there are flows. *)
Theorem transition_index_holds_flows_only flows :
  let nextStepMap := build_nextStepMap flows in
  (∀ key target,
     nextStepMap !! key = Some target →
     ∃ sequenceFlow,
       sequenceFlow ∈ flows
       ∧ BpmnSequenceFlow.TargetRef sequenceFlow = target
       ∧ if decide (BpmnSequenceFlow.Name sequenceFlow = "")
         then ∃ k, key = Sprintf_key_d (BpmnSequenceFlow.SourceRef sequenceFlow) k
         else key = Sprintf_key (BpmnSequenceFlow.SourceRef sequenceFlow)
                      (strings_ToUpper (BpmnSequenceFlow.Name sequenceFlow)))
  ∧ length (filter (λ f, BpmnSequenceFlow.Name f = "") flows) ≤ size nextStepMap
  ∧ size nextStepMap ≤ length flows.
Proof.
  cbv zeta. induction flows as [|f flows IH] using rev_ind.
  { unfold build_nextStepMap. simpl.
    split; [intros key target H; by rewrite lookup_empty in H|].
    rewrite map_size_empty. done. }
  destruct IH as (IHfrom & IHlow & IHhigh).
  rewrite build_nextStepMap_snoc, filter_app, !length_app. simpl.
  destruct (decide (BpmnSequenceFlow.Name f = "")) as [HName|HName].
  - destruct (record_flow_unlabelled (build_nextStepMap flows) f HName)
      as (k & -> & Hfree & _).
    split; [|rewrite map_size_insert, Hfree, filter_cons_True by done; simpl; lia].
    intros key target.
    destruct (decide (key = Sprintf_key_d (BpmnSequenceFlow.SourceRef f) k)) as [->|Hne].
    + rewrite lookup_insert_eq. intros [= <-]. exists f.
      split; [apply elem_of_app; right; left|]. split; [done|].
      rewrite decide_True by done. by exists k.
    + rewrite lookup_insert_ne by done. intros (f' & Hin & H)%IHfrom.
      exists f'. split; [apply elem_of_app; by left|done].
  - rewrite (record_flow_labelled _ _ HName).
    split.
    2:{ rewrite map_size_insert, filter_cons_False, filter_nil by done. simpl.
        destruct (build_nextStepMap flows !! _); unfold id; lia. }
    intros key target.
    destruct (decide (key = Sprintf_key (BpmnSequenceFlow.SourceRef f)
                              (strings_ToUpper (BpmnSequenceFlow.Name f)))) as [->|Hne].
    + rewrite lookup_insert_eq. intros [= <-]. exists f.
      split; [apply elem_of_app; right; left|]. split; [done|].
      by rewrite decide_False.
    + rewrite lookup_insert_ne by done. intros (f' & Hin & H)%IHfrom.
      exists f'. split; [apply elem_of_app; by left|done].
Qed.

Lemma unlabelled_from_snoc SourceRef flows f :
  unlabelled_from SourceRef (flows ++ [f])
  = (unlabelled_from SourceRef flows
     ++ if decide (BpmnSequenceFlow.SourceRef f = SourceRef
                   ∧ BpmnSequenceFlow.Name f = "")
        then [f] else [])%list.
Proof.
  unfold unlabelled_from. by rewrite filter_app.
Qed.

Lemma labelled_from_snoc SourceRef label flows f :
  labelled_from SourceRef label (flows ++ [f])
  = (labelled_from SourceRef label flows
     ++ if decide (BpmnSequenceFlow.SourceRef f = SourceRef
                   ∧ BpmnSequenceFlow.Name f ≠ ""
                   ∧ strings_ToUpper (BpmnSequenceFlow.Name f) = label)
        then [f] else [])%list.
Proof.
  unfold labelled_from. by rewrite filter_app.
Qed.

(** X8. When ids have no colon and no label upper-cases to a decimal
    numeral, the key [source:i] of the transition index holds the target of
    the [i]-th unlabelled flow leaving [source], counted from 0 in document
    order, and is absent when there are not that many. *)
Theorem unlabelled_flows_numbered_in_order flows SourceRef i :
  (∀ f, f ∈ flows → colon_free (BpmnSequenceFlow.SourceRef f) = true) →
  (∀ f (k : nat), f ∈ flows → BpmnSequenceFlow.Name f ≠ "" →
                  strings_ToUpper (BpmnSequenceFlow.Name f) ≠ pretty k) →
  colon_free SourceRef = true →
  build_nextStepMap flows !! Sprintf_key_d SourceRef i
  = BpmnSequenceFlow.TargetRef <$> unlabelled_from SourceRef flows !! i.
Proof.
  intros Hids Hlabels HSourceRef. revert SourceRef HSourceRef i.
  induction flows as [|f flows IH] using rev_ind; intros S HS i.
  { unfold build_nextStepMap. simpl. by rewrite lookup_empty. }
  assert (IH' : ∀ S, colon_free S = true → ∀ i,
            build_nextStepMap flows !! Sprintf_key_d S i
            = BpmnSequenceFlow.TargetRef <$> unlabelled_from S flows !! i).
  { apply IH.
    - intros f' Hf'. apply Hids, elem_of_app. by left.
    - intros f' k Hf'. apply Hlabels, elem_of_app. by left. }
  clear IH.
  assert (Hf : colon_free (BpmnSequenceFlow.SourceRef f) = true).
  { apply Hids, elem_of_app. right. left. }
  rewrite build_nextStepMap_snoc, unlabelled_from_snoc.
  destruct (decide (BpmnSequenceFlow.Name f = "")) as [HName|HName].
  - destruct (record_flow_unlabelled (build_nextStepMap flows) f HName)
      as (k & -> & Hfree & Hbelow).
    assert (Hk : k = length (unlabelled_from (BpmnSequenceFlow.SourceRef f) flows)).
    { rewrite IH' in Hfree by done.
      apply fmap_None, lookup_ge_None in Hfree.
      destruct (decide (k = length (unlabelled_from (BpmnSequenceFlow.SourceRef f) flows)))
        as [|Hne]; [done|].
      destruct (Hbelow (length (unlabelled_from (BpmnSequenceFlow.SourceRef f) flows)))
        as [target Htarget]; [lia|].
      rewrite IH' in Htarget by done.
      apply fmap_Some in Htarget as (f' & Hf' & _).
      apply lookup_lt_Some in Hf'. lia. }
    destruct (decide (BpmnSequenceFlow.SourceRef f = S)) as [<-|HS'].
    + rewrite decide_True by done.
      destruct (decide (i = k)) as [->|Hi].
      * rewrite lookup_insert_eq, Hk, list_lookup_middle by done. done.
      * rewrite lookup_insert_ne by (intros H%Sprintf_key_d_inj; done).
        rewrite IH' by done.
        destruct (decide (i < k)) as [Hlt|Hge].
        -- rewrite lookup_app_l by lia. done.
        -- rewrite (lookup_ge_None_2 (_ ++ _)) by (rewrite length_app; simpl; lia).
           rewrite lookup_ge_None_2 by lia. done.
    + rewrite decide_False by (intros [? _]; done).
      rewrite app_nil_r, lookup_insert_ne, IH' by
        (try done; unfold Sprintf_key_d; intros [? _]%Sprintf_key_inj; done).
      done.
  - rewrite (record_flow_labelled _ _ HName).
    rewrite decide_False by (intros [_ ?]; done).
    rewrite app_nil_r, lookup_insert_ne, IH'; [done|done|].
    unfold Sprintf_key_d. intros [_ H]%Sprintf_key_inj; [|done..].
    apply (Hlabels f i); [apply elem_of_app; right; left|done|done].
Qed.

(** X9. When ids have no colon, the key [source:LABEL] of the transition
    index, for a [LABEL] that is no decimal numeral, holds the target of the
    last flow leaving [source] whose label upper-cases to [LABEL], and is
    absent when there is no such flow. *)
Theorem labelled_lookup_is_last_flow flows SourceRef label :
  (∀ f, f ∈ flows → colon_free (BpmnSequenceFlow.SourceRef f) = true) →
  colon_free SourceRef = true →
  (∀ k : nat, label ≠ pretty k) →
  build_nextStepMap flows !! Sprintf_key SourceRef label
  = BpmnSequenceFlow.TargetRef <$> last (labelled_from SourceRef label flows).
Proof.
  intros Hids HS Hlabel.
  induction flows as [|f flows IH] using rev_ind.
  { unfold build_nextStepMap. simpl. by rewrite lookup_empty. }
  assert (IH' : build_nextStepMap flows !! Sprintf_key SourceRef label
                = BpmnSequenceFlow.TargetRef <$> last (labelled_from SourceRef label flows)).
  { apply IH. intros f' Hf'. apply Hids, elem_of_app. by left. }
  clear IH.
  assert (Hf : colon_free (BpmnSequenceFlow.SourceRef f) = true).
  { apply Hids, elem_of_app. right. left. }
  rewrite build_nextStepMap_snoc, labelled_from_snoc.
  destruct (decide (BpmnSequenceFlow.Name f = "")) as [HName|HName].
  - destruct (record_flow_unlabelled (build_nextStepMap flows) f HName)
      as (k & -> & _ & _).
    rewrite decide_False by (intros (_ & ? & _); done).
    rewrite app_nil_r, lookup_insert_ne; [done|].
    unfold Sprintf_key_d. intros [_ H]%Sprintf_key_inj; [|done..].
    by apply (Hlabel k).
  - rewrite (record_flow_labelled _ _ HName).
    destruct (decide (BpmnSequenceFlow.SourceRef f = SourceRef
                      ∧ BpmnSequenceFlow.Name f ≠ ""
                      ∧ strings_ToUpper (BpmnSequenceFlow.Name f) = label))
      as [(<- & _ & <-)|Hne].
    + rewrite lookup_insert_eq, last_snoc. done.
    + rewrite app_nil_r, lookup_insert_ne; [done|].
      intros [? ?]%Sprintf_key_inj; [|done..]. apply Hne. done.
Qed.

(** ** The step-id index as a whole *)

Lemma classify_tasks_domain kind tasks stepMap id :
  is_Some (classify_tasks kind tasks stepMap !! id)
  ↔ is_Some (stepMap !! id) ∨ id ∈ BpmnTask.Id <$> tasks.
Proof.
  unfold classify_tasks. revert stepMap.
  induction tasks as [|task tasks IH]; intros stepMap; simpl.
  - rewrite elem_of_nil. split; [by left|by intros [?|[]]].
  - rewrite IH, lookup_insert_is_Some', elem_of_cons.
    split; [intros [[<-|?]|?]|intros [?|[->|?]]]; auto.
Qed.

Lemma classify_EndEvent_domain kind events stepMap id :
  is_Some (classify_EndEvent kind events stepMap !! id)
  ↔ is_Some (stepMap !! id) ∨ id ∈ BpmnEndEvent.Id <$> events.
Proof.
  unfold classify_EndEvent. revert stepMap.
  induction events as [|ev events IH]; intros stepMap; simpl.
  - rewrite elem_of_nil. split; [by left|by intros [?|[]]].
  - rewrite IH, lookup_insert_is_Some', elem_of_cons.
    split; [intros [[<-|?]|?]|intros [?|[->|?]]]; auto.
Qed.

Lemma classify_fanout_domain kind gateways stepMap id :
  is_Some (classify_fanout kind gateways stepMap !! id)
  ↔ is_Some (stepMap !! id) ∨ id ∈ BpmnGateway.Id <$> gateways.
Proof.
  unfold classify_fanout. revert stepMap.
  induction gateways as [|gateway gateways IH]; intros stepMap; simpl.
  - rewrite elem_of_nil. split; [by left|by intros [?|[]]].
  - rewrite IH, lookup_insert_is_Some', elem_of_cons.
    split; [intros [[<-|?]|?]|intros [?|[->|?]]]; auto.
Qed.

(** An exclusive gateway with fewer than two outgoing transitions gets no
    entry. *)
Lemma classify_ExclusiveGateway_domain ifKind switchKind gateways stepMap id :
  is_Some (classify_ExclusiveGateway ifKind switchKind gateways stepMap !! id)
  ↔ is_Some (stepMap !! id)
    ∨ id ∈ BpmnGateway.Id
             <$> filter (λ gateway, 2 ≤ length (BpmnGateway.Outgoing gateway)) gateways.
Proof.
  unfold classify_ExclusiveGateway. revert stepMap.
  induction gateways as [|gateway gateways IH]; intros stepMap; simpl.
  - rewrite elem_of_nil. split; [by left|by intros [?|[]]].
  - rewrite IH. clear IH.
    destruct (decide (length (BpmnGateway.Outgoing gateway) = 2)) as [Htwo|Htwo].
    + rewrite filter_cons_True by lia.
      rewrite lookup_insert_is_Some', fmap_cons, elem_of_cons.
      split; [intros [[<-|?]|?]|intros [?|[->|?]]]; auto.
    + destruct (decide (2 < length (BpmnGateway.Outgoing gateway))) as [Hmany|Hfew].
      * rewrite filter_cons_True by lia.
        rewrite lookup_insert_is_Some', fmap_cons, elem_of_cons.
        split; [intros [[<-|?]|?]|intros [?|[->|?]]]; auto.
      * rewrite filter_cons_False by lia. done.
Qed.

(** Once a declared start exists every catch event gets an entry; without
    one the first catch event becomes the declared start and gets none. *)
Lemma classify_IntermediateCatchEvent_domain startKind actionKind tasks st id :
  is_Some ((classify_IntermediateCatchEvent startKind actionKind tasks st).2 !! id)
  ↔ is_Some (st.2 !! id)
    ∨ id ∈ BpmnTask.Id <$> (if decide (st.1 ≠ "") then tasks else tail tasks).
Proof.
  unfold classify_IntermediateCatchEvent. revert st.
  induction tasks as [|task tasks IH]; intros [startStepId stepMap]; simpl.
  - destruct (decide (startStepId ≠ "")); simpl; rewrite elem_of_nil;
      (split; [by left|by intros [?|[]]]).
  - rewrite IH. clear IH.
    destruct (decide (startStepId ≠ "")) as [Hset|Hunset]; simpl.
    + rewrite decide_True by done.
      rewrite lookup_insert_is_Some', elem_of_cons.
      split; [intros [[<-|?]|?]|intros [?|[->|?]]]; auto.
    + by rewrite decide_True by apply Sprintf_id_nonempty.
Qed.

Lemma build_stepMap_domain specVersion bpmnProcess id :
  is_Some ((build_stepMap specVersion bpmnProcess).2 !! id)
  ↔ id ∈ indexed_ids bpmnProcess.
Proof.
  unfold build_stepMap, indexed_ids, indexed_catch_events, plain_tasks.
  set (st0 := classify_StartEvent _ _).
  pose proof (classify_IntermediateCatchEvent_domain
                (kind_for specVersion CACAO_STEP_TYPE_START)
                (kind_for specVersion CACAO_STEP_TYPE_ACTION)
                (BpmnProcess.IntermediateCatchEvent bpmnProcess) st0 id) as H1.
  destruct (classify_IntermediateCatchEvent _ _ _ st0) as [startStepId stepMap].
  simpl in H1. simpl.
  rewrite !classify_fanout_domain, classify_ExclusiveGateway_domain,
    classify_EndEvent_domain, !classify_tasks_domain, classify_EndEvent_domain, H1.
  clear H1. rewrite !fmap_app, !elem_of_app.
  assert (H0 : is_Some (st0.2 !! id)
               ∨ id ∈ BpmnTask.Id
                        <$> (if decide (st0.1 ≠ "")
                             then BpmnProcess.IntermediateCatchEvent bpmnProcess
                             else tail (BpmnProcess.IntermediateCatchEvent bpmnProcess))
               ↔ id ∈ match BpmnProcess.StartEvent bpmnProcess with
                      | Some ev => [BpmnStartEvent.Id ev]
                      | None => []
                      end
                 ∨ id ∈ BpmnTask.Id
                          <$> match BpmnProcess.StartEvent bpmnProcess with
                              | Some _ => BpmnProcess.IntermediateCatchEvent bpmnProcess
                              | None => tail (BpmnProcess.IntermediateCatchEvent bpmnProcess)
                              end).
  { subst st0. destruct (BpmnProcess.StartEvent bpmnProcess) as [ev|]; simpl.
    - rewrite decide_True by apply Sprintf_id_nonempty.
      rewrite lookup_insert_is_Some', lookup_empty, elem_of_cons, elem_of_nil.
      split; [intros [[<-|[? [=]]]|?]|intros [[->|[]]|?]]; auto.
    - rewrite lookup_empty, elem_of_nil.
      split; [intros [[? [=]]|?]|intros [[]|?]]; auto. }
  rewrite H0. clear H0.
  clear strings_ToUpper strings_ToLower strings_Map_keep_ident. tauto.
Qed.

Lemma build_stepMap_values specVersion bpmnProcess id stepId :
  (build_stepMap specVersion bpmnProcess).2 !! id = Some stepId →
  ∃ kind, kind ∈ derived_kinds
          ∧ stepId = Sprintf_id (kind_for specVersion kind) (uuid_NewHash id).
Proof.
  intros HstepId. apply (promised_derived specVersion bpmnProcess).
  by apply (build_stepMap_entries specVersion bpmnProcess id stepId).
Qed.

(** X10. The step-id index has an entry for exactly these BPMN ids: the
    start event, the intermediate catch events (but not the first one when
    it is promoted to declared start for want of a start event), the end
    events, the tasks of every category, the exclusive gateways with at
    least two outgoing transitions, and the parallel and inclusive
    gateways.  The entry of an id is a step kind and the name-based
    identifier of that id, joined by two dashes. *)
Theorem stepMap_entries_are_the_nodes specVersion bpmnProcess id :
  let stepMap := (build_stepMap specVersion bpmnProcess).2 in
  (is_Some (stepMap !! id) ↔ id ∈ indexed_ids bpmnProcess)
  ∧ ∀ stepId,
      stepMap !! id = Some stepId →
      ∃ kind, kind ∈ derived_kinds
              ∧ stepId = Sprintf_id (kind_for specVersion kind) (uuid_NewHash id).
Proof.
  intros stepMap. split; [apply build_stepMap_domain|].
  intros stepId. apply build_stepMap_values.
Qed.

(** ** The result of a conversion *)

Lemma build_stepMap_declared_start specVersion bpmnProcess :
  (build_stepMap specVersion bpmnProcess).1 = declared_start specVersion bpmnProcess.
Proof.
  unfold build_stepMap, declared_start.
  pose proof (classify_IntermediateCatchEvent_start
                (kind_for specVersion CACAO_STEP_TYPE_START)
                (kind_for specVersion CACAO_STEP_TYPE_ACTION)
                (BpmnProcess.IntermediateCatchEvent bpmnProcess)
                (classify_StartEvent (kind_for specVersion CACAO_STEP_TYPE_START)
                   (BpmnProcess.StartEvent bpmnProcess))) as H.
  destruct (classify_IntermediateCatchEvent _ _ _ _) as [startStepId stepMap].
  simpl in *. rewrite H. clear H.
  destruct (BpmnProcess.StartEvent bpmnProcess) as [ev|]; simpl; [|done].
  by rewrite decide_True by apply Sprintf_id_nonempty.
Qed.

Lemma ConvertToCacao_one_process env bpmnDefinition specVersion bpmnProcess :
  BpmnDefinitions.Processes bpmnDefinition = [bpmnProcess] →
  playbook (ConvertToCacao env bpmnDefinition specVersion)
  = Some (Mem.cacaoPlaybook
            (convert_process env bpmnDefinition bpmnProcess specVersion)).
Proof. intros H. unfold ConvertToCacao. by rewrite H. Qed.

(** X11. The header of the playbook returned for a document with one
    process: type [playbook], the requested version, the id
    [playbook--] followed by the name-based identifier of the process id,
    the process name, one clock reading as creation and modification time,
    and as declared start the step id of the start event, or else the start
    id derived from the first intermediate catch event, or else the empty
    string.  Every other field outside the two tables has Go's zero
    value. *)
Theorem ConvertToCacao_header env bpmnDefinition specVersion bpmnProcess :
  BpmnDefinitions.Processes bpmnDefinition = [bpmnProcess] →
  ∃ cacaoPlaybook,
    playbook (ConvertToCacao env bpmnDefinition specVersion) = Some cacaoPlaybook
    ∧ envelope cacaoPlaybook = header env specVersion bpmnProcess.
Proof.
  intros Hone. eexists. split; [by apply ConvertToCacao_one_process|].
  pose proof (frame_convert_process env bpmnDefinition bpmnProcess specVersion) as H.
  apply (f_equal snd) in H. simpl in H. rewrite H.
  unfold new_playbook, header. by rewrite build_stepMap_declared_start.
Qed.

Lemma declare_variables_lookup (gateways : list BpmnGateway.t) vars name :
  foldl declare_variable vars gateways !! name
  = match last (filter (λ gateway, condition_name gateway = name) gateways) with
    | Some gateway => Some (gateway_variable gateway)
    | None => vars !! name
    end.
Proof.
  induction gateways as [|gateway gateways IH] using rev_ind; [done|].
  rewrite foldl_app, filter_app. simpl. unfold declare_variable at 1.
  destruct (decide (condition_name gateway = name)) as [<-|Hne].
  - rewrite lookup_insert_eq, filter_cons_True, filter_nil, last_snoc by done. done.
  - rewrite lookup_insert_ne, filter_cons_False, filter_nil, app_nil_r by done. done.
Qed.

Lemma PlaybookVariables_convert_process env bpmnDefinition bpmnProcess specVersion :
  PlaybookVariables_of (convert_process env bpmnDefinition bpmnProcess specVersion)
  = foldl declare_variable ∅ (conditional_gateways bpmnProcess).
Proof.
  unfold convert_process, conditional_gateways.
  destruct (build_stepMap specVersion bpmnProcess) as [startStepId stepMap].
  by rewrite PlaybookVariables_lower, foldl_app.
Qed.

(** X12. The variable table of the returned playbook holds one variable
    per condition name of the exclusive and inclusive gateways, whatever
    the number of their outgoing transitions, and nothing else: under a
    name stands the integer variable, initially 0, described by the name
    (or id) of the last such gateway with that condition name.  Parallel
    gateways and tasks declare nothing. *)
Theorem playbook_variables_of_gateways env bpmnDefinition specVersion bpmnProcess :
  BpmnDefinitions.Processes bpmnDefinition = [bpmnProcess] →
  ∃ cacaoPlaybook,
    playbook (ConvertToCacao env bpmnDefinition specVersion) = Some cacaoPlaybook
    ∧ ∀ name,
        CacaoPlaybook.PlaybookVariables cacaoPlaybook !! name
        = gateway_variable
            <$> last (filter (λ gateway, condition_name gateway = name)
                             (conditional_gateways bpmnProcess)).
Proof.
  intros Hone. eexists. split; [by apply ConvertToCacao_one_process|].
  intros name.
  change (CacaoPlaybook.PlaybookVariables (Mem.cacaoPlaybook ?m))
    with (PlaybookVariables_of m).
  rewrite PlaybookVariables_convert_process, declare_variables_lookup.
  destruct (last _); [done|apply lookup_empty].
Qed.

(** ** The random identifiers a conversion draws *)

Lemma ProcessTasks_uuids env commandType specVersion stepMap nextStepMap tasks m :
  Mem.uuids (ProcessTasks env commandType specVersion stepMap nextStepMap tasks m)
  = Mem.uuids m + unresolved_tasks stepMap nextStepMap tasks.
Proof.
  unfold ProcessTasks, unresolved_tasks. revert m.
  induction tasks as [|task tasks IH]; intros m; simpl; [lia|].
  rewrite IH, ProcessTask_uuids.
  destruct (decide (task_successor stepMap nextStepMap task = "")) as [H|H].
  - rewrite filter_cons_True by done. simpl. lia.
  - rewrite filter_cons_False by done. lia.
Qed.

Lemma ProcessGateways_uuids env specVersion parallel stepMap nextStepMap gateways m :
  Mem.uuids (ProcessGateways env specVersion parallel stepMap nextStepMap gateways m)
  = Mem.uuids m
    + if parallel then 0
      else sum_list_with (gateway_repairs stepMap nextStepMap) gateways.
Proof.
  unfold ProcessGateways. revert m.
  induction gateways as [|gateway gateways IH]; intros m;
    [destruct parallel; simpl; lia|].
  cbn [foldl]. rewrite IH, ProcessGateway_uuids.
  destruct parallel; [lia|]. cbn [sum_list_with]. lia.
Qed.

Lemma create_end_steps_uuids events stepMap m :
  Mem.uuids (create_end_steps events stepMap m) = Mem.uuids m.
Proof.
  unfold create_end_steps.
  apply (foldl_invariant (λ m', Mem.uuids m' = Mem.uuids m)); [done|].
  by intros m' ev _ <-.
Qed.

Lemma create_start_step_uuids StartEvent stepMap nextStepMap m :
  Mem.uuids (create_start_step StartEvent stepMap nextStepMap m) = Mem.uuids m.
Proof. by destruct StartEvent. Qed.

Lemma lower_uuids env specVersion bpmnProcess stepMap nextStepMap m :
  Mem.uuids (lower env specVersion bpmnProcess stepMap nextStepMap m)
  = Mem.uuids m
    + unresolved_tasks stepMap nextStepMap (all_tasks bpmnProcess)
    + sum_list_with (gateway_repairs stepMap nextStepMap)
        (conditional_gateways bpmnProcess).
Proof.
  unfold lower.
  rewrite !ProcessGateways_uuids, !ProcessTasks_uuids, create_end_steps_uuids,
    ProcessTasks_uuids, create_start_step_uuids.
  unfold conditional_gateways, all_tasks, unresolved_tasks.
  rewrite sum_list_with_app, !filter_app, !length_app. lia.
Qed.

(** X13. The number of random identifiers a conversion draws, which is
    the number of End steps it synthesizes: one for every task, of any
    category, whose successor does not resolve, and one for every
    unresolved YES or NO branch of an exclusive or inclusive gateway with
    two outgoing transitions.  Nothing else draws one: a start event, a
    parallel gateway or a switch whose transitions do not resolve is left
    with empty links. *)
Theorem synthesized_ends_count env bpmnDefinition bpmnProcess specVersion :
  let stepMap := (build_stepMap specVersion bpmnProcess).2 in
  let nextStepMap := build_nextStepMap (BpmnProcess.SequenceFlow bpmnProcess) in
  Mem.uuids (convert_process env bpmnDefinition bpmnProcess specVersion)
  = unresolved_tasks stepMap nextStepMap (all_tasks bpmnProcess)
    + sum_list_with (gateway_repairs stepMap nextStepMap)
        (conditional_gateways bpmnProcess).
Proof.
  intros stepMap nextStepMap. subst stepMap nextStepMap. unfold convert_process.
  destruct (build_stepMap specVersion bpmnProcess) as [startStepId stepMap].
  rewrite lower_uuids. simpl. lia.
Qed.

(** ** The workflow of the result, entry by entry *)

Lemma repaired_mono env specVersion draws draws' looked_up link :
  draws ≤ draws' →
  repaired env specVersion draws looked_up link →
  repaired env specVersion draws' looked_up link.
Proof.
  intros Hle [H|(Hempty & n & Hn & Hlink)]; [by left|].
  right. split; [done|]. exists n. split; [lia|done].
Qed.

Lemma repaired_nonempty env specVersion draws looked_up link :
  repaired env specVersion draws looked_up link → link ≠ "".
Proof.
  intros [[H ->]|(_ & n & _ & ->)]; [done|]. apply Sprintf_id_nonempty.
Qed.

Lemma written_for_mono env specVersion p stepMap nextStepMap WorkflowStart
    draws draws' key step :
  draws ≤ draws' →
  written_for env specVersion p stepMap nextStepMap WorkflowStart draws key step →
  written_for env specVersion p stepMap nextStepMap WorkflowStart draws' key step.
Proof.
  intros Hle
    [H|[H|[(task & commandType & link & Htask & Hlink & H)
          |[(gateway & onTrue & onFalse & Hgateway & Htwo & HonTrue & HonFalse & H)
           |[H|[H|(n & Hn & H)]]]]]].
  - by left.
  - right; by left.
  - do 2 right; left. exists task, commandType, link.
    split; [done|]. split; [by apply (repaired_mono _ _ draws)|done].
  - do 3 right; left. exists gateway, onTrue, onFalse.
    split; [done|]. split; [done|].
    split; [by apply (repaired_mono _ _ draws)|].
    split; [by apply (repaired_mono _ _ draws)|done].
  - do 4 right; by left.
  - do 5 right; by left.
  - do 6 right. exists n. split; [lia|done].
Qed.

Lemma written_for_all_mono env specVersion p stepMap nextStepMap WorkflowStart
    draws draws' (wf : gmap string Step.t) :
  draws ≤ draws' →
  map_Forall (written_for env specVersion p stepMap nextStepMap WorkflowStart draws) wf →
  map_Forall (written_for env specVersion p stepMap nextStepMap WorkflowStart draws') wf.
Proof.
  intros Hle Hwf key step Hkey. apply (written_for_mono _ _ _ _ _ _ draws); [done|].
  by apply Hwf.
Qed.

(** What the lowering keeps true after every call: the declared start is
    the one the playbook was allocated with, and the workflow holds only
    what [written_for] describes. *)
Lemma written_ProcessTask env p WorkflowStart task commandType specVersion
    stepMap nextStepMap m :
  lowered_as p task commandType →
  CacaoPlaybook.WorkflowStart (Mem.cacaoPlaybook m) = WorkflowStart →
  map_Forall (written_for env specVersion p stepMap nextStepMap WorkflowStart
                (Mem.uuids m)) (Workflow_of m) →
  let m' := ProcessTask env task commandType specVersion stepMap nextStepMap m in
  map_Forall (written_for env specVersion p stepMap nextStepMap WorkflowStart
                (Mem.uuids m')) (Workflow_of m').
Proof.
  intros Htask HWS Hwf m'. subst m'.
  rewrite ProcessTask_Workflow, ProcessTask_uuids. cbv zeta. rewrite HWS.
  destruct (decide (task_successor stepMap nextStepMap task = "")) as [Hs|Hs].
  - apply map_Forall_insert_2.
    { do 2 right; left.
      exists task, commandType, (fresh_end_id env specVersion (Mem.uuids m)).
      split; [done|]. split; [|done].
      right. split; [done|]. exists (Mem.uuids m). split; [lia|done]. }
    apply map_Forall_insert_2.
    { do 6 right. exists (Mem.uuids m). split; [lia|done]. }
    apply (written_for_all_mono _ _ _ _ _ _ (Mem.uuids m)); [lia|done].
  - apply map_Forall_insert_2; [|done].
    do 2 right; left.
    exists task, commandType, (task_successor stepMap nextStepMap task).
    split; [done|]. split; [by left|done].
Qed.

Lemma written_ProcessTasks env p WorkflowStart commandType specVersion
    stepMap nextStepMap tasks m :
  (∀ task, task ∈ tasks → lowered_as p task commandType) →
  CacaoPlaybook.WorkflowStart (Mem.cacaoPlaybook m) = WorkflowStart →
  map_Forall (written_for env specVersion p stepMap nextStepMap WorkflowStart
                (Mem.uuids m)) (Workflow_of m) →
  let m' := ProcessTasks env commandType specVersion stepMap nextStepMap tasks m in
  CacaoPlaybook.WorkflowStart (Mem.cacaoPlaybook m') = WorkflowStart
  ∧ map_Forall (written_for env specVersion p stepMap nextStepMap WorkflowStart
                  (Mem.uuids m')) (Workflow_of m').
Proof.
  intros Htasks HWS Hwf. cbv zeta. unfold ProcessTasks.
  apply (foldl_invariant
           (λ m', CacaoPlaybook.WorkflowStart (Mem.cacaoPlaybook m') = WorkflowStart
                  ∧ map_Forall
                      (written_for env specVersion p stepMap nextStepMap WorkflowStart
                         (Mem.uuids m')) (Workflow_of m')));
    [done|].
  intros m' task Htask [HWS' Hwf']. split.
  - rewrite <- HWS'. apply frame_WorkflowStart, frame_ProcessTask.
  - apply written_ProcessTask; auto.
Qed.

Lemma written_ProcessGateway env p WorkflowStart gateway specVersion
    (parallel : bool) stepMap nextStepMap m :
  (if parallel then gateway ∈ BpmnProcess.ParallelGateway p
   else gateway ∈ conditional_gateways p) →
  map_Forall (written_for env specVersion p stepMap nextStepMap WorkflowStart
                (Mem.uuids m)) (Workflow_of m) →
  let m' := ProcessGateway env gateway specVersion parallel stepMap nextStepMap m in
  map_Forall (written_for env specVersion p stepMap nextStepMap WorkflowStart
                (Mem.uuids m')) (Workflow_of m').
Proof.
  intros Hgateway Hwf m'. subst m'. rewrite ProcessGateway_uuids.
  destruct parallel.
  { rewrite ProcessGateway_parallel_Workflow, Nat.add_0_r.
    apply map_Forall_insert_2; [|done]. do 5 right; left. by exists gateway. }
  unfold gateway_repairs.
  destruct (decide (length (BpmnGateway.Outgoing gateway) = 2)) as [Htwo|Hnot].
  - rewrite ProcessGateway_binary_Workflow by done. cbv zeta.
    set (yes := gateway_branch stepMap nextStepMap gateway "YES").
    set (no := gateway_branch stepMap nextStepMap gateway "NO").
    set (n := Mem.uuids m) in *.
    assert (Hold : ∀ draws, n ≤ draws →
              map_Forall (written_for env specVersion p stepMap nextStepMap
                            WorkflowStart draws) (Workflow_of m)).
    { intros draws Hle. by apply (written_for_all_mono _ _ _ _ _ _ n). }
    assert (Hend : ∀ k draws, k < draws →
              written_for env specVersion p stepMap nextStepMap WorkflowStart draws
                (fresh_end_id env specVersion k) End_step).
    { intros k draws Hk. do 6 right. by exists k. }
    assert (Hif : ∀ draws onTrue onFalse,
              repaired env specVersion draws yes onTrue →
              repaired env specVersion draws no onFalse →
              written_for env specVersion p stepMap nextStepMap WorkflowStart draws
                (gateway_stepId specVersion CACAO_STEP_TYPE_IF_COND gateway)
                (if_step gateway onTrue onFalse)).
    { intros draws onTrue onFalse HonTrue HonFalse. do 3 right; left.
      by exists gateway, onTrue, onFalse. }
    destruct (decide (yes = "")) as [Hyes|Hyes],
             (decide (no = "")) as [Hno|Hno].
    + apply map_Forall_insert_2.
      { apply Hif; (right; split; [done|]);
          [exists n|exists (S n)]; (split; [lia|done]). }
      do 2 (apply map_Forall_insert_2; [apply Hend; lia|]). apply Hold. lia.
    + apply map_Forall_insert_2.
      { apply Hif; [right; split; [done|]; exists n; split; [lia|done]|by left]. }
      apply map_Forall_insert_2; [apply Hend; lia|]. apply Hold. lia.
    + apply map_Forall_insert_2.
      { apply Hif; [by left|right; split; [done|]; exists n; split; [lia|done]]. }
      apply map_Forall_insert_2; [apply Hend; lia|]. apply Hold. lia.
    + apply map_Forall_insert_2; [apply Hif; by left|]. apply Hold. lia.
  - rewrite Nat.add_0_r.
    destruct (decide (2 < length (BpmnGateway.Outgoing gateway))) as [Hmany|Hfew].
    + rewrite ProcessGateway_switch_Workflow by done.
      apply map_Forall_insert_2; [|done]. do 4 right; left.
      eexists gateway, _. split; [done|]. split; [done|].
      split; [apply switch_cases_targets|done].
    + by rewrite ProcessGateway_anomaly_Workflow by lia.
Qed.

Lemma written_ProcessGateways env p WorkflowStart specVersion (parallel : bool)
    stepMap nextStepMap (gateways : list BpmnGateway.t) m :
  (∀ gateway, gateway ∈ gateways →
     if parallel then gateway ∈ BpmnProcess.ParallelGateway p
     else gateway ∈ conditional_gateways p) →
  CacaoPlaybook.WorkflowStart (Mem.cacaoPlaybook m) = WorkflowStart →
  map_Forall (written_for env specVersion p stepMap nextStepMap WorkflowStart
                (Mem.uuids m)) (Workflow_of m) →
  let m' := ProcessGateways env specVersion parallel stepMap nextStepMap gateways m in
  CacaoPlaybook.WorkflowStart (Mem.cacaoPlaybook m') = WorkflowStart
  ∧ map_Forall (written_for env specVersion p stepMap nextStepMap WorkflowStart
                  (Mem.uuids m')) (Workflow_of m').
Proof.
  intros Hgateways HWS Hwf. cbv zeta. unfold ProcessGateways.
  apply (foldl_invariant
           (λ m', CacaoPlaybook.WorkflowStart (Mem.cacaoPlaybook m') = WorkflowStart
                  ∧ map_Forall
                      (written_for env specVersion p stepMap nextStepMap WorkflowStart
                         (Mem.uuids m')) (Workflow_of m')));
    [done|].
  intros m' gateway Hgateway [HWS' Hwf']. split.
  - rewrite <- HWS'. apply frame_WorkflowStart, frame_ProcessGateway.
  - apply written_ProcessGateway; [by apply Hgateways|done].
Qed.

Lemma written_create_start_step env p WorkflowStart specVersion stepMap nextStepMap m :
  CacaoPlaybook.WorkflowStart (Mem.cacaoPlaybook m) = WorkflowStart →
  map_Forall (written_for env specVersion p stepMap nextStepMap WorkflowStart
                (Mem.uuids m)) (Workflow_of m) →
  let m' := create_start_step (BpmnProcess.StartEvent p) stepMap nextStepMap m in
  CacaoPlaybook.WorkflowStart (Mem.cacaoPlaybook m') = WorkflowStart
  ∧ map_Forall (written_for env specVersion p stepMap nextStepMap WorkflowStart
                  (Mem.uuids m')) (Workflow_of m').
Proof.
  intros HWS Hwf. cbv zeta.
  destruct (BpmnProcess.StartEvent p) as [ev|] eqn:Hev; simpl; [|done].
  split; [done|]. rewrite Workflow_of_store_step.
  apply map_Forall_insert_2; [|done]. left. by exists ev.
Qed.

Lemma written_create_end_steps env p WorkflowStart specVersion stepMap nextStepMap m :
  CacaoPlaybook.WorkflowStart (Mem.cacaoPlaybook m) = WorkflowStart →
  map_Forall (written_for env specVersion p stepMap nextStepMap WorkflowStart
                (Mem.uuids m)) (Workflow_of m) →
  let m' := create_end_steps (BpmnProcess.EndEvent p) stepMap m in
  CacaoPlaybook.WorkflowStart (Mem.cacaoPlaybook m') = WorkflowStart
  ∧ map_Forall (written_for env specVersion p stepMap nextStepMap WorkflowStart
                  (Mem.uuids m')) (Workflow_of m').
Proof.
  intros HWS Hwf. cbv zeta. unfold create_end_steps.
  apply (foldl_invariant
           (λ m', CacaoPlaybook.WorkflowStart (Mem.cacaoPlaybook m') = WorkflowStart
                  ∧ map_Forall
                      (written_for env specVersion p stepMap nextStepMap WorkflowStart
                         (Mem.uuids m')) (Workflow_of m')));
    [done|].
  intros m' ev Hev [HWS' Hwf']. split; [done|]. rewrite Workflow_of_store_step.
  apply map_Forall_insert_2; [|done]. right; left. by exists ev.
Qed.

Lemma lowered_as_category p commandType tasks task :
  (commandType, tasks) ∈ categories p → task ∈ tasks → lowered_as p task commandType.
Proof. intros Hcategory Htask. by exists tasks. Qed.

Lemma lowered_as_all_tasks p task :
  task ∈ all_tasks p ↔ ∃ commandType, lowered_as p task commandType.
Proof.
  unfold lowered_as, categories, all_tasks. rewrite !elem_of_app. split.
  - intros [H|[H|[H|[H|[H|[H|[H|H]]]]]]]; eexists _, _; (split; [|exact H]);
      rewrite !elem_of_cons; auto 10.
  - intros (commandType & tasks & Hcategory & Htask).
    rewrite !elem_of_cons, elem_of_nil in Hcategory.
    destruct Hcategory as [[= _ ->]|[[= _ ->]|[[= _ ->]|[[= _ ->]|[[= _ ->]
      |[[= _ ->]|[[= _ ->]|[[= _ ->]|[]]]]]]]]]; auto 10.
Qed.

Lemma written_lower env specVersion p stepMap nextStepMap WorkflowStart m :
  CacaoPlaybook.WorkflowStart (Mem.cacaoPlaybook m) = WorkflowStart →
  map_Forall (written_for env specVersion p stepMap nextStepMap WorkflowStart
                (Mem.uuids m)) (Workflow_of m) →
  let m' := lower env specVersion p stepMap nextStepMap m in
  map_Forall (written_for env specVersion p stepMap nextStepMap WorkflowStart
                (Mem.uuids m')) (Workflow_of m').
Proof.
  intros HWS Hwf. cbv zeta. unfold lower.
  assert (Hcat : ∀ commandType tasks task,
            (commandType, tasks) ∈ categories p → task ∈ tasks →
            lowered_as p task commandType)
    by apply lowered_as_category.
  unfold categories in Hcat.
  destruct (written_create_start_step env p WorkflowStart specVersion
              stepMap nextStepMap m HWS Hwf) as [HWS0 Hwf0].
  set (m0 := create_start_step _ _ _ m) in *.
  destruct (written_ProcessTasks env p WorkflowStart CACAO_COMMAND_TYPE_MANUAL
              specVersion stepMap nextStepMap
              (BpmnProcess.IntermediateCatchEvent p) m0) as [HWS1 Hwf1];
    [intros task; apply Hcat; rewrite !elem_of_cons; auto 10|done|done|].
  set (m1 := ProcessTasks _ _ _ _ _ _ m0) in *.
  destruct (written_create_end_steps env p WorkflowStart specVersion
              stepMap nextStepMap m1 HWS1 Hwf1) as [HWS2 Hwf2].
  set (m2 := create_end_steps _ _ m1) in *.
  destruct (written_ProcessTasks env p WorkflowStart CACAO_COMMAND_TYPE_HTTP
              specVersion stepMap nextStepMap (BpmnProcess.ServiceTask p) m2)
    as [HWS3 Hwf3];
    [intros task; apply Hcat; rewrite !elem_of_cons; auto 10|done|done|].
  set (m3 := ProcessTasks _ _ _ _ _ _ m2) in *.
  destruct (written_ProcessTasks env p WorkflowStart CACAO_COMMAND_TYPE_MANUAL
              specVersion stepMap nextStepMap (BpmnProcess.UserTask p) m3)
    as [HWS4 Hwf4];
    [intros task; apply Hcat; rewrite !elem_of_cons; auto 10|done|done|].
  set (m4 := ProcessTasks _ _ _ _ _ _ m3) in *.
  destruct (written_ProcessTasks env p WorkflowStart CACAO_COMMAND_TYPE_MANUAL
              specVersion stepMap nextStepMap (BpmnProcess.ManualTask p) m4)
    as [HWS5 Hwf5];
    [intros task; apply Hcat; rewrite !elem_of_cons; auto 10|done|done|].
  set (m5 := ProcessTasks _ _ _ _ _ _ m4) in *.
  destruct (written_ProcessTasks env p WorkflowStart CACAO_COMMAND_TYPE_BASH
              specVersion stepMap nextStepMap (BpmnProcess.ScriptTask p) m5)
    as [HWS6 Hwf6];
    [intros task; apply Hcat; rewrite !elem_of_cons; auto 10|done|done|].
  set (m6 := ProcessTasks _ _ _ _ _ _ m5) in *.
  destruct (written_ProcessTasks env p WorkflowStart CACAO_COMMAND_TYPE_BASH
              specVersion stepMap nextStepMap (BpmnProcess.SendTask p) m6)
    as [HWS7 Hwf7];
    [intros task; apply Hcat; rewrite !elem_of_cons; auto 10|done|done|].
  set (m7 := ProcessTasks _ _ _ _ _ _ m6) in *.
  destruct (written_ProcessTasks env p WorkflowStart CACAO_COMMAND_TYPE_MANUAL
              specVersion stepMap nextStepMap (BpmnProcess.Task p) m7)
    as [HWS8 Hwf8];
    [intros task; apply Hcat; rewrite !elem_of_cons; auto 10|done|done|].
  set (m8 := ProcessTasks _ _ _ _ _ _ m7) in *.
  destruct (written_ProcessTasks env p WorkflowStart CACAO_COMMAND_TYPE_MANUAL
              specVersion stepMap nextStepMap (BpmnProcess.IntermediateThrowEvent p) m8)
    as [HWS9 Hwf9];
    [intros task; apply Hcat; rewrite !elem_of_cons; auto 10|done|done|].
  set (m9 := ProcessTasks _ _ _ _ _ _ m8) in *.
  destruct (written_ProcessGateways env p WorkflowStart specVersion false
              stepMap nextStepMap (BpmnProcess.ExclusiveGateway p) m9)
    as [HWS10 Hwf10];
    [intros gateway Hgateway; apply elem_of_app; by left|done|done|].
  set (m10 := ProcessGateways _ _ _ _ _ _ m9) in *.
  destruct (written_ProcessGateways env p WorkflowStart specVersion true
              stepMap nextStepMap (BpmnProcess.ParallelGateway p) m10)
    as [HWS11 Hwf11]; [by intros gateway Hgateway|done|done|].
  set (m11 := ProcessGateways _ _ _ _ _ _ m10) in *.
  destruct (written_ProcessGateways env p WorkflowStart specVersion false
              stepMap nextStepMap (BpmnProcess.InclusiveGateway p) m11)
    as [HWS12 Hwf12];
    [intros gateway Hgateway; apply elem_of_app; by right|done|done|].
  done.
Qed.

(** ** Nothing is dropped: the keys the lowering leaves in the workflow *)

Lemma fresh_stored_ProcessTask env task commandType specVersion stepMap nextStepMap m :
  fresh_stored env specVersion m →
  fresh_stored env specVersion
    (ProcessTask env task commandType specVersion stepMap nextStepMap m).
Proof.
  intros Hm n Hn. rewrite ProcessTask_uuids in Hn.
  destruct (decide (n < Mem.uuids m)) as [Hold|Hnew].
  { apply grows_ProcessTask, Hm, Hold. }
  unfold has_key. rewrite ProcessTask_Workflow. cbv zeta.
  destruct (decide (task_successor stepMap nextStepMap task = "")); [|lia].
  assert (n = Mem.uuids m) as -> by lia.
  apply lookup_insert_is_Some'. right. apply lookup_insert_is_Some'. by left.
Qed.

Lemma fresh_stored_ProcessGateway env gateway specVersion parallel
    stepMap nextStepMap m :
  fresh_stored env specVersion m →
  fresh_stored env specVersion
    (ProcessGateway env gateway specVersion parallel stepMap nextStepMap m).
Proof.
  intros Hm n Hn. rewrite ProcessGateway_uuids in Hn.
  destruct (decide (n < Mem.uuids m)) as [Hold|Hnew].
  { apply grows_ProcessGateway, Hm, Hold. }
  destruct parallel; [lia|]. unfold gateway_repairs in Hn.
  destruct (decide (length (BpmnGateway.Outgoing gateway) = 2)) as [Htwo|]; [|lia].
  unfold has_key. rewrite ProcessGateway_binary_Workflow by done. cbv zeta.
  apply lookup_insert_is_Some'. right.
  destruct (decide (gateway_branch stepMap nextStepMap gateway "YES" = "")),
           (decide (gateway_branch stepMap nextStepMap gateway "NO" = "")).
  - destruct (decide (n = Mem.uuids m)) as [->|].
    + apply lookup_insert_is_Some'. right. apply lookup_insert_is_Some'. by left.
    + assert (n = S (Mem.uuids m)) as -> by lia.
      apply lookup_insert_is_Some'. by left.
  - assert (n = Mem.uuids m) as -> by lia. apply lookup_insert_is_Some'. by left.
  - assert (n = Mem.uuids m) as -> by lia. apply lookup_insert_is_Some'. by left.
  - lia.
Qed.

Lemma fresh_stored_ProcessTasks env commandType specVersion stepMap nextStepMap tasks m :
  fresh_stored env specVersion m →
  fresh_stored env specVersion
    (ProcessTasks env commandType specVersion stepMap nextStepMap tasks m).
Proof.
  intros H. apply (foldl_invariant (fresh_stored env specVersion)); [done|].
  intros m' task _. apply fresh_stored_ProcessTask.
Qed.

Lemma fresh_stored_ProcessGateways env specVersion parallel stepMap nextStepMap
    gateways m :
  fresh_stored env specVersion m →
  fresh_stored env specVersion
    (ProcessGateways env specVersion parallel stepMap nextStepMap gateways m).
Proof.
  intros H. apply (foldl_invariant (fresh_stored env specVersion)); [done|].
  intros m' gateway _. apply fresh_stored_ProcessGateway.
Qed.

Lemma fresh_stored_create_start_step env specVersion StartEvent stepMap nextStepMap m :
  fresh_stored env specVersion m →
  fresh_stored env specVersion (create_start_step StartEvent stepMap nextStepMap m).
Proof.
  intros Hm n Hn. rewrite create_start_step_uuids in Hn.
  apply grows_create_start_step, Hm, Hn.
Qed.

Lemma fresh_stored_create_end_steps env specVersion events stepMap m :
  fresh_stored env specVersion m →
  fresh_stored env specVersion (create_end_steps events stepMap m).
Proof.
  intros Hm n Hn. rewrite create_end_steps_uuids in Hn.
  apply grows_create_end_steps, Hm, Hn.
Qed.

Lemma fresh_stored_lower env specVersion bpmnProcess stepMap nextStepMap m :
  fresh_stored env specVersion m →
  fresh_stored env specVersion (lower env specVersion bpmnProcess stepMap nextStepMap m).
Proof.
  intros H. unfold lower.
  do 3 apply fresh_stored_ProcessGateways.
  do 7 apply fresh_stored_ProcessTasks.
  apply fresh_stored_create_end_steps, fresh_stored_ProcessTasks.
  by apply fresh_stored_create_start_step.
Qed.

(** Every key [written_for] describes is in the workflow once the lowering
    is over. *)
Lemma lower_stores_written env specVersion p stepMap nextStepMap WorkflowStart m
    key step :
  fresh_stored env specVersion m →
  written_for env specVersion p stepMap nextStepMap WorkflowStart
    (Mem.uuids (lower env specVersion p stepMap nextStepMap m)) key step →
  has_key (lower env specVersion p stepMap nextStepMap m) key.
Proof.
  intros Hfresh
    [(ev & Hev & -> & _)
    |[(ev & Hev & -> & _)
     |[(task & commandType & link & Htask & _ & -> & _)
      |[(gateway & onTrue & onFalse & Hgateway & Htwo & _ & _ & -> & _)
       |[(gateway & Cases & Hgateway & Hmany & _ & -> & _)
        |[(gateway & Hgateway & -> & _)
         |(n & Hn & -> & _)]]]]]].
  - unfold lower. do 3 apply grows_ProcessGateways. do 7 apply grows_ProcessTasks.
    apply grows_create_end_steps, grows_ProcessTasks.
    rewrite Hev. apply writes_create_start_step.
  - unfold lower. do 3 apply grows_ProcessGateways. do 7 apply grows_ProcessTasks.
    by apply writes_create_end_steps.
  - assert (Hall : task ∈ all_tasks p)
      by (apply lowered_as_all_tasks; by exists commandType).
    unfold lower. do 3 apply grows_ProcessGateways.
    unfold all_tasks in Hall. rewrite !elem_of_app in Hall.
    destruct Hall as [H|[H|[H|[H|[H|[H|[H|H]]]]]]].
    + do 7 apply grows_ProcessTasks. apply grows_create_end_steps.
      by apply writes_ProcessTasks.
    + do 6 apply grows_ProcessTasks. by apply writes_ProcessTasks.
    + do 5 apply grows_ProcessTasks. by apply writes_ProcessTasks.
    + do 4 apply grows_ProcessTasks. by apply writes_ProcessTasks.
    + do 3 apply grows_ProcessTasks. by apply writes_ProcessTasks.
    + do 2 apply grows_ProcessTasks. by apply writes_ProcessTasks.
    + do 1 apply grows_ProcessTasks. by apply writes_ProcessTasks.
    + by apply writes_ProcessTasks.
  - unfold lower. apply elem_of_app in Hgateway as [H|H].
    + do 2 apply grows_ProcessGateways. by apply writes_ProcessGateways_if.
    + by apply writes_ProcessGateways_if.
  - unfold lower. apply elem_of_app in Hgateway as [H|H].
    + do 2 apply grows_ProcessGateways. by apply writes_ProcessGateways_switch.
    + by apply writes_ProcessGateways_switch.
  - unfold lower. apply grows_ProcessGateways.
    by apply writes_ProcessGateways_parallel.
  - by apply fresh_stored_lower.
Qed.

Lemma convert_process_written env bpmnDefinition bpmnProcess specVersion :
  map_Forall
    (written_for env specVersion bpmnProcess (build_stepMap specVersion bpmnProcess).2
       (build_nextStepMap (BpmnProcess.SequenceFlow bpmnProcess))
       (build_stepMap specVersion bpmnProcess).1
       (Mem.uuids (convert_process env bpmnDefinition bpmnProcess specVersion)))
    (Workflow_of (convert_process env bpmnDefinition bpmnProcess specVersion)).
Proof.
  unfold convert_process.
  destruct (build_stepMap specVersion bpmnProcess) as [startStepId stepMap]. simpl.
  apply written_lower; [done|]. apply map_Forall_empty.
Qed.

(** X14. The workflow of the returned playbook, entry by entry.  Every
    entry is one of: the start step under the start event's step id; an End
    step under an end event's step id; for a task, a step with one command
    of its category's type (http-api for service tasks, bash for script and
    send tasks, manual otherwise), linked to its resolved successor or to a
    synthesized End; for an exclusive or inclusive gateway, an if-condition
    step when it has two outgoing transitions, with each branch resolved or
    repaired, and a switch-condition step when it has more; for a parallel
    gateway, a parallel step; or an End step synthesized with one of the
    random identifiers drawn.  Conversely each of these keys is in the
    workflow: no node is dropped, except the gateways lowered conditionally
    with fewer than two outgoing transitions.  An End step has type [end]
    and name End. *)
Theorem workflow_is_the_lowered_nodes env bpmnDefinition specVersion bpmnProcess :
  BpmnDefinitions.Processes bpmnDefinition = [bpmnProcess] →
  let stepMap := (build_stepMap specVersion bpmnProcess).2 in
  let nextStepMap := build_nextStepMap (BpmnProcess.SequenceFlow bpmnProcess) in
  let draws := Mem.uuids (convert_process env bpmnDefinition bpmnProcess specVersion) in
  let written :=
    written_for env specVersion bpmnProcess stepMap nextStepMap
      (declared_start specVersion bpmnProcess) draws in
  ∃ cacaoPlaybook,
    playbook (ConvertToCacao env bpmnDefinition specVersion) = Some cacaoPlaybook
    ∧ (∀ key step,
         CacaoPlaybook.Workflow cacaoPlaybook !! key = Some step → written key step)
    ∧ (∀ key step,
         written key step → is_Some (CacaoPlaybook.Workflow cacaoPlaybook !! key))
    ∧ Step.Type_ End_step = CACAO_STEP_TYPE_END
    ∧ Step.Name End_step = "End".
Proof.
  intros Hone stepMap nextStepMap draws written.
  eexists. split; [by apply ConvertToCacao_one_process|].
  subst written draws stepMap nextStepMap.
  rewrite <- build_stepMap_declared_start.
  change (CacaoPlaybook.Workflow (Mem.cacaoPlaybook ?m)) with (Workflow_of m).
  unfold convert_process.
  destruct (build_stepMap specVersion bpmnProcess) as [startStepId stepMap]. simpl.
  split; [|split; [|split; reflexivity]].
  - apply written_lower; [done|]. apply map_Forall_empty.
  - intros key step Hwritten.
    apply (lower_stores_written _ _ _ _ _ startStepId _ key step); [|done].
    intros n Hn. simpl in Hn. lia.
Qed.

(** X15. Every variable a step of the returned playbook takes as input
    is declared in the playbook's variable table. *)
Theorem in_args_are_declared env bpmnDefinition specVersion bpmnProcess :
  BpmnDefinitions.Processes bpmnDefinition = [bpmnProcess] →
  ∃ cacaoPlaybook,
    playbook (ConvertToCacao env bpmnDefinition specVersion) = Some cacaoPlaybook
    ∧ ∀ key step name,
        CacaoPlaybook.Workflow cacaoPlaybook !! key = Some step →
        name ∈ Step.InArgs step →
        is_Some (CacaoPlaybook.PlaybookVariables cacaoPlaybook !! name).
Proof.
  intros Hone. eexists. split; [by apply ConvertToCacao_one_process|].
  intros key step name Hstep Hname.
  change (CacaoPlaybook.PlaybookVariables (Mem.cacaoPlaybook ?m))
    with (PlaybookVariables_of m).
  rewrite PlaybookVariables_convert_process, declare_variables_lookup.
  assert (Hdeclared : ∀ gateway, gateway ∈ conditional_gateways bpmnProcess →
            name = condition_name gateway →
            is_Some
              match last (filter (λ gateway, condition_name gateway = name)
                                 (conditional_gateways bpmnProcess)) with
              | Some gateway => Some (gateway_variable gateway)
              | None => (∅ : gmap string PlaybookVariable.t) !! name
              end).
  { intros gateway Hgateway ->.
    destruct (last _) as [gateway'|] eqn:Hlast; [by eexists|].
    apply last_None in Hlast.
    assert (Hin : gateway ∈ filter (λ gateway', condition_name gateway'
                                              = condition_name gateway)
                              (conditional_gateways bpmnProcess))
      by (by apply list_elem_of_filter).
    rewrite Hlast in Hin. by apply elem_of_nil in Hin. }
  assert (Hwritten :
    written_for env specVersion bpmnProcess (build_stepMap specVersion bpmnProcess).2
      (build_nextStepMap (BpmnProcess.SequenceFlow bpmnProcess))
      (build_stepMap specVersion bpmnProcess).1
      (Mem.uuids (convert_process env bpmnDefinition bpmnProcess specVersion))
      key step).
  { by apply (convert_process_written env bpmnDefinition bpmnProcess specVersion). }
  destruct Hwritten
    as [(ev & _ & _ & ->)
       |[(ev & _ & _ & ->)
        |[(task & commandType & link & _ & _ & _ & ->)
         |[(gateway & onTrue & onFalse & Hgateway & _ & _ & _ & _ & ->)
          |[(gateway & Cases & Hgateway & _ & _ & _ & ->)
           |[(gateway & _ & _ & ->)
            |(n & _ & _ & ->)]]]]]]; simpl in Hname;
    try (by apply elem_of_nil in Hname);
    apply list_elem_of_singleton in Hname; by apply (Hdeclared gateway).
Qed.

(** X16. Every key of the workflow of the returned playbook is a step id:
    a step kind (always [step] under version 1.1) and an identifier, joined
    by two dashes.  In particular no step is stored under the empty
    key, whatever the lookups of the lowering found. *)
Theorem workflow_keys_are_step_ids env bpmnDefinition specVersion bpmnProcess :
  BpmnDefinitions.Processes bpmnDefinition = [bpmnProcess] →
  ∃ cacaoPlaybook,
    playbook (ConvertToCacao env bpmnDefinition specVersion) = Some cacaoPlaybook
    ∧ ∀ key,
        is_Some (CacaoPlaybook.Workflow cacaoPlaybook !! key) →
        key ≠ ""
        ∧ ∃ kind identifier,
            kind ∈ derived_kinds
            ∧ key = Sprintf_id (kind_for specVersion kind) identifier.
Proof.
  intros Hone. eexists. split; [by apply ConvertToCacao_one_process|].
  intros key [step Hstep].
  enough (∃ kind identifier,
            kind ∈ derived_kinds
            ∧ key = Sprintf_id (kind_for specVersion kind) identifier)
    as (kind & identifier & Hkind & ->).
  { split; [apply Sprintf_id_nonempty|by exists kind, identifier]. }
  assert (Hindexed : ∀ id, is_Some ((build_stepMap specVersion bpmnProcess).2 !! id) →
            ∃ kind identifier,
              kind ∈ derived_kinds
              ∧ getStr (build_stepMap specVersion bpmnProcess).2 id
                = Sprintf_id (kind_for specVersion kind) identifier).
  { intros id [stepId HstepId]. unfold getStr. rewrite HstepId. simpl.
    destruct (build_stepMap_values _ _ _ _ HstepId) as (kind & Hkind & ->).
    by exists kind, (uuid_NewHash id). }
  destruct (convert_process_written env bpmnDefinition bpmnProcess specVersion
              key step Hstep)
    as [(ev & Hev & -> & _)
       |[(ev & Hev & -> & _)
        |[(task & commandType & link & _ & _ & -> & _)
         |[(gateway & onTrue & onFalse & _ & _ & _ & _ & -> & _)
          |[(gateway & Cases & _ & _ & _ & -> & _)
           |[(gateway & _ & -> & _)
            |(n & _ & -> & _)]]]]]].
  - by apply Hindexed, build_stepMap_has_StartEvent.
  - apply Hindexed, build_stepMap_domain. unfold indexed_ids.
    rewrite !elem_of_app. right; right; left.
    apply list_elem_of_fmap. by exists ev.
  - eexists _, _. split; [|reflexivity]. derived_kind.
  - eexists _, _. split; [|reflexivity]. derived_kind.
  - eexists _, _. split; [|reflexivity]. derived_kind.
  - eexists _, _. split; [|reflexivity]. derived_kind.
  - eexists _, _. split; [|reflexivity]. derived_kind.
Qed.

End Lowering.

(** * The theorems on concrete processes *)

Section Examples.

Import Example.

(** C1 on the approval process under 2.0: the start event is the start
    node, and the declared start [start--v5-Start] holds a start step. *)
Lemma declared_start_is_stored_witness :
  ∃ p,
    BpmnDefinitions.Processes (definitions [approval]) = [approval]
    ∧ start_node CACAO_SPEC_VERSION_20 approval = Some "Start"
    ∧ (∀ n, uuid_New env n ≠ NewHash "Start")
    ∧ (∀ id', id' ∈ end_and_gateway_ids approval → NewHash id' ≠ NewHash "Start")
    ∧ (is_Some (BpmnProcess.StartEvent approval) →
       ∀ id', id' ∈ task_ids approval → id' ≠ "Start")
    ∧ playbook (ConvertToCacao NewHash ToUpper ToLower Map_keep_ident env
                  (definitions [approval]) CACAO_SPEC_VERSION_20) = Some p
    ∧ ∃ step,
        CacaoPlaybook.Workflow p !! CacaoPlaybook.WorkflowStart p = Some step
        ∧ Step.Type_ step = CACAO_STEP_TYPE_START
        ∧ occurrences (CacaoPlaybook.Workflow p) (CacaoPlaybook.WorkflowStart p) = 1.
Proof.
  assert (H3 : ∀ n, uuid_New env n ≠ NewHash "Start") by (intros n; discriminate).
  assert (H4 : ∀ id', id' ∈ end_and_gateway_ids approval →
                      NewHash id' ≠ NewHash "Start").
  { apply Forall_forall. repeat constructor. discriminate. }
  assert (H5 : is_Some (BpmnProcess.StartEvent approval) →
               ∀ id', id' ∈ task_ids approval → id' ≠ "Start").
  { intros _. apply Forall_forall. repeat constructor; discriminate. }
  eexists.
  split; [reflexivity|]. split; [reflexivity|].
  split; [exact H3|]. split; [exact H4|]. split; [exact H5|].
  split; [reflexivity|].
  exact (declared_start_is_stored NewHash ToUpper ToLower Map_keep_ident env
           (definitions [approval]) CACAO_SPEC_VERSION_20 approval "Start" _
           eq_refl eq_refl H3 H4 H5 eq_refl).
Defined.

(** C1 fails without a start node: the empty process is accepted, its
    declared start is the empty string, and the workflow has no key. *)
Lemma declared_start_missing_in_empty_process :
  ∃ p,
    playbook (ConvertToCacao NewHash ToUpper ToLower Map_keep_ident env
                (definitions [empty_process]) CACAO_SPEC_VERSION_11) = Some p
    ∧ CacaoPlaybook.WorkflowStart p = ""
    ∧ ¬ ∃ step,
          CacaoPlaybook.Workflow p !! CacaoPlaybook.WorkflowStart p = Some step
          ∧ Step.Type_ step = CACAO_STEP_TYPE_START.
Proof.
  eexists. split; [reflexivity|]. split; [reflexivity|].
  intros (step & Hstep & _). vm_compute in Hstep. discriminate.
Qed.

(** Under 2.0 the promoted catch event is stored under [action--...] while
    the declared start is [start--...]: the declared start is no key. *)
Lemma promoted_start_missing_under_20 :
  ∃ p,
    playbook (ConvertToCacao NewHash ToUpper ToLower Map_keep_ident env
                (definitions [event_driven]) CACAO_SPEC_VERSION_20) = Some p
    ∧ CacaoPlaybook.WorkflowStart p = "start--v5-Catch_1"
    ∧ CacaoPlaybook.Workflow p !! "start--v5-Catch_1" = None
    ∧ Step.Type_ <$> CacaoPlaybook.Workflow p !! "action--v5-Catch_1"
      = Some CACAO_STEP_TYPE_ACTION.
Proof.
  eexists. split; [reflexivity|]. split; [vm_compute; reflexivity|].
  split; vm_compute; reflexivity.
Qed.

(** Under 1.1 the same process has its declared start in the workflow. *)
Lemma promoted_start_stored_under_11 :
  ∃ p,
    playbook (ConvertToCacao NewHash ToUpper ToLower Map_keep_ident env
                (definitions [event_driven]) CACAO_SPEC_VERSION_11) = Some p
    ∧ CacaoPlaybook.WorkflowStart p = "step--v5-Catch_1"
    ∧ Step.Type_ <$> CacaoPlaybook.Workflow p !! "step--v5-Catch_1"
      = Some CACAO_STEP_TYPE_START.
Proof.
  eexists. split; [reflexivity|]. split; vm_compute; reflexivity.
Qed.

(** An end event with the id of the start event takes its place under
    1.1: the step under the declared start has type [end]. *)
Lemma start_replaced_by_end_event_of_same_id :
  ∃ p,
    playbook (ConvertToCacao NewHash ToUpper ToLower Map_keep_ident env
                (definitions [shared_id]) CACAO_SPEC_VERSION_11) = Some p
    ∧ CacaoPlaybook.WorkflowStart p = "step--v5-Event_1"
    ∧ Step.Type_ <$> CacaoPlaybook.Workflow p !! "step--v5-Event_1"
      = Some CACAO_STEP_TYPE_END.
Proof.
  eexists. split; [reflexivity|]. split; vm_compute; reflexivity.
Qed.


(** C3 on the approval process. *)
Lemma workflow_closed_witness :
  ∃ p,
    BpmnDefinitions.Processes (definitions [approval]) = [approval]
    ∧ BpmnProcess.InclusiveGateway approval = []
    ∧ playbook (ConvertToCacao NewHash ToUpper ToLower Map_keep_ident env
                  (definitions [approval]) CACAO_SPEC_VERSION_20) = Some p
    ∧ closed (CacaoPlaybook.Workflow p).
Proof.
  eexists. split; [reflexivity|]. split; [reflexivity|]. split; [reflexivity|].
  exact (workflow_closed_without_inclusive_gateways
           NewHash ToUpper ToLower Map_keep_ident env
           (definitions [approval]) CACAO_SPEC_VERSION_20 approval _
           eq_refl eq_refl eq_refl).
Defined.

(** C3 fails on a parallel gateway whose transition does not resolve: its
    next_steps holds the empty string, which is no key of the workflow. *)
Lemma fan_out_names_missing_step :
  ∃ p step r,
    playbook (ConvertToCacao NewHash ToUpper ToLower Map_keep_ident env
                (definitions [dangling_fork]) CACAO_SPEC_VERSION_20) = Some p
    ∧ CacaoPlaybook.Workflow p !! "parallel--v5-Fork" = Some step
    ∧ r ∈ Step.NextSteps step
    ∧ CacaoPlaybook.Workflow p !! r = None.
Proof.
  eexists _, _, "". split; [reflexivity|].
  split; [vm_compute; reflexivity|]. split; [simpl; left|].
  vm_compute. reflexivity.
Qed.

(** An inclusive gateway is indexed as [parallel--...] and lowered as an
    if-condition: the task before it names a step that is no key. *)
Lemma inclusive_gateway_reference_dangles :
  ∃ p,
    playbook (ConvertToCacao NewHash ToUpper ToLower Map_keep_ident env
                (definitions [inclusive_choice]) CACAO_SPEC_VERSION_20) = Some p
    ∧ Step.OnCompletion <$> CacaoPlaybook.Workflow p !! "action--v5-Ask"
      = Some "parallel--v5-Either"
    ∧ CacaoPlaybook.Workflow p !! "parallel--v5-Either" = None
    ∧ Step.Type_ <$> CacaoPlaybook.Workflow p !! "if-condition--v5-Either"
      = Some CACAO_STEP_TYPE_IF_COND.
Proof.
  eexists. split; [reflexivity|]. repeat split; vm_compute; reflexivity.
Qed.

(** C4 on the gateway of the approval process, lowered on its own with
    empty indices: neither branch resolves, and each gets its own End
    step. *)
Lemma ProcessGateway_binary_if_condition_witness :
  let gate := gateway "Gate" "Approved?" ["Flow_3"; "Flow_4"] in
  let m :=
    Mem.mk (definitions [approval])
      (new_playbook NewHash env CACAO_SPEC_VERSION_11 approval "step--v5-Start") 0 0 in
  let m' :=
    ProcessGateway NewHash ToLower Map_keep_ident env gate CACAO_SPEC_VERSION_11 false
      ∅ ∅ m in
  length (BpmnGateway.Outgoing gate) = 2
  ∧ (∀ n, uuid_New env n ≠ NewHash (BpmnGateway.Id gate))
  ∧ ∃ onTrue onFalse,
      Workflow_of m' !! "step--v5-Gate"
      = Some (if_step ToLower Map_keep_ident gate onTrue onFalse)
      ∧ onTrue = "step--v4-0" ∧ onFalse = "step--v4-1"
      ∧ Workflow_of m' !! onTrue = Some End_step
      ∧ Workflow_of m' !! onFalse = Some End_step
      ∧ Step.Type_ End_step = CACAO_STEP_TYPE_END
      ∧ Step.Name End_step = "End".
Proof.
  intros gate m m'.
  assert (H2 : ∀ n, uuid_New env n ≠ NewHash (BpmnGateway.Id gate))
    by (intros n; discriminate).
  split; [reflexivity|]. split; [exact H2|].
  destruct (ProcessGateway_binary_if_condition
              NewHash ToLower Map_keep_ident env gate CACAO_SPEC_VERSION_11
              ∅ ∅ m eq_refl H2)
    as (onTrue & onFalse & Hstep & _ & HEndType & HEndName & _ & _ & _ & _
        & Hyes & Hno & _).
  assert (Hunresolved : ∀ label, gateway_branch ∅ ∅ gate label = "")
    by (intros label; reflexivity).
  destruct (Hyes (Hunresolved "YES")) as [HonTrue HEndTrue].
  destruct (Hno (Hunresolved "NO")) as [HonFalse HEndFalse].
  exists onTrue, onFalse. split; [exact Hstep|].
  split; [exact HonTrue|]. split; [exact HonFalse|].
  split; [exact HEndTrue|]. split; [exact HEndFalse|].
  split; [exact HEndType|exact HEndName].
Defined.


(** C6 fails on two transitions of one node whose labels are the same once
    upper-cased: the second insertion finds the key of the first in the
    index and replaces its target, and the index ends with one entry. *)
Lemma same_label_overwrites :
  build_nextStepMap ToUpper (take 1 same_label_twice) !! "Gate:YES" = Some "A"
  ∧ nextStepMapKey ToUpper (build_nextStepMap ToUpper (take 1 same_label_twice))
                   (flow "Gate" "B" "yes") = "Gate:YES"
  ∧ build_nextStepMap ToUpper same_label_twice !! "Gate:YES" = Some "B"
  ∧ size (build_nextStepMap ToUpper same_label_twice) = 1.
Proof. vm_compute. repeat split. Qed.

(** The same happens when a flow labelled 0 follows an unlabelled flow of
    the same node, which was given the number 0. *)
Lemma labelled_flow_overwrites_positional :
  build_nextStepMap ToUpper (take 1 unlabelled_then_0) !! "Gate:0" = Some "A"
  ∧ nextStepMapKey ToUpper (build_nextStepMap ToUpper (take 1 unlabelled_then_0))
                   (flow "Gate" "B" "0") = "Gate:0"
  ∧ build_nextStepMap ToUpper unlabelled_then_0 !! "Gate:0" = Some "B"
  ∧ size (build_nextStepMap ToUpper unlabelled_then_0) = 1.
Proof. vm_compute. repeat split. Qed.

(** In the other order the probing keeps both: the unlabelled flow moves on
    to the number 1. *)
Lemma positional_flow_avoids_label :
  map_to_list (build_nextStepMap ToUpper [flow "Gate" "B" "0"; flow "Gate" "A" ""])
  ≡ₚ [("Gate:0", "B"); ("Gate:1", "A")].
Proof. vm_compute. by rewrite Permutation_swap. Qed.

(** C5 at a process where a task's id starts with the gateway's id: the
    switch step of gateway Gate has a case named after the transition of
    task Gate2, four cases in all, while three transitions leave Gate. *)
Theorem switch_cases_include_foreign_transition :
  ∃ p step,
    playbook (ConvertToCacao NewHash ToUpper ToLower Map_keep_ident env
                (definitions [prefixed_ids]) CACAO_SPEC_VERSION_20) = Some p
    ∧ CacaoPlaybook.Workflow p !! "switch-condition--v5-Gate" = Some step
    ∧ Step.Type_ step = CACAO_STEP_TYPE_SWITCH_COND
    ∧ Step.Cases step !! "Gate2:0" = Some ["action--v5-A"]
    ∧ size (Step.Cases step) = 4
    ∧ length (filter (λ sequenceFlow, BpmnSequenceFlow.SourceRef sequenceFlow = "Gate")
                     (BpmnProcess.SequenceFlow prefixed_ids)) = 3.
Proof.
  eexists _, _. split; [reflexivity|].
  split; [vm_compute; reflexivity|].
  repeat split; vm_compute; reflexivity.
Qed.


(** ** Single calls and whole conversions *)

(** The service task of the approval process, lowered with the indices of
    the process: its successor is the gateway's if-condition step. *)
Lemma ProcessTask_links_resolved_successor_witness :
  let check := task "Check" "Check" in
  let stepMap := (build_stepMap NewHash CACAO_SPEC_VERSION_20 approval).2 in
  let nextStepMap := build_nextStepMap ToUpper (BpmnProcess.SequenceFlow approval) in
  let m :=
    Mem.mk (definitions [approval])
      (new_playbook NewHash env CACAO_SPEC_VERSION_20 approval "start--v5-Start") 0 0 in
  let m' :=
    ProcessTask NewHash env check CACAO_COMMAND_TYPE_HTTP CACAO_SPEC_VERSION_20
      stepMap nextStepMap m in
  task_successor stepMap nextStepMap check ≠ ""
  ∧ ∃ step,
      Workflow_of m' = <["action--v5-Check" := step]> (Workflow_of m)
      ∧ Step.OnCompletion step = "if-condition--v5-Gate"
      ∧ Mem.uuids m' = 0.
Proof.
  intros check stepMap nextStepMap m m'.
  assert (H : task_successor stepMap nextStepMap check ≠ "")
    by (vm_compute; discriminate).
  split; [exact H|].
  destruct (ProcessTask_links_resolved_successor
              NewHash env check CACAO_COMMAND_TYPE_HTTP CACAO_SPEC_VERSION_20
              stepMap nextStepMap m H)
    as (step & Hwf & Hlink & _ & _ & _ & Huuids).
  exists step. split; [exact Hwf|]. split; [|exact Huuids].
  vm_compute in Hlink. injection Hlink as Hlink. symmetry. exact Hlink.
Defined.

(** The fork of [dangling_fork], lowered conditionally: with one outgoing
    transition it declares its variable and writes no step. *)
Lemma ProcessGateway_too_few_transitions_witness :
  let fork := gateway "Fork" "" ["Flow_1"] in
  let m :=
    Mem.mk (definitions [dangling_fork])
      (new_playbook NewHash env CACAO_SPEC_VERSION_20 dangling_fork "") 0 0 in
  let m' :=
    ProcessGateway NewHash ToLower Map_keep_ident env fork CACAO_SPEC_VERSION_20 false
      ∅ ∅ m in
  length (BpmnGateway.Outgoing fork) < 2
  ∧ Workflow_of m' = Workflow_of m
  ∧ PlaybookVariables_of m'
    = <["Fork" := gateway_variable fork]> (PlaybookVariables_of m)
  ∧ Mem.uuids m' = Mem.uuids m.
Proof.
  intros fork m m'.
  assert (H : length (BpmnGateway.Outgoing fork) < 2) by (simpl; lia).
  split; [exact H|].
  exact (ProcessGateway_too_few_transitions
           NewHash ToLower Map_keep_ident env fork CACAO_SPEC_VERSION_20 ∅ ∅ m H).
Defined.

(** The gateway of [prefixed_ids]: its switch has a case for each of its
    labels, and one named after the transition of the task Gate2. *)
Lemma ProcessGateway_switch_cases_witness :
  let gate := gateway "Gate" "Which?" ["Flow_1"; "Flow_2"; "Flow_3"] in
  let stepMap := (build_stepMap NewHash CACAO_SPEC_VERSION_20 prefixed_ids).2 in
  let nextStepMap := build_nextStepMap ToUpper (BpmnProcess.SequenceFlow prefixed_ids) in
  let m :=
    Mem.mk (definitions [prefixed_ids])
      (new_playbook NewHash env CACAO_SPEC_VERSION_20 prefixed_ids "") 0 0 in
  let m' :=
    ProcessGateway NewHash ToLower Map_keep_ident env gate CACAO_SPEC_VERSION_20 false
      stepMap nextStepMap m in
  2 < length (BpmnGateway.Outgoing gate)
  ∧ (∀ n key val, (key, val) ∈ range_order env n nextStepMap
                  ↔ nextStepMap !! key = Some val)
  ∧ ∃ step,
      Workflow_of m' = <["switch-condition--v5-Gate" := step]> (Workflow_of m)
      ∧ Step.Switch step = "which"
      ∧ is_Some (Step.Cases step !! "LOW")
      ∧ is_Some (Step.Cases step !! "Gate2:0")
      ∧ Mem.ranges m' = 3.
Proof.
  intros gate stepMap nextStepMap m m'.
  assert (H1 : 2 < length (BpmnGateway.Outgoing gate)) by (simpl; lia).
  assert (H2 : ∀ n key val, (key, val) ∈ range_order env n nextStepMap
                            ↔ nextStepMap !! key = Some val)
    by (intros n key val; apply elem_of_map_to_list).
  split; [exact H1|]. split; [exact H2|].
  destruct (ProcessGateway_switch_cases
              NewHash ToLower Map_keep_ident env gate CACAO_SPEC_VERSION_20
              stepMap nextStepMap m H1 H2)
    as (step & Hwf & _ & Hswitch & Hnames & _ & _ & Hranges).
  exists step. split; [exact Hwf|]. split; [exact Hswitch|].
  split; [|split; [|exact Hranges]].
  - apply Hnames. exists "Gate:LOW", "A". vm_compute. repeat split; reflexivity.
  - apply Hnames. exists "Gate2:0", "A". vm_compute. repeat split; reflexivity.
Defined.

(** The gateway of [triage], whose id is the prefix of no other: the case
    table of its switch is its part of the transition index. *)
Lemma ProcessGateway_switch_own_cases_witness :
  let gate := gateway "Gate" "Severity" ["Flow_1"; "Flow_2"; "Flow_3"] in
  let stepMap := (build_stepMap NewHash CACAO_SPEC_VERSION_20 triage).2 in
  let nextStepMap := build_nextStepMap ToUpper (BpmnProcess.SequenceFlow triage) in
  let m :=
    Mem.mk (definitions [triage])
      (new_playbook NewHash env CACAO_SPEC_VERSION_20 triage "") 0 0 in
  let m' :=
    ProcessGateway NewHash ToLower Map_keep_ident env gate CACAO_SPEC_VERSION_20 false
      stepMap nextStepMap m in
  2 < length (BpmnGateway.Outgoing gate)
  ∧ (∀ n key val, (key, val) ∈ range_order env n nextStepMap
                  ↔ nextStepMap !! key = Some val)
  ∧ (∀ key, is_Some (nextStepMap !! key) →
            HasPrefix key (BpmnGateway.Id gate) = true →
            HasPrefix key (BpmnGateway.Id gate +:+ ":") = true)
  ∧ ∃ step,
      Workflow_of m' !! "switch-condition--v5-Gate" = Some step
      ∧ Step.Cases step !! "LOW" = Some ["action--v5-A"]
      ∧ Step.Cases step !! "HIGH" = Some ["action--v5-C"]
      ∧ Step.Cases step !! "low" = None.
Proof.
  intros gate stepMap nextStepMap m m'.
  assert (H1 : 2 < length (BpmnGateway.Outgoing gate)) by (simpl; lia).
  assert (H2 : ∀ n key val, (key, val) ∈ range_order env n nextStepMap
                            ↔ nextStepMap !! key = Some val)
    by (intros n key val; apply elem_of_map_to_list).
  assert (H3 : ∀ key, is_Some (nextStepMap !! key) →
                      HasPrefix key (BpmnGateway.Id gate) = true →
                      HasPrefix key (BpmnGateway.Id gate +:+ ":") = true).
  { intros key [val Hval]. revert key val Hval.
    apply (map_Forall_to_list
             (λ key _, HasPrefix key (BpmnGateway.Id gate) = true →
                       HasPrefix key (BpmnGateway.Id gate +:+ ":") = true)).
    vm_compute. repeat (constructor; [intros _; reflexivity|]). constructor. }
  split; [exact H1|]. split; [exact H2|]. split; [exact H3|].
  destruct (ProcessGateway_switch_own_cases
              NewHash ToLower Map_keep_ident env gate CACAO_SPEC_VERSION_20
              stepMap nextStepMap m H1 H2 H3)
    as (step & Hstep & _ & Hcases).
  exists step. split; [exact Hstep|].
  split; [|split]; (etrans; [apply Hcases|vm_compute; reflexivity]).
Defined.

(** The flows of the approval process: [Check:0] holds the target of the
    only unlabelled flow leaving Check. *)
Lemma unlabelled_flows_numbered_in_order_witness :
  let flows := BpmnProcess.SequenceFlow approval in
  (∀ f, f ∈ flows → colon_free (BpmnSequenceFlow.SourceRef f) = true)
  ∧ (∀ f (k : nat), f ∈ flows → BpmnSequenceFlow.Name f ≠ "" →
                    ToUpper (BpmnSequenceFlow.Name f) ≠ pretty k)
  ∧ colon_free "Check" = true
  ∧ build_nextStepMap ToUpper flows !! "Check:0" = Some "Gate"
  ∧ build_nextStepMap ToUpper flows !! "Check:1" = None.
Proof.
  intros flows.
  assert (H1 : ∀ f, f ∈ flows → colon_free (BpmnSequenceFlow.SourceRef f) = true).
  { apply Forall_forall. repeat constructor. }
  assert (H2 : ∀ f (k : nat), f ∈ flows → BpmnSequenceFlow.Name f ≠ "" →
                              ToUpper (BpmnSequenceFlow.Name f) ≠ pretty k).
  { intros f k Hf. revert f Hf.
    apply (proj1 (Forall_forall
                    (λ f, BpmnSequenceFlow.Name f ≠ "" →
                          ToUpper (BpmnSequenceFlow.Name f) ≠ pretty k) flows)).
    repeat constructor; intros Hname;
      first [by destruct Hname | by apply not_all_digits_not_numeral]. }
  assert (H3 : colon_free "Check" = true) by reflexivity.
  split; [exact H1|]. split; [exact H2|]. split; [exact H3|]. split.
  - exact (unlabelled_flows_numbered_in_order ToUpper flows "Check" 0 H1 H2 H3).
  - exact (unlabelled_flows_numbered_in_order ToUpper flows "Check" 1 H1 H2 H3).
Defined.

(** Two flows leaving Gate whose labels upper-case to YES: the key
    [Gate:YES] holds the target of the second. *)
Lemma labelled_lookup_is_last_flow_witness :
  (∀ f, f ∈ same_label_twice → colon_free (BpmnSequenceFlow.SourceRef f) = true)
  ∧ colon_free "Gate" = true
  ∧ (∀ k : nat, "YES" ≠ pretty k)
  ∧ build_nextStepMap ToUpper same_label_twice !! "Gate:YES" = Some "B".
Proof.
  assert (H1 : ∀ f, f ∈ same_label_twice →
                    colon_free (BpmnSequenceFlow.SourceRef f) = true).
  { apply Forall_forall. repeat constructor. }
  assert (H2 : colon_free "Gate" = true) by reflexivity.
  assert (H3 : ∀ k : nat, "YES" ≠ pretty k)
    by (intros k; by apply not_all_digits_not_numeral).
  split; [exact H1|]. split; [exact H2|]. split; [exact H3|].
  exact (labelled_lookup_is_last_flow ToUpper same_label_twice "Gate" "YES" H1 H2 H3).
Defined.

(** The header of the playbook of the approval process. *)
Lemma ConvertToCacao_header_witness :
  BpmnDefinitions.Processes (definitions [approval]) = [approval]
  ∧ ∃ cacaoPlaybook,
      playbook (ConvertToCacao NewHash ToUpper ToLower Map_keep_ident env
                  (definitions [approval]) CACAO_SPEC_VERSION_20)
      = Some cacaoPlaybook
      ∧ CacaoPlaybook.ID cacaoPlaybook = "playbook--v5-Process_1"
      ∧ CacaoPlaybook.Name cacaoPlaybook = "approval"
      ∧ CacaoPlaybook.WorkflowStart cacaoPlaybook = "start--v5-Start"
      ∧ CacaoPlaybook.Created cacaoPlaybook = Some 1700000000%Z.
Proof.
  assert (H : BpmnDefinitions.Processes (definitions [approval]) = [approval])
    by reflexivity.
  split; [exact H|].
  destruct (ConvertToCacao_header NewHash ToUpper ToLower Map_keep_ident env
              (definitions [approval]) CACAO_SPEC_VERSION_20 approval H)
    as (cacaoPlaybook & Hplaybook & Hheader).
  exists cacaoPlaybook. split; [exact Hplaybook|].
  split; [exact (f_equal CacaoPlaybook.ID Hheader)|].
  split; [exact (f_equal CacaoPlaybook.Name Hheader)|].
  split; [exact (f_equal CacaoPlaybook.WorkflowStart Hheader)|].
  exact (f_equal CacaoPlaybook.Created Hheader).
Defined.

(** The variable table of the playbook of the approval process: the
    gateway Approved? declares [approved], and nothing declares [check]. *)
Lemma playbook_variables_of_gateways_witness :
  BpmnDefinitions.Processes (definitions [approval]) = [approval]
  ∧ ∃ cacaoPlaybook,
      playbook (ConvertToCacao NewHash ToUpper ToLower Map_keep_ident env
                  (definitions [approval]) CACAO_SPEC_VERSION_20)
      = Some cacaoPlaybook
      ∧ CacaoPlaybook.PlaybookVariables cacaoPlaybook !! "approved"
        = Some (PlaybookVariable.mk "integer" "Approved?" "0" false)
      ∧ CacaoPlaybook.PlaybookVariables cacaoPlaybook !! "check" = None.
Proof.
  assert (H : BpmnDefinitions.Processes (definitions [approval]) = [approval])
    by reflexivity.
  split; [exact H|].
  destruct (playbook_variables_of_gateways NewHash ToUpper ToLower Map_keep_ident env
              (definitions [approval]) CACAO_SPEC_VERSION_20 approval H)
    as (cacaoPlaybook & Hplaybook & Hvars).
  exists cacaoPlaybook. split; [exact Hplaybook|].
  split; (etrans; [apply Hvars|vm_compute; reflexivity]).
Defined.

(** The workflow of the playbook of the approval process, entry by
    entry. *)
Lemma workflow_is_the_lowered_nodes_witness :
  let stepMap := (build_stepMap NewHash CACAO_SPEC_VERSION_20 approval).2 in
  let nextStepMap := build_nextStepMap ToUpper (BpmnProcess.SequenceFlow approval) in
  let draws :=
    Mem.uuids (convert_process NewHash ToUpper ToLower Map_keep_ident env
                 (definitions [approval]) approval CACAO_SPEC_VERSION_20) in
  let written :=
    written_for NewHash ToLower Map_keep_ident env CACAO_SPEC_VERSION_20 approval
      stepMap nextStepMap (declared_start NewHash CACAO_SPEC_VERSION_20 approval)
      draws in
  BpmnDefinitions.Processes (definitions [approval]) = [approval]
  ∧ ∃ cacaoPlaybook,
      playbook (ConvertToCacao NewHash ToUpper ToLower Map_keep_ident env
                  (definitions [approval]) CACAO_SPEC_VERSION_20)
      = Some cacaoPlaybook
      ∧ (∀ key step,
           CacaoPlaybook.Workflow cacaoPlaybook !! key = Some step → written key step)
      ∧ (∀ key step,
           written key step → is_Some (CacaoPlaybook.Workflow cacaoPlaybook !! key))
      ∧ Step.Type_ End_step = CACAO_STEP_TYPE_END
      ∧ Step.Name End_step = "End".
Proof.
  intros stepMap nextStepMap draws written.
  assert (H : BpmnDefinitions.Processes (definitions [approval]) = [approval])
    by reflexivity.
  split; [exact H|].
  exact (workflow_is_the_lowered_nodes NewHash ToUpper ToLower Map_keep_ident env
           (definitions [approval]) CACAO_SPEC_VERSION_20 approval H).
Defined.

(** The inputs of the steps of the approval playbook are declared. *)
Lemma in_args_are_declared_witness :
  BpmnDefinitions.Processes (definitions [approval]) = [approval]
  ∧ ∃ cacaoPlaybook,
      playbook (ConvertToCacao NewHash ToUpper ToLower Map_keep_ident env
                  (definitions [approval]) CACAO_SPEC_VERSION_20)
      = Some cacaoPlaybook
      ∧ ∀ key step name,
          CacaoPlaybook.Workflow cacaoPlaybook !! key = Some step →
          name ∈ Step.InArgs step →
          is_Some (CacaoPlaybook.PlaybookVariables cacaoPlaybook !! name).
Proof.
  assert (H : BpmnDefinitions.Processes (definitions [approval]) = [approval])
    by reflexivity.
  split; [exact H|].
  exact (in_args_are_declared NewHash ToUpper ToLower Map_keep_ident env
           (definitions [approval]) CACAO_SPEC_VERSION_20 approval H).
Defined.

(** The keys of the workflow of the approval playbook under 1.1. *)
Lemma workflow_keys_are_step_ids_witness :
  BpmnDefinitions.Processes (definitions [approval]) = [approval]
  ∧ ∃ cacaoPlaybook,
      playbook (ConvertToCacao NewHash ToUpper ToLower Map_keep_ident env
                  (definitions [approval]) CACAO_SPEC_VERSION_11)
      = Some cacaoPlaybook
      ∧ ∀ key,
          is_Some (CacaoPlaybook.Workflow cacaoPlaybook !! key) →
          key ≠ ""
          ∧ ∃ kind identifier,
              kind ∈ derived_kinds
              ∧ key = Sprintf_id (kind_for CACAO_SPEC_VERSION_11 kind) identifier.
Proof.
  assert (H : BpmnDefinitions.Processes (definitions [approval]) = [approval])
    by reflexivity.
  split; [exact H|].
  exact (workflow_keys_are_step_ids NewHash ToUpper ToLower Map_keep_ident env
           (definitions [approval]) CACAO_SPEC_VERSION_11 approval H).
Defined.

End Examples.

